(** * The inference-and-aggregation engine of [App.tsx]

    A shallow embedding of the pure data pipeline of [src/App.tsx]
    (numeric coercion, default schema selection, latest-value ranking,
    daily time series with moving average, histogram, summary statistics)
    together with the properties stated about it, and of the rest of
    [App]: the columns and their classes, the search box, the group
    options, the groups by mean value, the loading of pages, headers and
    units.

    JavaScript numbers are kept abstract behind the class [Number]; the
    instance [Float64] is IEEE-754 binary64 (what the program runs on), the
    instance [ExactNumber] is exact rational arithmetic with a NaN.  Host
    built-ins whose result depends on the engine or the time zone
    ([Date.parse], [toISOString], [localeCompare]) are the fields of
    [Host]. *)

From Stdlib Require Import ZArith QArith Qpower Qcanon Qround Floats Ascii
  String.
From Stdlib Require OrderedTypeEx.
From stdpp Require Import base option list gmap strings sorting.

Local Open Scope string_scope.
Local Open Scope list_scope.
Local Open Scope Z_scope.
Local Open Scope nat_scope.

(** ** Strings *)

Module JsString.

(** White space and line terminators of [String.prototype.trim], on the
    code units below 256: TAB, LF, VT, FF, CR, SP and NBSP. *)
Definition is_space (c : ascii) : bool :=
  let n := nat_of_ascii c in
  ((9 <=? n) && (n <=? 13)) || (n =? 32) || (n =? 160).

Fixpoint ltrim (l : list ascii) : list ascii :=
  match l with
  | c :: l' => if is_space c then ltrim l' else l
  | [] => []
  end.

Definition trim (s : string) : string :=
  string_of_list_ascii
    (rev (ltrim (rev (ltrim (list_ascii_of_string s))))).

Definition lower (c : ascii) : ascii :=
  let n := nat_of_ascii c in
  if (65 <=? n) && (n <=? 90) then ascii_of_nat (n + 32) else c.

Fixpoint toLowerCase (s : string) : string :=
  match s with
  | EmptyString => EmptyString
  | String c s' => String (lower c) (toLowerCase s')
  end.

(** A string in a condition: [""] is falsy, every other string truthy. *)
Definition truthy (s : string) : bool :=
  match s with EmptyString => false | String _ _ => true end.

(** [candidates.includes(c)] *)
Definition includes (candidates : list string) (c : string) : bool :=
  existsb (String.eqb c) candidates.

End JsString.

(** ** The shapes of the data *)

(** The types of the program's values, over the type [T] of its numbers. *)
Section Data.
Context {T : Type}.

(** A field of a fetched JSON record: the values of type [unknown]. *)
Inductive unknown : Type :=
| VUndefined
| VNull
| VBool (b : bool)
| VNumber (n : T)
| VString (s : string)
| VObject.

(** [type Latest = { dateMs: number; value: number }]; the time stamp is 0
    or a result of [Date.parse], an integer. *)
Record Latest : Type := { dateMs : Z; latest_value : T }.

(** [{ label, value }] *)
Record Bar : Type := { label : string; value : T }.

(** [{ date, value }] *)
Record Point : Type := { date : string; pvalue : T }.

(** [{ date, value, ma? }] *)
Record PointMA : Type := { ma_date : string; ma_value : T; ma : option T }.

(** A bucket.  The label [`${formatValue(start)}–${formatValue(end)}`] is
    kept as the two numbers it prints. *)
Record Bin : Type := { bin_start : T; bin_end : T; bin_count : nat }.

(** The record of [stats]; a field is [None] where the program would
    store [undefined]. *)
Record Stats : Type := {
  count : nat;
  smin : option T;
  smax : option T;
  mean : T;
  median : option T;
  p95 : option T
}.

End Data.

Arguments unknown : clear implicits.
Arguments Latest : clear implicits.
Arguments Bar : clear implicits.
Arguments Point : clear implicits.
Arguments PointMA : clear implicits.
Arguments Bin : clear implicits.
Arguments Stats : clear implicits.

(** ** Numbers *)

(** The operations of the JavaScript number type that the program uses.
    [real] is a ghost: the rational a finite number denotes, [None] for NaN
    and the infinities. *)
Class Number : Type := {
  num : Type;
  of_nat : nat -> num;                 (* an integer literal or a length *)
  lit_0_95 : num;                      (* the literal [0.95] *)
  NaN : num;
  nadd : num -> num -> num;
  nsub : num -> num -> num;
  nmul : num -> num -> num;
  ndiv : num -> num -> num;
  nlt : num -> num -> bool;            (* [a < b] *)
  isFinite : num -> bool;              (* [Number.isFinite] *)
  falsy : num -> bool;                 (* [!a]: zero or NaN *)
  floor : num -> num;                  (* [Math.floor] *)
  nmin : num -> num -> num;            (* [Math.min(a, b)] *)
  nmax : num -> num -> num;            (* [Math.max(a, b)] *)
  to_index : num -> option nat;        (* the array index [a] names, if any *)
  Number_of_string : string -> num;    (* [Number(s)] *)
  real : num -> option Qc
}.

(** ** Values and rows *)

Section Values.
Context {N : Number}.

(** [AnyRecord = Record<string, unknown>] *)
Definition AnyRecord : Type := gmap string (unknown num).

(** [r[c]] *)
Definition get (r : AnyRecord) (c : string) : unknown num :=
  default VUndefined (r !! c).

Definition isString (v : unknown num) : bool :=
  match v with VString _ => true | _ => false end.

Definition isNumber (v : unknown num) : bool :=
  match v with VNumber n => isFinite n | _ => false end.

Definition coerceNumber (v : unknown num) : option num :=
  match v with
  | VNumber n => if isNumber v then Some n else None
  | VString s =>
      let n := Number_of_string s in
      if isFinite n then Some n else None
  | _ => None
  end.

End Values.

(** ** Host built-ins *)

Class Host : Type := {
  (** [Date.parse(s)]: the time value in milliseconds, [None] for NaN *)
  Date_parse : string -> option Z;
  (** [new Date(t).toISOString().slice(0, 10)] *)
  toISODate : Z -> string;
  (** [a.localeCompare(b)]: negative, zero or positive *)
  localeCompare : string -> string -> Z
}.

(** ** [Map<string, V>]: keys in insertion order *)

Module JsMap.
Section JsMap.
Context {V : Type}.

Definition t : Type := list (string * V).

Definition empty : t := [].

Fixpoint get (k : string) (m : t) : option V :=
  match m with
  | [] => None
  | (k', v) :: m' => if String.eqb k k' then Some v else get k m'
  end.

Definition has (k : string) (m : t) : bool :=
  match get k m with Some _ => true | None => false end.

(** [m.set(k, v)]: a present key keeps its place, a new one goes last. *)
Fixpoint set (k : string) (v : V) (m : t) : t :=
  match m with
  | [] => [(k, v)]
  | (k', v') :: m' =>
      if String.eqb k k' then (k, v) :: m' else (k', v') :: set k v m'
  end.

(** [Array.from(m.entries())] *)
Definition entries (m : t) : list (string * V) := m.

Definition keys (m : t) : list string := map fst m.
End JsMap.
Arguments t : clear implicits.
End JsMap.

(** ** [Array.prototype.sort] *)

(** The sort is stable; it is modelled by the stable insertion sort.
    [after a b] reads "the comparator is positive at [(a, b)]", which puts
    [a] behind [b]. *)
Section JsSort.
Context {A : Type} (after : A -> A -> bool).

Fixpoint sort_insert (x : A) (l : list A) : list A :=
  match l with
  | [] => [x]
  | y :: l' => if after x y then y :: sort_insert x l' else x :: l
  end.

Fixpoint js_sort (l : list A) : list A :=
  match l with
  | [] => []
  | x :: l' => sort_insert x (js_sort l')
  end.
End JsSort.

(** ** The aggregators of [App] *)

Section Engine.
Context {N : Number} {H : Host}.
Import JsString.

(** A column state ([string | undefined]) in a condition: the column it
    names when truthy. *)
Definition selected (k : option string) : option string :=
  match k with
  | Some s => if truthy s then Some s else None
  | None => None
  end.

(** A read [vals[i]] used as an operand: [undefined] becomes NaN. *)
Definition operand (vals : list num) (i : nat) : num :=
  match vals !! i with Some v => v | None => NaN end.

(** *** [chartData]: latest value per group, top 10 *)

(** The recency of a row: [t], which starts at 0. *)
Definition recency (dateKey : option string) (r : AnyRecord) : Z :=
  match selected dateKey with
  | Some dk =>
      match get r dk with
      | VString ds =>
          match Date_parse ds with Some ms => ms | None => 0%Z end
      | _ => 0%Z
      end
  | None => 0%Z
  end.

(** One turn of [for (const r of filteredRows)]. *)
Definition chart_step (groupKey metricKey : string)
    (dateKey nameKey : option string)
    (st : JsMap.t (Latest num) * JsMap.t string) (r : AnyRecord)
    : JsMap.t (Latest num) * JsMap.t string :=
  let '(latestByGroup, idToName) := st in
  match get r groupKey with
  | VString g =>
      if negb (truthy (trim g)) then st else
      match coerceNumber (get r metricKey) with
      | None => st
      | Some n =>
          let idToName :=
            match selected nameKey with
            | Some nk =>
                match get r nk with
                | VString nm =>
                    if truthy (trim nm) && negb (JsMap.has g idToName)
                    then JsMap.set g nm idToName else idToName
                | _ => idToName
                end
            | None => idToName
            end in
          let t := recency dateKey r in
          let latestByGroup :=
            match JsMap.get g latestByGroup with
            | None =>
                JsMap.set g {| dateMs := t; latest_value := n |} latestByGroup
            | Some prev =>
                if (dateMs prev <=? t)%Z
                then JsMap.set g {| dateMs := t; latest_value := n |}
                       latestByGroup
                else latestByGroup
            end in
          (latestByGroup, idToName)
      end
  | _ => st
  end.

Definition chart_loop (groupKey metricKey : string)
    (dateKey nameKey : option string) (filteredRows : list AnyRecord)
    : JsMap.t (Latest num) * JsMap.t string :=
  fold_left (chart_step groupKey metricKey dateKey nameKey) filteredRows
    (JsMap.empty, JsMap.empty).

(** [idToName.get(id) ?? String(id)] *)
Definition label_of (idToName : JsMap.t string) (id : string) : string :=
  match JsMap.get id idToName with Some nm => nm | None => id end.

(** [(a, b) => b.value - a.value] is positive *)
Definition by_value_desc (a b : Bar num) : bool :=
  nlt (of_nat 0) (nsub (value b) (value a)).

Definition chart_bars (st : JsMap.t (Latest num) * JsMap.t string) : list (Bar num) :=
  map (fun '(id, v) =>
         {| label := label_of (snd st) id; value := latest_value v |})
      (JsMap.entries (fst st)).

Definition chartData (groupKey metricKey dateKey nameKey : option string)
    (filteredRows : list AnyRecord) : list (Bar num) :=
  match selected groupKey, selected metricKey with
  | Some gk, Some mk =>
      let data := chart_bars (chart_loop gk mk dateKey nameKey filteredRows) in
      take 10 (js_sort by_value_desc data)
  | _, _ => []
  end.

(** *** [timeSeries]: one value per calendar day *)

(** The test that makes the loop skip a row of another group. *)
Definition other_group (groupKey : option string)
    (selectedGroupValue : string) (r : AnyRecord) : bool :=
  match selected groupKey with
  | Some gk =>
      if negb (String.eqb selectedGroupValue "All") then
        match get r gk with
        | VString g => negb (String.eqb g selectedGroupValue)
        | _ => true
        end
      else false
  | None => false
  end.

Definition series_step (metricKey dateKey : string)
    (groupKey : option string) (selectedGroupValue : string)
    (latestPerDay : JsMap.t num) (r : AnyRecord) : JsMap.t num :=
  if other_group groupKey selectedGroupValue r then latestPerDay else
  match get r dateKey with
  | VString ds =>
      match Date_parse ds with
      | None => latestPerDay
      | Some t =>
          let d := toISODate t in
          match coerceNumber (get r metricKey) with
          | None => latestPerDay
          | Some n => JsMap.set d n latestPerDay
          end
      end
  | _ => latestPerDay
  end.

(** [(a, b) => a.date.localeCompare(b.date)] is positive *)
Definition by_date (a b : Point num) : bool :=
  (0 <? localeCompare (date a) (date b))%Z.

Definition timeSeries (metricKey dateKey groupKey : option string)
    (selectedGroupValue : string) (filteredRows : list AnyRecord)
    : list (Point num) :=
  match selected metricKey, selected dateKey with
  | Some mk, Some dk =>
      let latestPerDay :=
        fold_left (series_step mk dk groupKey selectedGroupValue)
          filteredRows JsMap.empty in
      js_sort by_date
        (map (fun '(d, v) => {| date := d; pvalue := v |})
           (JsMap.entries latestPerDay))
  | _, _ => []
  end.

(** *** [timeSeriesWithMA]: trailing 7-point moving average *)

Definition window : nat := 7.

(** One turn of [for (let i = 0; i < vals.length; i++)] on the pair
    [(run, ma)]. *)
Definition ma_step (vals : list num) (st : num * list (option num)) (i : nat)
    : num * list (option num) :=
  let '(run, ma) := st in
  let run := nadd run (operand vals i) in
  let run := if window <=? i then nsub run (operand vals (i - window)) else run in
  if window - 1 <=? i
  then (run, (ma ++ [Some (ndiv run (of_nat window))])%list)
  else (run, (ma ++ [None])%list).

Definition ma_loop (vals : list num) : num * list (option num) :=
  fold_left (ma_step vals) (seq 0 (length vals)) (of_nat 0, []).

Definition timeSeriesWithMA (timeSeries : list (Point num)) : list (PointMA num) :=
  if length timeSeries =? 0 then [] else
  let vals := map pvalue timeSeries in
  let ma := snd (ma_loop vals) in
  imap (fun i d =>
          {| ma_date := date d; ma_value := pvalue d;
             ma := mjoin (ma !! i) |})
       timeSeries.

(** *** [histogram]: 20 buckets *)

Definition bins : nat := 20.

(** [filteredRows.map(r => coerceNumber(r[metricKey])).filter(n => n !== undefined)] *)
Definition metric_values (metricKey : string) (filteredRows : list AnyRecord)
    : list num :=
  omap (fun r => coerceNumber (get r metricKey)) filteredRows.

(** [Math.min(...values)] and [Math.max(...values)] of a non-empty list *)
Definition min_of (v0 : num) (vs : list num) : num := fold_left nmin vs v0.
Definition max_of (v0 : num) (vs : list num) : num := fold_left nmax vs v0.

(** [(max - min) / bins || 1] *)
Definition bin_step (min max : num) : num :=
  let s := ndiv (nsub max min) (of_nat bins) in
  if falsy s then of_nat 1 else s.

(** [Math.min(bins - 1, Math.max(0, Math.floor((v - min) / step)))] *)
Definition bin_index (min step v : num) : num :=
  nmin (of_nat (bins - 1))
    (nmax (of_nat 0) (floor (ndiv (nsub v min) step))).

(** [counts[idx]++].  After [Math.min(bins - 1, _)] a number is at most
    19; an [idx] that is not a number names the property ["NaN"] of the
    array and leaves the 20 counters as they are. *)
Definition count_at (counts : list nat) (idx : num) : list nat :=
  match to_index idx with
  | Some k => alter S k counts
  | None => counts
  end.

Definition histogram (metricKey : option string)
    (filteredRows : list AnyRecord) : list (Bin num) :=
  match selected metricKey with
  | None => []
  | Some mk =>
      match metric_values mk filteredRows with
      | [] => []
      | v0 :: vs =>
          let values := v0 :: vs in
          let min := min_of v0 vs in
          let max := max_of v0 vs in
          let step := bin_step min max in
          let counts :=
            fold_left (fun counts v => count_at counts (bin_index min step v))
              values (replicate bins 0) in
          imap (fun i c =>
                  let start := nadd min (nmul (of_nat i) step) in
                  {| bin_start := start; bin_end := nadd start step;
                     bin_count := c |})
               counts
      end
  end.

(** *** [stats]: count, min, max, mean, median, p95 *)

(** [(a, b) => a - b] is positive *)
Definition ascending (a b : num) : bool := nlt (of_nat 0) (nsub a b).

(** [Math.min(count - 1, Math.floor(count * 0.95))] *)
Definition p95_index (count : nat) : num :=
  nmin (of_nat (count - 1)) (floor (nmul (of_nat count) lit_0_95)).

(** [vals[idx]] for a number [idx] *)
Definition at_number (vals : list num) (idx : num) : option num :=
  match to_index idx with Some k => vals !! k | None => None end.

Definition stats_of (vals : list num) : Stats num :=
  let count := length vals in
  if count =? 0 then
    {| count := 0; smin := Some (of_nat 0); smax := Some (of_nat 0);
       mean := of_nat 0; median := Some (of_nat 0); p95 := Some (of_nat 0) |}
  else
    {| count := count;
       smin := vals !! 0;
       smax := vals !! (count - 1);
       mean := ndiv (fold_left nadd vals (of_nat 0)) (of_nat count);
       median :=
         if negb (count mod 2 =? 0) then vals !! ((count - 1) / 2)
         else Some (ndiv (nadd (operand vals (count / 2 - 1))
                               (operand vals (count / 2)))
                         (of_nat 2));
       p95 := at_number vals (p95_index count) |}.

Definition stats (metricKey : option string) (filteredRows : list AnyRecord)
    : option (Stats num) :=
  match selected metricKey with
  | None => None
  | Some mk => Some (stats_of (js_sort ascending (metric_values mk filteredRows)))
  end.

End Engine.

(** ** The default selections ([useEffect], "Initialize defaults once data lands") *)

Section Defaults.
Context {N : Number}.
Import JsString.

(** The three [useState<string | undefined>] slots. *)
Record Selection : Type := {
  groupKey : option string;
  metricKey : option string;
  dateKey : option string
}.

Definition groupCandidates : list string :=
  ["geo_id_name"; "geoid_name"; "geo_name"; "borough"; "neighborhood";
   "community_district"].

Definition metricCandidates : list string :=
  ["air_quality_index"; "aqi"; "pm25"; "pm_2_5"; "no2"; "ozone"; "so2";
   "value"; "score"].

Definition dateCandidates : list string :=
  ["date"; "measurement_date"; "sample_date"; "created_date"; "time";
   "timestamp"; "datetime"].

(** [a || b] on [string | undefined] *)
Definition or_else (a b : option string) : option string :=
  match selected a with Some _ => a | None => b end.

(** [columns.find(c => candidates.includes(c.toLowerCase())) || columns[0]] *)
Definition preferred_or_first (candidates columns : list string)
    : option string :=
  or_else (find (fun c => includes candidates (toLowerCase c)) columns)
          (columns !! 0).

(** The updater [(prev) => { if (prev) return prev; ... }]. *)
Definition init_slot (candidates columns : list string)
    (prev : option string) : option string :=
  match selected prev with
  | Some _ => prev
  | None => preferred_or_first candidates columns
  end.

Definition initDefaults (rows : list AnyRecord)
    (stringColumns numericColumns dateColumns : list string)
    (sel : Selection) : Selection :=
  if length rows =? 0 then sel else
  {| groupKey := init_slot groupCandidates stringColumns (groupKey sel);
     metricKey := init_slot metricCandidates numericColumns (metricKey sel);
     dateKey := init_slot dateCandidates dateColumns (dateKey sel) |}.

End Defaults.

(** ** Numeric literals of [Number(s)] *)

(** [StringNumericLiteral]: optional white space around a decimal literal
    (sign, digits, fraction, exponent), [Infinity], or an unsigned binary,
    octal or hexadecimal integer; the empty string is 0. *)
Module Literal.
Import JsString.

(** [LDecimal neg m e] is [(-1)^neg * m * 10^e]. *)
Inductive t : Type :=
| LNaN
| LInfinity (neg : bool)
| LDecimal (neg : bool) (m : N) (e : Z).

Definition digit_of (base : nat) (c : ascii) : option nat :=
  let n := nat_of_ascii c in
  let d :=
    if (48 <=? n) && (n <=? 57) then Some (n - 48)
    else if (97 <=? n) && (n <=? 102) then Some (n - 87)
    else if (65 <=? n) && (n <=? 70) then Some (n - 55)
    else None in
  match d with
  | Some v => if v <? base then Some v else None
  | None => None
  end.

(** The longest run of digits: its value on top of [acc], how many digits
    were read on top of [cnt], and what follows. *)
Fixpoint read_digits (base : nat) (l : list ascii) (acc : N) (cnt : nat)
    : N * nat * list ascii :=
  match l with
  | c :: l' =>
      match digit_of base c with
      | Some d =>
          read_digits base l' (acc * N.of_nat base + N.of_nat d)%N (S cnt)
      | None => (acc, cnt, l)
      end
  | [] => (acc, cnt, l)
  end.

Definition radix (base : nat) (l : list ascii) : t :=
  match read_digits base l 0%N 0 with
  | (v, cnt, []) => if cnt =? 0 then LNaN else LDecimal false v 0
  | _ => LNaN
  end.

Definition is_char (c : ascii) (s : string) : bool :=
  existsb (Ascii.eqb c) (list_ascii_of_string s).

(** What follows the mantissa: nothing, or an exponent part. *)
Definition read_exponent (l : list ascii) : option Z :=
  match l with
  | [] => Some 0%Z
  | c :: l1 =>
      if is_char c "eE" then
        let '(neg, l2) :=
          match l1 with
          | s :: r =>
              if is_char s "+" then (false, r)
              else if is_char s "-" then (true, r)
              else (false, l1)
          | [] => (false, l1)
          end in
        match read_digits 10 l2 0%N 0 with
        | (v, cnt, []) =>
            if cnt =? 0 then None
            else Some (if neg then - Z.of_N v else Z.of_N v)%Z
        | _ => None
        end
      else None
  end.

Definition read_unsigned (neg : bool) (l : list ascii) : t :=
  if String.eqb (string_of_list_ascii l) "Infinity" then LInfinity neg else
  let '(ip, ni, l1) := read_digits 10 l 0%N 0 in
  let '(m, nf, l2) :=
    match l1 with
    | c :: r => if is_char c "." then read_digits 10 r ip 0 else (ip, 0, l1)
    | [] => (ip, 0, l1)
    end in
  if ni + nf =? 0 then LNaN else
  match read_exponent l2 with
  | Some e => LDecimal neg m (e - Z.of_nat nf)
  | None => LNaN
  end.

Definition parse (s : string) : t :=
  let l := list_ascii_of_string (trim s) in
  match l with
  | [] => LDecimal false 0 0
  | c :: r =>
      if is_char c "+" then read_unsigned false r
      else if is_char c "-" then read_unsigned true r
      else
        match r with
        | x :: r' =>
            if is_char c "0" && is_char x "xX" then radix 16 r'
            else if is_char c "0" && is_char x "oO" then radix 8 r'
            else if is_char c "0" && is_char x "bB" then radix 2 r'
            else read_unsigned false l
        | [] => read_unsigned false l
        end
  end.
End Literal.

(** ** IEEE-754 binary64: the numbers the program runs on *)

Module F64.

(** The double nearest to an integer. *)
Definition of_Z (z : Z) : float :=
  SF2Prim (binary_normalize prec emax z 0 false).

Definition real (x : float) : option Qc :=
  match Prim2SF x with
  | S754_zero _ => Some (Q2Qc 0)
  | S754_finite s m e =>
      Some (Q2Qc (inject_Z (cond_Zopp s (Zpos m)) * Qpower 2 e))
  | _ => None
  end.

Definition falsy (x : float) : bool := is_nan x || is_zero x.

Definition floor (x : float) : float :=
  match Prim2SF x with
  | S754_finite s m e =>
      if (e <? 0)%Z then
        let z := (cond_Zopp s (Zpos m) / 2 ^ (- e))%Z in
        if (z =? 0)%Z then PrimFloat.zero else of_Z z
      else x
  | _ => x
  end.

Definition min (a b : float) : float :=
  if is_nan a || is_nan b then PrimFloat.nan
  else if (a <? b)%float then a
  else if (b <? a)%float then b
  else if get_sign a then a else b.

Definition max (a b : float) : float :=
  if is_nan a || is_nan b then PrimFloat.nan
  else if (a <? b)%float then b
  else if (b <? a)%float then a
  else if get_sign a then b else a.

(** An array index is an integer from 0 to 2^32 - 2. *)
Definition index_of_Z (z : Z) : option nat :=
  if (z <? 2 ^ 32 - 1)%Z then Some (Z.to_nat z) else None.

Definition to_index (x : float) : option nat :=
  match Prim2SF x with
  | S754_zero _ => Some 0
  | S754_finite false m e =>
      if (0 <=? e)%Z then
        if (e <=? 32)%Z then index_of_Z (Zpos m * 2 ^ e) else None
      else if (Zpos m mod 2 ^ (- e) =? 0)%Z
           then index_of_Z (Zpos m / 2 ^ (- e))
           else None
  | _ => None
  end.

(** The literal's value, rounded to nearest, ties to even. *)
Definition of_literal (l : Literal.t) : float :=
  match l with
  | Literal.LNaN => PrimFloat.nan
  | Literal.LInfinity neg => if neg then PrimFloat.neg_infinity else PrimFloat.infinity
  | Literal.LDecimal neg m e =>
      match m with
      | N0 => if neg then PrimFloat.neg_zero else PrimFloat.zero
      | Npos p =>
          if (0 <=? e)%Z then
            SF2Prim (binary_normalize prec emax
                       (cond_Zopp neg (Zpos p) * 10 ^ e) 0 false)
          else
            SF2Prim (SFdiv prec emax (S754_finite neg p 0)
                       (S754_finite false (Z.to_pos (10 ^ (- e))) 0))
      end
  end.

Definition Number_of_string (s : string) : float :=
  of_literal (Literal.parse s).

End F64.

Definition Float64 : Number := {|
  num := float;
  of_nat := fun n => F64.of_Z (Z.of_nat n);
  lit_0_95 := 0x1.e666666666666p-1%float;
  NaN := PrimFloat.nan;
  nadd := PrimFloat.add;
  nsub := PrimFloat.sub;
  nmul := PrimFloat.mul;
  ndiv := PrimFloat.div;
  nlt := PrimFloat.ltb;
  isFinite := is_finite;
  falsy := F64.falsy;
  floor := F64.floor;
  nmin := F64.min;
  nmax := F64.max;
  to_index := F64.to_index;
  Number_of_string := F64.Number_of_string;
  real := F64.real
|}.

(** ** Exact arithmetic: rationals and one non-number *)

(** [None] stands for every value that is not a finite number. *)
Module Exact.

Definition of_Z (z : Z) : option Qc := Some (Q2Qc (inject_Z z)).

Definition lift2 (f : Qc -> Qc -> Qc) (a b : option Qc) : option Qc :=
  match a, b with
  | Some x, Some y => Some (f x y)
  | _, _ => None
  end.

Definition div (a b : option Qc) : option Qc :=
  match a, b with
  | Some x, Some y => if decide (y = 0%Qc) then None else Some (x / y)%Qc
  | _, _ => None
  end.

Definition lt (a b : option Qc) : bool :=
  match a, b with
  | Some x, Some y => bool_decide (x < y)%Qc
  | _, _ => false
  end.

Definition falsy (a : option Qc) : bool :=
  match a with
  | Some x => bool_decide (x = 0%Qc)
  | None => true
  end.

Definition floor (a : option Qc) : option Qc :=
  match a with
  | Some x => of_Z (Qfloor x)
  | None => None
  end.

Definition qmin (x y : Qc) : Qc := if decide (x < y)%Qc then x else y.
Definition qmax (x y : Qc) : Qc := if decide (x < y)%Qc then y else x.

Definition to_index (a : option Qc) : option nat :=
  match a with
  | Some x =>
      if decide (x = Q2Qc (inject_Z (Qfloor x))) then
        if (0 <=? Qfloor x)%Z then Some (Z.to_nat (Qfloor x)) else None
      else None
  | None => None
  end.

Definition of_literal (l : Literal.t) : option Qc :=
  match l with
  | Literal.LDecimal neg m e =>
      Some (Q2Qc (inject_Z (cond_Zopp neg (Z.of_N m)) * Qpower 10 e))
  | _ => None
  end.

End Exact.

Definition ExactNumber : Number := {|
  num := option Qc;
  of_nat := fun n => Exact.of_Z (Z.of_nat n);
  lit_0_95 := Some (Q2Qc (19 # 20));
  NaN := None;
  nadd := Exact.lift2 Qcplus;
  nsub := Exact.lift2 Qcminus;
  nmul := Exact.lift2 Qcmult;
  ndiv := Exact.div;
  nlt := Exact.lt;
  isFinite := fun a => match a with Some _ => true | None => false end;
  falsy := Exact.falsy;
  floor := Exact.floor;
  nmin := Exact.lift2 Exact.qmin;
  nmax := Exact.lift2 Exact.qmax;
  to_index := Exact.to_index;
  Number_of_string := fun s => Exact.of_literal (Literal.parse s);
  real := fun a => a
|}.

(** ** A host for ISO calendar dates *)

(** [Date.parse] of this host reads the date-only form [YYYY-MM-DD] (UTC
    midnight of that day) and nothing else; strings are compared by code
    unit. *)
Module IsoDate.

(** Days from 1970-01-01 to the civil date [y-m-d]. *)
Definition days_from_civil (y m d : Z) : Z :=
  let y := if (m <=? 2)%Z then (y - 1)%Z else y in
  let era := (y / 400)%Z in
  let yoe := (y - era * 400)%Z in
  let mp := if (2 <? m)%Z then (m - 3)%Z else (m + 9)%Z in
  let doy := ((153 * mp + 2) / 5 + d - 1)%Z in
  let doe := (yoe * 365 + yoe / 4 - yoe / 100 + doy)%Z in
  (era * 146097 + doe - 719468)%Z.

(** The civil date of a day number. *)
Definition civil_from_days (z : Z) : Z * Z * Z :=
  let z := (z + 719468)%Z in
  let era := (z / 146097)%Z in
  let doe := (z - era * 146097)%Z in
  let yoe := ((doe - doe / 1460 + doe / 36524 - doe / 146096) / 365)%Z in
  let doy := (doe - (365 * yoe + yoe / 4 - yoe / 100))%Z in
  let mp := ((5 * doy + 2) / 153)%Z in
  let d := (doy - (153 * mp + 2) / 5 + 1)%Z in
  let m := if (mp <? 10)%Z then (mp + 3)%Z else (mp - 9)%Z in
  let y := (yoe + era * 400)%Z in
  (if (m <=? 2)%Z then (y + 1)%Z else y, m, d).

Definition days_in_month (y m : Z) : Z :=
  (days_from_civil (if (m =? 12)%Z then y + 1 else y)
     (if (m =? 12)%Z then 1 else m + 1) 1
   - days_from_civil y m 1)%Z.

Definition digit (c : ascii) : option Z :=
  match Literal.digit_of 10 c with
  | Some d => Some (Z.of_nat d)
  | None => None
  end.

(** The value of a string of exactly [n] decimal digits. *)
Fixpoint number (n : nat) (l : list ascii) (acc : Z) : option Z :=
  match n, l with
  | 0, [] => Some acc
  | S n', c :: l' =>
      match digit c with
      | Some d => number n' l' (acc * 10 + d)%Z
      | None => None
      end
  | _, _ => None
  end.

Definition parse (s : string) : option Z :=
  let l := list_ascii_of_string s in
  if (length l =? 10) && Literal.is_char (nth 4 l zero) "-"
     && Literal.is_char (nth 7 l zero) "-" then
    match number 4 (take 4 l) 0, number 2 (take 2 (drop 5 l)) 0,
          number 2 (drop 8 l) 0 with
    | Some y, Some m, Some d =>
        if ((1 <=? m) && (m <=? 12) && (1 <=? d)
            && (d <=? days_in_month y m))%Z
        then Some (days_from_civil y m d * 86400000)%Z
        else None
    | _, _, _ => None
    end
  else None.

(** [n] as [width] decimal digits. *)
Fixpoint digits (width : nat) (n : Z) : list ascii :=
  match width with
  | 0 => []
  | S w =>
      (digits w (n / 10) ++ [ascii_of_nat (48 + Z.to_nat (n mod 10))])%list
  end.

(** The first ten characters of [toISOString()]: years outside 0..9999
    print as a sign and six digits. *)
Definition iso_day (t : Z) : string :=
  let '(y, m, d) := civil_from_days (t / 86400000) in
  let year :=
    if ((0 <=? y) && (y <=? 9999))%Z then digits 4 y
    else ((if (y <? 0)%Z then "-"%char else "+"%char) :: digits 6 (Z.abs y)) in
  string_of_list_ascii
    (take 10 (year ++ "-"%char :: digits 2 m ++ "-"%char :: digits 2 d)%list).

Definition compare_code_units (a b : string) : Z :=
  match String.compare a b with
  | Lt => (-1)%Z
  | Eq => 0%Z
  | Gt => 1%Z
  end.

End IsoDate.

Definition IsoHost : Host := {|
  Date_parse := IsoDate.parse;
  toISODate := IsoDate.iso_day;
  localeCompare := IsoDate.compare_code_units
|}.

(** ** Numerals: what [Number] reads in a string *)

(** The strings that [Number] reads as a number, by their form, and
    the number [(-1)^neg * m * 10^e] that each denotes: a blank string,
    a decimal literal, or a binary, octal or hexadecimal integer. *)
Module Numeral.
Import JsString.

Definition is_digit (c : ascii) : bool :=
  (48 <=? nat_of_ascii c) && (nat_of_ascii c <=? 57).

Definition spaces (ws : list ascii) : Prop := forallb is_space ws = true.

Definition digits (ds : list ascii) : Prop := forallb is_digit ds = true.

(** The number that a string of decimal digits denotes. *)
Definition value (ds : list ascii) : N :=
  fold_left (fun acc c => acc * 10 + N.of_nat (nat_of_ascii c - 48))%N ds 0%N.

Inductive Sign : Type := NoSign | Plus | Minus.

Definition sign_text (s : Sign) : list ascii :=
  match s with
  | NoSign => []
  | Plus => ["+"%char]
  | Minus => ["-"%char]
  end.

Definition is_minus (s : Sign) : bool :=
  match s with Minus => true | _ => false end.

(** An exponent part: [e] or [E], a sign, digits. *)
Record Exponent : Type := {
  capital : bool;
  exp_sign : Sign;
  exp_digits : list ascii
}.

(** A decimal literal: a sign, digits, a point with digits after it, an
    exponent part; [fraction] is [None] when there is no point. *)
Record Decimal : Type := {
  sign : Sign;
  whole : list ascii;
  fraction : option (list ascii);
  exponent : option Exponent
}.

Definition fraction_digits (d : Decimal) : list ascii :=
  default [] (fraction d).

(** There is a digit before or after the point, and in the exponent. *)
Definition well_formed_exponent (x : option Exponent) : Prop :=
  match x with
  | Some x => digits (exp_digits x) /\ exp_digits x <> []
  | None => True
  end.

Definition well_formed (d : Decimal) : Prop :=
  digits (whole d) /\ digits (fraction_digits d)
  /\ whole d ++ fraction_digits d <> []
  /\ well_formed_exponent (exponent d).

Definition exponent_text (x : option Exponent) : list ascii :=
  match x with
  | Some x =>
      (if capital x then "E"%char else "e"%char)
        :: sign_text (exp_sign x) ++ exp_digits x
  | None => []
  end.

Definition fraction_text (fs : option (list ascii)) : list ascii :=
  match fs with Some fs => "."%char :: fs | None => [] end.

Definition text (d : Decimal) : list ascii :=
  sign_text (sign d) ++ whole d ++ fraction_text (fraction d)
    ++ exponent_text (exponent d).

Definition mantissa (d : Decimal) : N := value (whole d ++ fraction_digits d).

Definition exponent_value (x : option Exponent) : Z :=
  match x with
  | Some x =>
      if is_minus (exp_sign x) then (- Z.of_N (value (exp_digits x)))%Z
      else Z.of_N (value (exp_digits x))
  | None => 0%Z
  end.

Definition scale (d : Decimal) : Z :=
  (exponent_value (exponent d) - Z.of_nat (length (fraction_digits d)))%Z.

(** The prefixes [0x], [0o] and [0b], in either case, and their bases. *)
Definition prefixes : list (ascii * nat) :=
  [("x"%char, 16); ("X"%char, 16); ("o"%char, 8); ("O"%char, 8);
   ("b"%char, 2); ("B"%char, 2)].

(** The digits of a base up to 16, and the number that a string of them
    denotes. *)
Definition digits_in (base : nat) (ds : list ascii) : Prop :=
  forallb (fun c => bool_decide (is_Some (Literal.digit_of base c))) ds = true.

Definition value_in (base : nat) (ds : list ascii) : N :=
  fold_left
    (fun acc c =>
       acc * N.of_nat base
       + N.of_nat (default 0%nat (Literal.digit_of base c)))%N
    ds 0%N.

(** [reads s neg m e]: the string [s] has one of the three forms and
    denotes [(-1)^neg * m * 10^e]. *)
Inductive reads : string -> bool -> N -> Z -> Prop :=
| reads_blank ws :
    spaces ws -> reads (string_of_list_ascii ws) false 0%N 0%Z
| reads_decimal d ws1 ws2 :
    well_formed d -> spaces ws1 -> spaces ws2 ->
    reads (string_of_list_ascii (ws1 ++ text d ++ ws2))
      (is_minus (sign d)) (mantissa d) (scale d)
| reads_radix mark base ds ws1 ws2 :
    (mark, base) ∈ prefixes -> digits_in base ds -> ds <> [] ->
    spaces ws1 -> spaces ws2 ->
    reads (string_of_list_ascii (ws1 ++ "0"%char :: mark :: ds ++ ws2))
      false (value_in base ds) 0%Z.

(** The string is a decimal literal, with white space around it or not. *)
Definition decimal (s : string) : Prop :=
  exists d ws1 ws2,
    well_formed d /\ spaces ws1 /\ spaces ws2
    /\ s = string_of_list_ascii (ws1 ++ text d ++ ws2).

End Numeral.

(** ** The value of a double *)

(** The value of a zero or finite number. *)
Definition SF_value (x : spec_float) : Q :=
  match x with
  | S754_finite s m e => inject_Z (cond_Zopp s (Zpos m)) * Qpower 2 e
  | _ => 0
  end.

Definition SF_finite (x : spec_float) : bool :=
  match x with
  | S754_zero _ | S754_finite _ _ _ => true
  | _ => false
  end.

(** ** Calendar days *)

(** A day in the form [YYYY-MM-DD]: four digits, two digits and two
    digits, with a hyphen between them. *)
Definition canonical_day (s : string) : bool :=
  match list_ascii_of_string s with
  | [y1; y2; y3; y4; h1; m1; m2; h2; d1; d2] =>
      forallb Numeral.is_digit [y1; y2; y3; y4; m1; m2; d1; d2]
      && Ascii.eqb h1 "-" && Ascii.eqb h2 "-"
  | _ => false
  end.

(** The time values of the years 0000 to 9999. *)
Definition four_digit_year (t : Z) : bool :=
  ((-62167219200000 <=? t) && (t <=? 253402300799999))%Z.

(** ** Vocabulary of the statements *)

Section Vocabulary.
Context {N : Number} {H : Host}.
Import JsString.

(** The sum of a list of rationals. *)
Definition Qc_sum (xs : list Qc) : Qc := foldr Qcplus 0%Qc xs.

(** [xs] are the rationals that the finite numbers [vals] denote. *)
Definition reals_of (vals : list num) (xs : list Qc) : Prop :=
  Forall2 (fun v x => real v = Some x) vals xs.

(** The moving-average loop after its first [n] turns. *)
Definition ma_prefix (vals : list num) (n : nat) : num * list (option num) :=
  fold_left (ma_step vals) (seq 0 n) (of_nat 0, []).

(** What turn [i] makes of [run]. *)
Definition next_run (vals : list num) (run : num) (i : nat) : num :=
  let run := nadd run (operand vals i) in
  if window <=? i then nsub run (operand vals (i - window)) else run.

(** The accumulator [run] when turn [i] pushes its entry. *)
Definition run_after (vals : list num) (i : nat) : num :=
  fst (ma_prefix vals (S i)).

(** [op a b] is the exact result: nothing was rounded. *)
Definition exactb (op : num -> num -> num) (qop : Qc -> Qc -> Qc)
    (a b : num) : bool :=
  match real a, real b, real (op a b) with
  | Some x, Some y, Some z => bool_decide (z = qop x y)
  | _, _, _ => false
  end.

(** Turn [i] updates [run] exactly. *)
Definition update_exact (vals : list num) (run : num) (i : nat) : bool :=
  exactb nadd Qcplus run (operand vals i)
  && (if window <=? i
      then exactb nsub Qcminus (nadd run (operand vals i))
             (operand vals (i - window))
      else true).

(** Every update of [run] over the series is exact. *)
Definition updates_exact (vals : list num) : bool :=
  bool_decide (real (of_nat 0) = Some 0%Qc)
  && forallb (fun i => update_exact vals (fst (ma_prefix vals i)) i)
       (seq 0 (length vals)).

End Vocabulary.

(** ** Writes to a map, as lists of events *)

(** The loops of [chartData] and [timeSeries] skip the rows that do not
    qualify and write to a map for the others.  An event is the key and
    the payload of such a write; the statements speak of the list of
    events in row order. *)
Section Winners.
Context {X : Type}.
Implicit Types (evs : list (string * X)) (m : JsMap.t X).

(** The last event of key [k] carries [x]. *)
Definition is_last evs (k : string) (x : X) : Prop :=
  exists i, evs !! i = Some (k, x)
    /\ forall j x', i < j -> evs !! j <> Some (k, x').

(** The first event of key [k] carries [x]. *)
Definition is_first evs (k : string) (x : X) : Prop :=
  exists i, evs !! i = Some (k, x)
    /\ forall j x', j < i -> evs !! j <> Some (k, x').

(** [m.set(k, x)] at every event. *)
Definition write_always m (e : string * X) : JsMap.t X :=
  JsMap.set e.1 e.2 m.

(** [if (!m.has(k)) m.set(k, x)] at every event. *)
Definition write_once m (e : string * X) : JsMap.t X :=
  if JsMap.has e.1 m then m else JsMap.set e.1 e.2 m.

End Winners.

Section Readings.
Context {N : Number} {H : Host}.
Import JsString.

(** The group and the reading of a row that [chartData] counts. *)
Definition ranked_reading (gk mk : string) (dk : option string)
    (r : AnyRecord) : option (string * Latest num) :=
  match get r gk with
  | VString g =>
      if truthy (trim g) then
        match coerceNumber (get r mk) with
        | Some n => Some (g, {| dateMs := recency dk r; latest_value := n |})
        | None => None
        end
      else None
  | _ => None
  end.

Definition ranked_readings (gk mk : string) (dk : option string)
    (rows : list AnyRecord) : list (string * Latest num) :=
  omap (ranked_reading gk mk dk) rows.

(** The group and the display name of a row that [chartData] counts and
    that has a name. *)
Definition naming (gk mk : string) (nk : option string) (r : AnyRecord)
    : option (string * string) :=
  match ranked_reading gk mk None r, selected nk with
  | Some (g, _), Some k =>
      match get r k with
      | VString nm => if truthy (trim nm) then Some (g, nm) else None
      | _ => None
      end
  | _, _ => None
  end.

Definition namings (gk mk : string) (nk : option string)
    (rows : list AnyRecord) : list (string * string) :=
  omap (naming gk mk nk) rows.

(** Among the events of group [g], [e] has the greatest time stamp, and
    is the last one that has it. *)
Definition is_latest (evs : list (string * Latest num)) (g : string)
    (e : Latest num) : Prop :=
  exists i, evs !! i = Some (g, e)
    /\ forall j e', evs !! j = Some (g, e') ->
         (dateMs e' < dateMs e)%Z \/ (dateMs e' = dateMs e /\ j <= i).

(** [if (!prev || t >= prev.dateMs) latestByGroup.set(g, ...)] *)
Definition write_latest (m : JsMap.t (Latest num)) (e : string * Latest num)
    : JsMap.t (Latest num) :=
  match JsMap.get e.1 m with
  | None => JsMap.set e.1 e.2 m
  | Some prev =>
      if (dateMs prev <=? dateMs e.2)%Z then JsMap.set e.1 e.2 m else m
  end.

(** The day and the value of a row that [timeSeries] counts. *)
Definition day_reading (mk dk : string) (gk : option string)
    (selectedGroupValue : string) (r : AnyRecord) : option (string * num) :=
  if other_group gk selectedGroupValue r then None else
  match get r dk with
  | VString ds =>
      match Date_parse ds, coerceNumber (get r mk) with
      | Some t, Some n => Some (toISODate t, n)
      | _, _ => None
      end
  | _ => None
  end.

Definition day_readings (mk dk : string) (gk : option string)
    (selectedGroupValue : string) (rows : list AnyRecord)
    : list (string * num) :=
  omap (day_reading mk dk gk selectedGroupValue) rows.

(** The comparator [(a, b) => b - a] orders the numbers [vals] as their
    values do: it is positive exactly when [a] is less than [b]. *)
Definition agreesb (a b : num) : bool :=
  match real a, real b with
  | Some x, Some y =>
      Bool.eqb (nlt (of_nat 0) (nsub b a)) (bool_decide (x < y)%Qc)
  | _, _ => false
  end.

Definition compares_by_real (vals : list num) : bool :=
  forallb (fun a => forallb (agreesb a) vals) vals.

(** [a] comes before [b] in descending order of value. *)
Definition desc_by_real (a b : Bar num) : Prop :=
  exists x y, real (value a) = Some x /\ real (value b) = Some y
    /\ (y <= x)%Qc.

End Readings.

(** ** Buckets *)

Definition Qc_of_Z (z : Z) : Qc := Q2Qc (inject_Z z).

Section Buckets.
Context {N : Number}.

(** The width: 1 when the values are all equal, a 20th of the range
    otherwise. *)
Definition width (lo hi : Qc) : Qc :=
  if decide (hi = lo) then 1%Qc else ((hi - lo) / Qc_of_Z (Z.of_nat bins))%Qc.

(** [z] clamped to the bucket numbers 0 .. 19. *)
Definition clamp_bucket (z : Z) : nat :=
  Z.to_nat (Z.min (Z.of_nat (bins - 1)) (Z.max 0 z)).

(** The bucket of the value [x] when the least value is [lo] and the
    width [w]: [floor((x - lo) / w)], clamped. *)
Definition bucket_of (lo w x : Qc) : nat :=
  clamp_bucket (Qfloor ((x - lo) / w)%Qc).

(** The program counts [v] in bucket [k]. *)
Definition lands_in (min step v : num) (k : nat) : bool :=
  match to_index (bin_index min step v) with
  | Some j => j =? k
  | None => false
  end.

(** [f a] is the exact result: nothing was rounded. *)
Definition exact_at (f : num -> num) (qf : Qc -> Qc) (a : num) : bool :=
  match real a, real (f a) with
  | Some x, Some z => bool_decide (z = qf x)
  | _, _ => false
  end.

(** Folding [op] over [vs] from [acc] is exact at every step. *)
Fixpoint fold_exact (op : num -> num -> num) (qop : Qc -> Qc -> Qc)
    (vs : list num) (acc : num) : bool :=
  match vs with
  | [] => true
  | v :: vs' => exactb op qop acc v && fold_exact op qop vs' (op acc v)
  end.

(** The integer [k] is itself as a number. *)
Definition nat_exact (k : nat) : bool :=
  bool_decide (real (of_nat k) = Some (Qc_of_Z (Z.of_nat k))).

(** The index of [v] is computed without rounding: the difference
    [v - min], the quotient by [step], its floor and the two clamps are
    the exact results, and the index is the array index of its value. *)
Definition index_exact (min step v : num) : bool :=
  let d := nsub v min in
  let q := ndiv d step in
  let f := floor q in
  let a := nmax (of_nat 0) f in
  let b := nmin (of_nat (bins - 1)) a in
  exactb nsub Qcminus v min
  && exactb ndiv Qcdiv d step
  && exact_at floor (fun x => Qc_of_Z (Qfloor x)) q
  && exactb nmax Exact.qmax (of_nat 0) f
  && exactb nmin Exact.qmin (of_nat (bins - 1)) a
  && match real b with
     | Some z => bool_decide (to_index b = Some (Z.to_nat (Qfloor z)))
     | None => false
     end.

(** The histogram of the values [v0 :: vs] is computed without
    rounding: the least and the greatest value, the width, and the index
    of every value. *)
Definition buckets_exact (v0 : num) (vs : list num) : bool :=
  let min := min_of v0 vs in
  let max := max_of v0 vs in
  let quot := ndiv (nsub max min) (of_nat bins) in
  forallb nat_exact [0; 1; bins - 1; bins]
  && bool_decide (is_Some (real v0))
  && fold_exact nmin Exact.qmin vs v0
  && fold_exact nmax Exact.qmax vs v0
  && exactb nsub Qcminus max min
  && exactb ndiv Qcdiv (nsub max min) (of_nat bins)
  && match real quot with
     | Some q => Bool.eqb (falsy quot) (bool_decide (q = 0%Qc))
     | None => false
     end
  && forallb (index_exact min (bin_step min max)) (v0 :: vs).

End Buckets.

(** ** Sample data on doubles and ISO dates *)

Module Sample.

(** A record from its fields, on doubles. *)
Definition record (fields : list (string * unknown (@num Float64)))
    : @AnyRecord Float64 :=
  list_to_map fields.

(** A record from its fields, in exact arithmetic. *)
Definition exact_record (fields : list (string * unknown (@num ExactNumber)))
    : @AnyRecord ExactNumber :=
  list_to_map fields.

(** A number of type [unknown], on doubles. *)
Definition number (v : float) : unknown (@num Float64) := VNumber v.

(** A string of type [unknown], on doubles. *)
Definition text (s : string) : unknown (@num Float64) := VString s.

(** A record with a number in column ["m"]. *)
Definition reading (v : float) : @AnyRecord Float64 :=
  record [("m", number v)].

(** The point of day [d] with value [v]. *)
Definition point (d : string) (v : float) : Point (@num Float64) :=
  {| date := d; pvalue := v |}.

(** A daily series with the values [vs], one day apart from 1970-01-01. *)
Definition series (vs : list float) : list (Point (@num Float64)) :=
  imap (fun i v => point (IsoDate.iso_day (Z.of_nat i * 86400000)) v) vs.

(** Records with the numbers [vs] in column ["m"]. *)
Definition readings (vs : list float) : list (@AnyRecord Float64) :=
  map reading vs.

(** Group A with 10 on day 1 and 20 on day 2, group B with 5 on day 1. *)
Definition ranking_rows : list (@AnyRecord Float64) :=
  [ record [("g", text "A"); ("m", text "10"); ("d", text "2024-01-01")];
    record [("g", text "A"); ("m", number 20); ("d", text "2024-01-02")];
    record [("g", text "B"); ("m", number 5); ("d", text "2024-01-01")] ].

(** One row whose group value is a blank. *)
Definition blank_group_rows : list (@AnyRecord Float64) :=
  [ record [("g", text " "); ("m", number 5)] ].

(** Group A: a first row with a display name and no metric value, a second
    row with a metric value and no display name. *)
Definition unnamed_rows : list (@AnyRecord Float64) :=
  [ record [("g", text "A"); ("name", text "Alpha")];
    record [("g", text "A"); ("m", number 5)] ].

(** Group A named twice, group B never. *)
Definition named_rows : list (@AnyRecord Float64) :=
  [ record [("g", text "A"); ("name", text "Alpha"); ("m", number 1)];
    record [("g", text "A"); ("name", text "Other"); ("m", number 2)];
    record [("g", text "B"); ("m", number 3)] ].

(** Two rows of one day, with 5 and then 9. *)
Definition same_day_rows : list (@AnyRecord Float64) :=
  [ record [("g", text "A"); ("m", number 5); ("d", text "2024-03-01")];
    record [("g", text "B"); ("m", number 9); ("d", text "2024-03-01")] ].

(** No coercible metric value. *)
Definition no_metric_rows : list (@AnyRecord Float64) :=
  [ record [("m", text "n/a")]; record [("g", text "A")];
    record [("m", VNull)] ].

(** The numbers 1 to 20, in some order. *)
Definition one_to_twenty : list (@AnyRecord Float64) :=
  readings [3; 1; 2; 20; 19; 18; 17; 16; 15; 14; 13; 12; 11; 10; 9; 8; 7; 6;
            5; 4]%float.

(** The values -1e308 and 1e308, as the strings of a JSON record. *)
Definition wide_rows : list (@AnyRecord Float64) :=
  [ record [("m", text "-1e308")]; record [("m", text "1e308")] ].

(** The values 0 and 10 in exact arithmetic. *)
Definition exact_rows : list (@AnyRecord ExactNumber) :=
  [ exact_record [("m", VNumber (Exact.of_Z 0 : @num ExactNumber))];
    exact_record [("m", VNumber (Exact.of_Z 10 : @num ExactNumber))] ].

(** Three rows for the search box. *)
Definition search_rows : list (@AnyRecord Float64) :=
  [ record [("boro", text "Bronx"); ("m", number 5)];
    record [("boro", text "Queens"); ("m", number 7)];
    record [("boro", text "The BRONX"); ("m", text "n/a")] ].

(** A row whose display name is under a column spelt with capitals. *)
Definition geo_rows : list (@AnyRecord Float64) :=
  [ record [("geo_id", text "101"); ("Geo_Name", text "Harlem");
            ("m", number 5)] ].

(** Group A once, group B twice, its display name on a row without a
    metric value, and a blank group. *)
Definition option_rows : list (@AnyRecord Float64) :=
  [ record [("g", text "A"); ("m", number 3)];
    record [("g", text "B"); ("m", number 1)];
    record [("g", text "B"); ("name", text "Beta")];
    record [("g", text " "); ("m", number 9)] ].

(** Six groups with the means 2, 10, 4, 6, 8 and 12. *)
Definition group_rows : list (@AnyRecord Float64) :=
  [ record [("g", text "A"); ("m", number 1)];
    record [("g", text "B"); ("m", number 10)];
    record [("g", text "C"); ("m", number 4)];
    record [("g", text "A"); ("m", number 3)];
    record [("g", text "D"); ("m", number 6)];
    record [("g", text "E"); ("m", number 8)];
    record [("g", text "F"); ("m", number 12)] ].

(** Three days, not in order. *)
Definition dated_rows : list (@AnyRecord Float64) :=
  [ record [("d", text "2024-01-03"); ("m", number 3)];
    record [("d", text "2024-01-01"); ("m", number 1)];
    record [("d", text "2024-01-02"); ("m", number 2)] ].

(** Six rows with a date and a year; the year reads as a number. *)
Definition six_days : list (@AnyRecord Float64) :=
  map (fun d => record [("d", text d); ("year", text "2024")])
    ["2024-01-01"; "2024-01-02"; "2024-01-03"; "2024-01-04"; "2024-01-05";
     "2024-01-06"].

(** Group A with 10 on day 2 and then 20 on day 1; group B with 5 and then
    7, both on day 1; group C with 3 and then 4, without a date that
    parses. *)
Definition unordered_rows : list (@AnyRecord Float64) :=
  [ record [("g", text "A"); ("m", number 10); ("d", text "2024-01-02")];
    record [("g", text "A"); ("m", number 20); ("d", text "2024-01-01")];
    record [("g", text "B"); ("m", number 5); ("d", text "2024-01-01")];
    record [("g", text "B"); ("m", number 7); ("d", text "2024-01-01")];
    record [("g", text "C"); ("m", text "3")];
    record [("g", text "C"); ("m", number 4); ("d", text "n/a")] ].

(** The numbers 1 to 30, in some order. *)
Definition one_to_thirty : list (@AnyRecord Float64) :=
  readings [30; 3; 1; 2; 20; 19; 18; 17; 16; 15; 14; 13; 12; 11; 10; 9; 8; 7;
            6; 5; 4; 21; 22; 29; 28; 27; 26; 25; 24; 23]%float.

(** A page of [PAGE_SIZE] records. *)
Definition full_page : list (@AnyRecord Float64) :=
  replicate 1000 (record []).

End Sample.

(** * The rest of [App]: columns, search, options, pages, labels *)

(** ** Strings: lower case, substrings, words *)

Module JsText.

(** [String.prototype.toLowerCase] on the code units below 256: the
    letters A-Z and the Latin-1 capitals from 192 to 222, the
    multiplication sign 215 apart, move up by 32. *)
Definition lower (c : ascii) : ascii :=
  let n := nat_of_ascii c in
  if ((65 <=? n) && (n <=? 90))
     || ((192 <=? n) && (n <=? 222) && negb (n =? 215))
  then ascii_of_nat (n + 32) else c.

Fixpoint toLowerCase (s : string) : string :=
  match s with
  | EmptyString => EmptyString
  | String c s' => String (lower c) (toLowerCase s')
  end.

(** [needle] is at the start of [hay]. *)
Fixpoint starts_with (needle hay : string) : bool :=
  match needle, hay with
  | EmptyString, _ => true
  | String a needle', String b hay' => Ascii.eqb a b && starts_with needle' hay'
  | String _ _, EmptyString => false
  end.

(** [hay.includes(needle)] *)
Fixpoint includes (needle hay : string) : bool :=
  starts_with needle hay
  || match hay with
     | String _ hay' => includes needle hay'
     | EmptyString => false
     end.

(** The class [\w]: the letters, the digits and the underscore. *)
Definition is_word (c : ascii) : bool :=
  let n := nat_of_ascii c in
  ((48 <=? n) && (n <=? 57)) || ((65 <=? n) && (n <=? 90)) || (n =? 95)
  || ((97 <=? n) && (n <=? 122)).

(** [c.toUpperCase()] for a match [c] of [\w]. *)
Definition upper (c : ascii) : ascii :=
  let n := nat_of_ascii c in
  if (97 <=? n) && (n <=? 122) then ascii_of_nat (n - 32) else c.

(** [.replace(/_/g, ' ')] *)
Fixpoint replace_underscores (s : string) : string :=
  match s with
  | EmptyString => EmptyString
  | String c s' =>
      String (if Ascii.eqb c "_" then " "%char else c) (replace_underscores s')
  end.

(** [.replace(/\b\w/g, (c) => c.toUpperCase())].  The pattern matches a
    word character at the start of the string or behind a character that
    is not one; [word_before] tells whether the character before is a word
    character. *)
Fixpoint capitalize_words (word_before : bool) (s : string) : string :=
  match s with
  | EmptyString => EmptyString
  | String c s' =>
      String (if is_word c && negb word_before then upper c else c)
             (capitalize_words (is_word c) s')
  end.

End JsText.

Definition formatHeader (key : string) : string :=
  JsText.capitalize_words false (JsText.replace_underscores key).

(** ** More shapes of the data *)

(** [{ id, name }] *)
Module GroupOption.
Record t : Type := { id : string; name : string }.
End GroupOption.

(** [{ top, bottom }] *)
Module TopBottom.
Record t (T : Type) : Type := { top : list (Bar T); bottom : list (Bar T) }.
Arguments top {T}.
Arguments bottom {T}.
End TopBottom.

(** ** The columns of the data *)

Section Columns.
Context {N : Number} {H : Host}.
Import JsString.

(** [keys.add(k)] on a [Set<string>], kept as its elements in insertion
    order. *)
Definition set_add (keys : list string) (k : string) : list string :=
  if includes keys k then keys else keys ++ [k].

(** [Object_keys r] is [Object.keys(r)]: the keys of the record in the
    order of its properties, which a [gmap] does not keep. *)
Definition allColumns (Object_keys : AnyRecord -> list string)
    (rows : list AnyRecord) : list string :=
  if length rows =? 0 then [] else
  fold_left (fun keys r => fold_left set_add (Object_keys r) keys) rows [].

(** [isString(r[c]) && (r[c] as string).trim()] *)
Definition has_text (c : string) (r : AnyRecord) : bool :=
  match get r c with
  | VString s => truthy (trim s)
  | _ => false
  end.

Definition stringColumns (allColumns : list string) (rows : list AnyRecord)
    : list string :=
  List.filter (fun c => existsb (has_text c) rows) allColumns.

(** [coerceNumber(r[c]) !== undefined] *)
Definition has_number (c : string) (r : AnyRecord) : bool :=
  match coerceNumber (get r c) with Some _ => true | None => false end.

Definition numericColumns (allColumns : list string) (rows : list AnyRecord)
    : list string :=
  List.filter (fun c => existsb (has_number c) rows) allColumns.

Definition threshold : nat := 6.

(** The two tests that make a row count for the date column [c]: a string
    that [Number] does not read as a finite number and [Date.parse]
    reads. *)
Definition date_hit (c : string) (r : AnyRecord) : bool :=
  match get r c with
  | VString v =>
      negb (isFinite (Number_of_string v))
      && match Date_parse v with Some _ => true | None => false end
  | _ => false
  end.

(** The loop [for (const r of rows)] from [hits] on: [true] when it
    pushes the column, after which it breaks. *)
Fixpoint date_scan (c : string) (hits : nat) (rows : list AnyRecord) : bool :=
  match rows with
  | [] => false
  | r :: rows' =>
      if date_hit c r then
        let hits := S hits in
        if threshold <=? hits then true else date_scan c hits rows'
      else date_scan c hits rows'
  end.

Definition dateColumns (allColumns : list string) (rows : list AnyRecord)
    : list string :=
  fold_left (fun columns c =>
               if date_scan c 0 rows then columns ++ [c] else columns)
    allColumns [].

Definition nameCandidates : list string :=
  ["geo_id_name"; "geoid_name"; "geo_name"; "neighborhood_name";
   "neighborhood"; "borough"; "community_district"; "area_name";
   "zone_name"].

(** [candidates.find((c) => lower.has(c)) || undefined] *)
Definition nameKey (stringColumns : list string) : option string :=
  let lower := map JsText.toLowerCase stringColumns in
  selected (find (fun c => includes lower c) nameCandidates).

(** The effect "Initialize defaults once data lands" on the columns that
    the memos above compute from the rows. *)
Definition defaultSelection (Object_keys : AnyRecord -> list string)
    (rows : list AnyRecord) (sel : Selection) : Selection :=
  let columns := allColumns Object_keys rows in
  initDefaults rows (stringColumns columns rows) (numericColumns columns rows)
    (dateColumns columns rows) sel.

(** ** The search box *)

(** [Object.values(r).some((v) => isString(v) && v.toLowerCase().includes(needle))] *)
Definition matches (needle : string) (r : AnyRecord) : bool :=
  existsb (fun kv : string * unknown num =>
             match kv.2 with
             | VString v => JsText.includes needle (JsText.toLowerCase v)
             | _ => false
             end)
          (map_to_list r).

Definition filteredRows (rows : list AnyRecord) (query : string)
    : list AnyRecord :=
  if negb (truthy (trim query)) then rows else
  let needle := JsText.toLowerCase query in
  List.filter (matches needle) rows.

(** ** [groupOptions]: the groups by number of rows, at most 50 *)

(** One turn of [for (const r of filteredRows)].  The counters are
    integers no greater than the number of rows, on which the arithmetic
    of numbers is exact; they are kept as natural numbers. *)
Definition options_step (groupKey : string) (nameKey : option string)
    (st : JsMap.t nat * JsMap.t string) (r : AnyRecord)
    : JsMap.t nat * JsMap.t string :=
  let '(counts, idToName) := st in
  match get r groupKey with
  | VString g =>
      if truthy (trim g) then
        let counts :=
          JsMap.set g (default 0 (JsMap.get g counts) + 1) counts in
        let idToName :=
          match selected nameKey with
          | Some nk =>
              match get r nk with
              | VString nm =>
                  if truthy (trim nm) && negb (JsMap.has g idToName)
                  then JsMap.set g nm idToName else idToName
              | _ => idToName
              end
          | None => idToName
          end in
        (counts, idToName)
      else st
  | _ => st
  end.

(** [(a, b) => b[1] - a[1]] is positive *)
Definition by_count_desc (a b : string * nat) : bool := a.2 <? b.2.

Definition groupOptions (groupKey nameKey : option string)
    (filteredRows : list AnyRecord) : list GroupOption.t :=
  match selected groupKey with
  | None => []
  | Some gk =>
      let '(counts, idToName) :=
        fold_left (options_step gk nameKey) filteredRows
          (JsMap.empty, JsMap.empty) in
      take 50
        (map (fun e : string * nat =>
                {| GroupOption.id := e.1;
                   GroupOption.name := label_of idToName e.1 |})
           (js_sort by_count_desc (JsMap.entries counts)))
  end.

(** ** [topBottomGroups]: the groups by mean value *)

(** One turn of [for (const r of filteredRows)]:
    [arr = groups.get(g) ?? []; arr.push(n); groups.set(g, arr)]. *)
Definition groups_step (groupKey metricKey : string)
    (groups : JsMap.t (list num)) (r : AnyRecord) : JsMap.t (list num) :=
  match get r groupKey with
  | VString g =>
      if negb (truthy (trim g)) then groups else
      match coerceNumber (get r metricKey) with
      | None => groups
      | Some n => JsMap.set g (default [] (JsMap.get g groups) ++ [n]) groups
      end
  | _ => groups
  end.

(** [arr.reduce((a, b) => a + b, 0) / arr.length] *)
Definition mean_of (arr : list num) : num :=
  ndiv (fold_left nadd arr (of_nat 0)) (of_nat (length arr)).

Definition topBottomGroups (groupKey metricKey : option string)
    (filteredRows : list AnyRecord) : TopBottom.t num :=
  match selected groupKey, selected metricKey with
  | Some gk, Some mk =>
      let groups := fold_left (groups_step gk mk) filteredRows JsMap.empty in
      let entries :=
        js_sort by_value_desc
          (map (fun e : string * list num =>
                  {| label := e.1; value := mean_of e.2 |})
             (JsMap.entries groups)) in
      {| TopBottom.top := take 5 entries;
         TopBottom.bottom := rev (drop (length entries - 5) entries) |}
  | _, _ => {| TopBottom.top := []; TopBottom.bottom := [] |}
  end.

(** ** [formatMetricLabel]: the value and its unit *)

Definition unit_AQI : string := " AQI".

(** [" µg/m³"]: the micro sign and the superscript three are the code
    units 181 and 179. *)
Definition unit_ug_m3 : string :=
  String " " (String (ascii_of_nat 181)
                (String "g" (String "/" (String "m"
                   (String (ascii_of_nat 179) EmptyString))))).

Definition unit_ppb : string := " ppb".

(** [formatValue] prints a number with [toLocaleString] and [toFixed]; it
    is a parameter here. *)
Definition formatMetricLabel (formatValue : num -> string) (n : num)
    (metricKey : option string) : string :=
  let v := formatValue n in
  match selected metricKey with
  | None => v
  | Some mk =>
      let key := JsText.toLowerCase mk in
      if JsText.includes "aqi" key || JsText.includes "air_quality_index" key
      then v ++ unit_AQI
      else if JsText.includes "pm" key || JsText.includes "pm_2_5" key
              || JsText.includes "pm25" key
      then v ++ unit_ug_m3
      else if JsText.includes "no2" key then v ++ unit_ppb
      else if JsText.includes "so2" key then v ++ unit_ppb
      else if JsText.includes "ozone" key || JsText.includes "o3" key
      then v ++ unit_ppb
      else v
  end.

End Columns.

(** The unit that goes with a metric column: what the tests of
    [formatMetricLabel] come to once the tests that another one implies
    are left out. *)
Definition metric_unit (metricKey : option string) : string :=
  match selected metricKey with
  | None => ""
  | Some mk =>
      let key := JsText.toLowerCase mk in
      if JsText.includes "aqi" key || JsText.includes "air_quality_index" key
      then unit_AQI
      else if JsText.includes "pm" key then unit_ug_m3
      else if JsText.includes "no2" key || JsText.includes "so2" key
              || JsText.includes "ozone" key || JsText.includes "o3" key
      then unit_ppb
      else ""
  end.

(** ** Loading the pages *)

Module Loader.
Section Loader.
Context {N : Number}.

Definition PAGE_SIZE : nat := 1000.

(** The state of [App] that the two loaders write. *)
Record Pages : Type := {
  rows : list AnyRecord;
  loading : bool;
  error : option string;
  offset : nat;
  hasMore : bool;
  loadingMore : bool
}.

(** [useState] initial values. *)
Definition initial : Pages :=
  {| rows := []; loading := true; error := None; offset := 0;
     hasMore := true; loadingMore := false |}.

(** What [await fetch(...)] and [await res.json()] come to: a page of
    records, a response that is not [ok] (with its status, printed), or
    an exception ([Some] its message when it is an [Error]). *)
Inductive Fetched : Type :=
| Page (data : list AnyRecord)
| NotOk (status : string)
| Thrown (message : option string).

(** [e instanceof Error ? e.message : 'Unknown error'] *)
Definition error_message (message : option string) : string :=
  match message with Some m => m | None => "Unknown error" end.

(** [loadInitial] up to its first [await]. *)
Definition loadInitial_begin (st : Pages) : Pages :=
  {| rows := rows st; loading := true; error := None; offset := offset st;
     hasMore := hasMore st; loadingMore := loadingMore st |}.

(** [loadInitial] from the [await] on; [cancelled] is the flag the
    clean-up of the effect sets. *)
Definition loadInitial_end (cancelled : bool) (f : Fetched) (st : Pages)
    : Pages :=
  if cancelled then st else
  match f with
  | Page data =>
      {| rows := data; loading := false; error := error st;
         offset := length data; hasMore := length data =? PAGE_SIZE;
         loadingMore := loadingMore st |}
  | NotOk status =>
      {| rows := rows st; loading := false;
         error := Some ("HTTP " ++ status)%string; offset := offset st;
         hasMore := hasMore st; loadingMore := loadingMore st |}
  | Thrown message =>
      {| rows := rows st; loading := false;
         error := Some (error_message message); offset := offset st;
         hasMore := hasMore st; loadingMore := loadingMore st |}
  end.

(** [loadMore] up to its [await]: [None] when it returns at once, the
    offset it asks for otherwise. *)
Definition loadMore_begin (st : Pages) : option (nat * Pages) :=
  if loadingMore st || negb (hasMore st) then None else
  Some (offset st,
        {| rows := rows st; loading := loading st; error := error st;
           offset := offset st; hasMore := hasMore st;
           loadingMore := true |}).

(** [loadMore] from the [await] on. *)
Definition loadMore_end (f : Fetched) (st : Pages) : Pages :=
  match f with
  | Page data =>
      {| rows := rows st ++ data; loading := loading st; error := error st;
         offset := offset st + length data;
         hasMore := length data =? PAGE_SIZE; loadingMore := false |}
  | NotOk status =>
      {| rows := rows st; loading := loading st;
         error := Some ("HTTP " ++ status)%string; offset := offset st;
         hasMore := hasMore st; loadingMore := false |}
  | Thrown message =>
      {| rows := rows st; loading := loading st;
         error := Some (error_message message); offset := offset st;
         hasMore := hasMore st; loadingMore := false |}
  end.

(** What happens to the state: the effect starts, a request of either
    loader ends, the button is pressed.  A handler is taken to read the
    state of the latest render, and the writes of one handler to land
    together. *)
Inductive Event : Type :=
| InitialBegins
| InitialEnds (cancelled : bool) (f : Fetched)
| MorePressed
| MoreEnds (f : Fetched).

(** [{error && <div className="state error">...}]: the error is shown. *)
Definition error_shown (st : Pages) : bool :=
  match error st with Some e => JsString.truthy e | None => false end.

(** [{!loading && !error && (<>...</>)}]: the charts and the table are
    shown. *)
Definition content_shown (st : Pages) : bool :=
  negb (loading st) && negb (error_shown st).

(** [{hasMore && (... <button className="load-more" ...>)}], inside the
    content: the button is on the page. *)
Definition button_shown (st : Pages) : bool :=
  content_shown st && hasMore st.

(** The button is on the page and not [disabled={loadingMore}]: a press
    reaches [onClick={loadMore}]. *)
Definition button_enabled (st : Pages) : bool :=
  button_shown st && negb (loadingMore st).

Definition step (st : Pages) (ev : Event) : Pages :=
  match ev with
  | InitialBegins => loadInitial_begin st
  | InitialEnds cancelled f => loadInitial_end cancelled f st
  | MorePressed =>
      if button_enabled st then
        match loadMore_begin st with Some (_, st') => st' | None => st end
      else st
  | MoreEnds f => loadMore_end f st
  end.

Definition run (evs : list Event) : Pages := fold_left step evs initial.

End Loader.
End Loader.

(** ** More vocabulary of the statements *)

(** The payloads of the events of key [g], in order. *)
Definition payloads {T : Type} (evs : list (string * T)) (g : string)
    : list T :=
  omap (fun e : string * T => if String.eqb e.1 g then Some e.2 else None) evs.

Section Groups.
Context {N : Number}.
Import JsString.

(** The group of a row: its value in the group column when that is a
    string and not blank. *)
Definition group_of (gk : string) (r : AnyRecord) : option string :=
  match get r gk with
  | VString g => if truthy (trim g) then Some g else None
  | _ => None
  end.

(** The number of rows of the group [g]. *)
Definition rows_of_group (gk : string) (rows : list AnyRecord) (g : string)
    : nat :=
  length (List.filter (fun r => bool_decide (group_of gk r = Some g)) rows).

(** The group and the display name of a row that has both. *)
Definition option_naming (gk : string) (nk : option string) (r : AnyRecord)
    : option (string * string) :=
  match group_of gk r, selected nk with
  | Some g, Some k =>
      match get r k with
      | VString nm => if truthy (trim nm) then Some (g, nm) else None
      | _ => None
      end
  | _, _ => None
  end.

Definition option_namings (gk : string) (nk : option string)
    (rows : list AnyRecord) : list (string * string) :=
  omap (option_naming gk nk) rows.

(** [counts.set(g, (counts.get(g) ?? 0) + 1)] *)
Definition write_count (counts : JsMap.t nat) (g : string) : JsMap.t nat :=
  JsMap.set g (default 0 (JsMap.get g counts) + 1) counts.

(** The group and the value of a row that [topBottomGroups] counts. *)
Definition group_value (gk mk : string) (r : AnyRecord)
    : option (string * num) :=
  match group_of gk r, coerceNumber (get r mk) with
  | Some g, Some n => Some (g, n)
  | _, _ => None
  end.

(** The values of the group [g], in the order of the rows. *)
Definition values_of_group (gk mk : string) (rows : list AnyRecord)
    (g : string) : list num :=
  omap (fun r => match group_value gk mk r with
                 | Some (g', n) => if String.eqb g' g then Some n else None
                 | None => None
                 end) rows.

(** [arr.push(n)] on the array of the group. *)
Definition write_push (groups : JsMap.t (list num)) (e : string * num)
    : JsMap.t (list num) :=
  JsMap.set e.1 (default [] (JsMap.get e.1 groups) ++ [e.2]) groups.

(** The means that [topBottomGroups] sorts: one for each group. *)
Definition group_means (gk mk : string) (rows : list AnyRecord) : list num :=
  map (fun e : string * list num => mean_of e.2)
    (JsMap.entries
       (fold_left write_push (omap (group_value gk mk) rows) JsMap.empty)).

(** The rows of the group [g]: those whose value in the group column is
    the string [g]. *)
Definition rows_in_group (gk g : string) (rows : list AnyRecord)
    : list AnyRecord :=
  List.filter (fun r => match get r gk with
                        | VString g' => String.eqb g' g
                        | _ => false
                        end) rows.

(** [a] is no greater than [b]. *)
Definition asc_by_real (a b : num) : Prop :=
  exists x y, real a = Some x /\ real b = Some y /\ (x <= y)%Qc.

End Groups.

(** * Properties *)

(** ** The insertion-ordered map *)

Section JsMapFacts.
Context {V : Type}.
Implicit Types (m : JsMap.t V) (k : string) (v : V).

Lemma get_set_eq k v m : JsMap.get k (JsMap.set k v m) = Some v.
Proof.
  induction m as [|[k' v'] m IH]; simpl.
  - by rewrite String.eqb_refl.
  - destruct (String.eqb k k') eqn:E; simpl; rewrite ?E; auto.
    by rewrite String.eqb_refl.
Qed.

Lemma get_set_ne k k' v m :
  k <> k' -> JsMap.get k' (JsMap.set k v m) = JsMap.get k' m.
Proof.
  intros Hne. induction m as [|[k0 v0] m IH]; simpl.
  - apply not_eq_sym, String.eqb_neq in Hne. by rewrite Hne.
  - destruct (String.eqb k k0) eqn:E; simpl.
    + apply String.eqb_eq in E as <-.
      apply not_eq_sym, String.eqb_neq in Hne. by rewrite Hne.
    + by rewrite IH.
Qed.

Lemma get_None_keys k m : JsMap.get k m = None <-> k ∉ JsMap.keys m.
Proof.
  induction m as [|[k' v'] m IH]; simpl.
  - split; [intros _; apply not_elem_of_nil | done].
  - rewrite not_elem_of_cons. destruct (String.eqb_spec k k') as [->|Hne].
    + split; [done | intros [? _]; done].
    + rewrite IH. tauto.
Qed.

Lemma get_Some_elem_of k v m : JsMap.get k m = Some v -> (k, v) ∈ m.
Proof.
  induction m as [|[k' v'] m IH]; simpl; [done|].
  destruct (String.eqb_spec k k') as [->|Hne].
  - intros [= ->]. apply list_elem_of_here.
  - intros Hg. apply list_elem_of_further. auto.
Qed.

Lemma elem_of_get k v m :
  NoDup (JsMap.keys m) -> (k, v) ∈ m -> JsMap.get k m = Some v.
Proof.
  induction m as [|[k' v'] m IH]; simpl.
  - intros _ Hin. by apply elem_of_nil in Hin.
  - intros Hnd Hin. apply NoDup_cons in Hnd as [Hk' Hnd].
    apply elem_of_cons in Hin as [[= -> ->]|Hin].
    + by rewrite String.eqb_refl.
    + destruct (String.eqb_spec k k') as [->|Hne]; [|auto].
      exfalso. apply Hk'. apply (list_elem_of_fmap_2 fst) in Hin. exact Hin.
Qed.

Lemma keys_set k v m :
  JsMap.keys (JsMap.set k v m)
  = if JsMap.has k m then JsMap.keys m else (JsMap.keys m ++ [k])%list.
Proof.
  unfold JsMap.has, JsMap.keys.
  induction m as [|[k' v'] m IH]; simpl; [done|].
  destruct (String.eqb_spec k k') as [->|Hne]; simpl; [done|].
  rewrite IH. by destruct (JsMap.get k m).
Qed.

Lemma NoDup_keys_set k v m :
  NoDup (JsMap.keys m) -> NoDup (JsMap.keys (JsMap.set k v m)).
Proof.
  intros Hnd. rewrite keys_set. unfold JsMap.has.
  destruct (JsMap.get k m) eqn:E; [done|].
  apply NoDup_app. split_and!; [done | | apply NoDup_singleton].
  intros x Hx Hx'. apply list_elem_of_singleton in Hx' as ->.
  by apply get_None_keys in E.
Qed.

Lemma elem_of_keys_set k k' v m :
  k' ∈ JsMap.keys (JsMap.set k v m) <-> k' = k \/ k' ∈ JsMap.keys m.
Proof.
  rewrite keys_set. unfold JsMap.has.
  destruct (JsMap.get k m) eqn:E.
  - split; [auto|]. intros [->|?]; [|done].
    apply get_Some_elem_of in E. by apply (list_elem_of_fmap_2 fst) in E.
  - rewrite elem_of_app, list_elem_of_singleton. tauto.
Qed.
End JsMapFacts.

(** ** The sort *)

Section JsSortFacts.
Context {A : Type} (after : A -> A -> bool).

Lemma sort_insert_perm x l : sort_insert after x l ≡ₚ x :: l.
Proof.
  induction l as [|y l IH]; simpl; [done|].
  destruct (after x y); [|done].
  rewrite IH. apply Permutation_swap.
Qed.

Lemma js_sort_perm l : js_sort after l ≡ₚ l.
Proof.
  induction l as [|x l IH]; simpl; [done|].
  by rewrite sort_insert_perm, IH.
Qed.

(** When [after] decides a total preorder [R] on the elements at hand
    ([after a b] exactly when [R a b] fails), the result is sorted. *)
Context (R : A -> A -> Prop).
Hypothesis R_trans : forall a b c, R a b -> R b c -> R a c.

Lemma sort_insert_sorted x l :
  (forall y, y ∈ l -> (after x y = false -> R x y)
                     /\ (after x y = true -> R y x)) ->
  StronglySorted R l -> StronglySorted R (sort_insert after x l).
Proof.
  intros Hx Hl. induction Hl as [|y l Hl IH Hy]; simpl.
  - repeat constructor.
  - destruct (after x y) eqn:E.
    + constructor.
      * apply IH. intros z Hz. apply Hx. by apply list_elem_of_further.
      * apply Forall_forall. intros z Hz.
        rewrite sort_insert_perm in Hz. apply elem_of_cons in Hz as [->|Hz].
        -- apply (Hx y); [apply list_elem_of_here | done].
        -- rewrite Forall_forall in Hy. by apply Hy.
    + assert (R x y) as Hxy by (apply (Hx y); [apply list_elem_of_here|done]).
      constructor; [by constructor|].
      constructor; [done|].
      eapply Forall_impl; [exact Hy|]. intros z Hz. by eapply R_trans.
Qed.

Lemma js_sort_sorted l :
  (forall x y, x ∈ l -> y ∈ l ->
     (after x y = false -> R x y) /\ (after x y = true -> R y x)) ->
  StronglySorted R (js_sort after l).
Proof.
  induction l as [|x l IH]; simpl; intros Hl; [constructor|].
  apply sort_insert_sorted.
  - intros y Hy. apply Hl; [apply list_elem_of_here|].
    apply list_elem_of_further.
    by rewrite <- (js_sort_perm l).
  - apply IH. intros a b Ha Hb. apply Hl; by apply list_elem_of_further.
Qed.
End JsSortFacts.


(** ** Numeric coercion *)

Section Coercion.
Context {N : Number}.

Lemma coerceNumber_finite (v : unknown num) (n : num) :
  coerceNumber v = Some n -> isFinite n = true.
Proof.
  destruct v as [| | |m|s|]; simpl; try discriminate.
  - destruct (isFinite m) eqn:E; [|discriminate]. by intros [= <-].
  - destruct (isFinite (Number_of_string s)) eqn:E; [|discriminate].
    by intros [= <-].
Qed.

End Coercion.

(** ** What [Number] reads *)

Section NumeralFacts.
Import JsString Numeral.

Lemma string_list_inv s : string_of_list_ascii (list_ascii_of_string s) = s.
Proof. apply string_of_list_ascii_of_string. Qed.

Lemma list_string_inv l : list_ascii_of_string (string_of_list_ascii l) = l.
Proof. apply list_ascii_of_string_of_list_ascii. Qed.

(** *** White space *)

Lemma ltrim_split l :
  exists ws, l = ws ++ ltrim l /\ spaces ws
    /\ match ltrim l with c :: _ => is_space c = false | [] => True end.
Proof.
  induction l as [|c l (ws & Hl & Hws & Hhd)]; [by exists []|].
  cbn [ltrim]. destruct (is_space c) eqn:Hc.
  - exists (c :: ws). split; [cbn; by f_equal|]. split; [|done].
    unfold spaces. cbn. by rewrite Hc.
  - exists []. split; [done|]. split; [done|]. done.
Qed.

Lemma ltrim_app_spaces ws l :
  spaces ws -> ltrim (ws ++ l) = ltrim l.
Proof.
  unfold spaces. induction ws as [|c ws IH]; [done|]. cbn.
  intros [Hc Hws]%andb_prop. rewrite Hc. by apply IH.
Qed.

Lemma ltrim_head c l : is_space c = false -> ltrim (c :: l) = c :: l.
Proof. intros Hc. cbn. by rewrite Hc. Qed.

Lemma spaces_rev ws : spaces ws -> spaces (rev ws).
Proof.
  unfold spaces. rewrite !forallb_forall. intros Hws c Hc.
  apply Hws. by apply in_rev.
Qed.

Lemma spaces_ltrim ws : spaces ws -> ltrim ws = [].
Proof.
  intros Hws. rewrite <- (app_nil_r ws). by rewrite ltrim_app_spaces.
Qed.

(** A string is white space, its trimmed part, and white space. *)
Lemma trim_split s :
  exists ws1 ws2,
    list_ascii_of_string s = ws1 ++ list_ascii_of_string (trim s) ++ ws2
    /\ spaces ws1 /\ spaces ws2.
Proof.
  unfold trim. rewrite list_string_inv.
  destruct (ltrim_split (list_ascii_of_string s)) as (ws1 & H1 & Hws1 & _).
  destruct (ltrim_split (rev (ltrim (list_ascii_of_string s))))
    as (ws2 & H2 & Hws2 & _).
  exists ws1, (rev ws2). split_and!; [|done|by apply spaces_rev].
  rewrite H1 at 1. f_equal.
  rewrite <- (rev_involutive (ltrim (list_ascii_of_string s))) at 1.
  rewrite H2 at 1. by rewrite rev_app_distr.
Qed.

Definition nospace (l : list ascii) : Prop :=
  forallb (fun c => negb (is_space c)) l = true.

Lemma ltrim_nospace l : nospace l -> ltrim l = l.
Proof.
  unfold nospace. destruct l as [|c l]; [done|]. cbn.
  intros [Hc _]%andb_prop. apply negb_true_iff in Hc. by rewrite Hc.
Qed.

Lemma nospace_rev l : nospace l -> nospace (rev l).
Proof.
  unfold nospace. rewrite !forallb_forall. intros Hl c Hc.
  apply Hl. by apply in_rev.
Qed.

Lemma nospace_app l1 l2 : nospace (l1 ++ l2) <-> nospace l1 /\ nospace l2.
Proof. unfold nospace. by rewrite forallb_app, andb_true_iff. Qed.

(** The trimmed part of white space, a body without white space, and
    white space is the body. *)
Lemma trim_body ws1 body ws2 :
  spaces ws1 -> spaces ws2 -> nospace body ->
  trim (string_of_list_ascii (ws1 ++ body ++ ws2)) = string_of_list_ascii body.
Proof.
  intros Hws1 Hws2 Hbody. unfold trim. rewrite list_string_inv. f_equal.
  rewrite ltrim_app_spaces by done.
  destruct body as [|c body'].
  - cbn [app]. by rewrite (spaces_ltrim _ Hws2).
  - assert (is_space c = false) as Hc.
    { unfold nospace in Hbody. cbn in Hbody.
      apply andb_prop in Hbody as [Hc _]. by apply negb_true_iff in Hc. }
    rewrite <- app_comm_cons, ltrim_head, app_comm_cons by done.
    rewrite rev_app_distr, ltrim_app_spaces by (by apply spaces_rev).
    rewrite ltrim_nospace by (by apply nospace_rev).
    apply rev_involutive.
Qed.

Lemma trim_spaces ws : spaces ws -> trim (string_of_list_ascii ws) = "".
Proof.
  intros Hws. unfold trim. rewrite list_string_inv.
  by rewrite (spaces_ltrim _ Hws).
Qed.


(** *** Characters *)

Lemma is_char_1 c a : Literal.is_char c (String a "") = true <-> c = a.
Proof.
  unfold Literal.is_char. cbn. rewrite orb_false_r. apply Ascii.eqb_eq.
Qed.

Lemma is_char_2 c a b :
  Literal.is_char c (String a (String b "")) = true <-> c = a \/ c = b.
Proof.
  unfold Literal.is_char. cbn. rewrite orb_false_r, orb_true_iff.
  by rewrite !Ascii.eqb_eq.
Qed.

Lemma digit_of_10 c :
  Literal.digit_of 10 c
  = if is_digit c then Some (nat_of_ascii c - 48) else None.
Proof.
  unfold Literal.digit_of, is_digit. cbv zeta.
  destruct (Nat.leb_spec 48 (nat_of_ascii c)),
           (Nat.leb_spec (nat_of_ascii c) 57); cbn [andb].
  - destruct (Nat.ltb_spec (nat_of_ascii c - 48) 10); [done|lia].
  - destruct (Nat.leb_spec 97 (nat_of_ascii c)),
             (Nat.leb_spec (nat_of_ascii c) 102); cbn [andb];
      try (destruct (Nat.ltb_spec (nat_of_ascii c - 87) 10); [lia|done]).
    all: destruct (Nat.leb_spec 65 (nat_of_ascii c)),
                  (Nat.leb_spec (nat_of_ascii c) 70); cbn [andb]; try done.
    all: destruct (Nat.ltb_spec (nat_of_ascii c - 55) 10); [lia|done].
  - destruct (Nat.leb_spec 97 (nat_of_ascii c)); cbn [andb]; [lia|].
    destruct (Nat.leb_spec 65 (nat_of_ascii c)); cbn [andb]; [lia|done].
  - lia.
Qed.

(** *** Runs of digits *)

Definition digit_step (base : nat) (acc : N) (c : ascii) : N :=
  (acc * N.of_nat base + N.of_nat (default 0%nat (Literal.digit_of base c)))%N.

Definition stops (base : nat) (rest : list ascii) : Prop :=
  match rest with
  | c :: _ => Literal.digit_of base c = None
  | [] => True
  end.

Lemma digit_step_Some base acc c v :
  Literal.digit_of base c = Some v ->
  digit_step base acc c = (acc * N.of_nat base + N.of_nat v)%N.
Proof. unfold digit_step. by intros ->. Qed.

Lemma read_digits_run base ds rest acc cnt :
  digits_in base ds -> stops base rest ->
  Literal.read_digits base (ds ++ rest) acc cnt
  = (fold_left (digit_step base) ds acc, cnt + length ds, rest).
Proof.
  unfold digits_in. revert acc cnt.
  induction ds as [|c ds IH]; intros acc cnt Hds Hrest.
  - cbn [app fold_left length]. rewrite Nat.add_0_r.
    destruct rest as [|c rest]; [done|]. cbn in Hrest |- *. by rewrite Hrest.
  - cbn in Hds. apply andb_prop in Hds as [Hc Hds].
    apply bool_decide_eq_true in Hc as [v Hv].
    cbn [app Literal.read_digits fold_left length]. rewrite Hv.
    rewrite IH by done. rewrite (digit_step_Some _ _ _ _ Hv).
    do 2 f_equal. lia.
Qed.

Lemma read_digits_inv base l acc cnt v cnt' rest :
  Literal.read_digits base l acc cnt = (v, cnt', rest) ->
  exists ds,
    l = ds ++ rest /\ digits_in base ds /\ stops base rest
    /\ v = fold_left (digit_step base) ds acc /\ cnt' = cnt + length ds.
Proof.
  revert acc cnt. induction l as [|c l IH]; intros acc cnt.
  - cbn. intros [= <- <- <-]. exists []. split_and!; try done.
  - cbn [Literal.read_digits].
    destruct (Literal.digit_of base c) as [dg|] eqn:Hc.
    + intros Hrd. apply IH in Hrd as (ds & -> & Hds & Hstop & -> & ->).
      exists (c :: ds). split_and!; try done.
      * unfold digits_in. cbn [forallb]. rewrite Hc.
        rewrite bool_decide_eq_true_2 by eauto. exact Hds.
      * cbn [fold_left]. by rewrite (digit_step_Some _ _ _ _ Hc).
      * cbn. lia.
    + intros [= <- <- <-]. exists []. split_and!; try done.
Qed.

Lemma digits_digits_in ds : digits ds <-> digits_in 10 ds.
Proof.
  unfold digits, digits_in. induction ds as [|c ds IH]; [done|].
  cbn [forallb]. rewrite !andb_true_iff, IH, digit_of_10.
  destruct (is_digit c).
  - rewrite bool_decide_eq_true_2 by eauto. done.
  - rewrite bool_decide_eq_false_2 by (by intros [? ?]). split; intros [? ?]; done.
Qed.

Lemma value_from ds acc :
  digits ds ->
  fold_left (digit_step 10) ds acc
  = fold_left (fun acc c => acc * 10 + N.of_nat (nat_of_ascii c - 48))%N ds acc.
Proof.
  unfold digits. revert acc. induction ds as [|c ds IH]; intros acc; [done|].
  cbn. intros [Hc Hds]%andb_prop. rewrite IH by done. f_equal.
  unfold digit_step. by rewrite digit_of_10, Hc.
Qed.

Lemma stops_digit c rest : is_digit c = false -> stops 10 (c :: rest).
Proof. intros Hc. cbn. by rewrite digit_of_10, Hc. Qed.

Lemma stops_inv c rest : stops 10 (c :: rest) -> is_digit c = false.
Proof. cbn. rewrite digit_of_10. by destruct (is_digit c). Qed.


Lemma read_digits_all ds :
  digits ds ->
  Literal.read_digits 10 ds 0%N 0 = (value ds, length ds, []).
Proof.
  intros Hds. rewrite <- (app_nil_r ds) at 1.
  rewrite read_digits_run; [|by apply digits_digits_in|done].
  by rewrite value_from.
Qed.

Lemma digit_not_char c s :
  forallb (fun a => negb (is_digit a)) (list_ascii_of_string s) = true ->
  is_digit c = true -> Literal.is_char c s = false.
Proof.
  unfold Literal.is_char. intros Hs Hc.
  apply not_true_is_false. intros Hin. apply existsb_exists in Hin as (a & Ha & He).
  apply Ascii.eqb_eq in He as <-. rewrite forallb_forall in Hs.
  specialize (Hs c Ha). by rewrite Hc in Hs.
Qed.

(** *** The exponent part *)

Lemma read_exponent_text x :
  well_formed_exponent x ->
  Literal.read_exponent (exponent_text x) = Some (exponent_value x).
Proof.
  destruct x as [[cap sg ds]|]; [|done]. cbn [well_formed_exponent exp_digits].
  intros [Hds Hne]. cbn [exponent_text capital exp_sign exp_digits].
  unfold Literal.read_exponent.
  assert (Literal.is_char (if cap then "E"%char else "e"%char) "eE" = true) as ->
    by (by destruct cap).
  destruct sg; cbn [sign_text app exponent_value exp_sign exp_digits is_minus].
  - destruct ds as [|c ds]; [done|].
    assert (is_digit c = true) as Hc
      by (unfold digits in Hds; cbn in Hds; by apply andb_prop in Hds as [? _]).
    rewrite (digit_not_char c "+"), (digit_not_char c "-") by done.
    by rewrite read_digits_all.
  - change (Literal.is_char "+" "+") with true. cbv iota.
    rewrite read_digits_all by done. by destruct ds.
  - change (Literal.is_char "-" "+") with false.
    change (Literal.is_char "-" "-") with true. cbv iota.
    rewrite read_digits_all by done. by destruct ds.
Qed.

Lemma read_exponent_inv l ev :
  Literal.read_exponent l = Some ev ->
  exists x, well_formed_exponent x /\ l = exponent_text x
    /\ ev = exponent_value x.
Proof.
  unfold Literal.read_exponent. destruct l as [|c l1].
  { intros [= <-]. by exists None. }
  destruct (Literal.is_char c "eE") eqn:Hc; [|done].
  apply is_char_2 in Hc.
  assert (exists cap : bool, c = if cap then "E"%char else "e"%char) as [cap ->]
    by (destruct Hc as [->| ->]; [by exists false | by exists true]).
  assert (forall neg l2 sg,
            l1 = sign_text sg ++ l2 -> neg = is_minus sg ->
            match Literal.read_digits 10 l2 0%N 0 with
            | (v, cnt, []) =>
                if cnt =? 0 then None
                else Some (if neg then - Z.of_N v else Z.of_N v)%Z
            | _ => None
            end = Some ev ->
            exists x, well_formed_exponent x
              /\ (if cap then "E"%char else "e"%char) :: l1 = exponent_text x
              /\ ev = exponent_value x) as Hdigits.
  { intros neg l2 sg -> -> Hrd.
    destruct (Literal.read_digits 10 l2 0%N 0) as [[v cnt] rest] eqn:E.
    destruct rest; [|done].
    apply read_digits_inv in E as (ds & -> & Hds & _ & -> & ->).
    rewrite app_nil_r in *. apply digits_digits_in in Hds.
    destruct (0 + length ds =? 0) eqn:Hlen; [done|].
    injection Hrd as <-. rewrite value_from by done.
    exists (Some {| capital := cap; exp_sign := sg; exp_digits := ds |}).
    split_and!; [split; [done|by destruct ds] | done | done]. }
  destruct l1 as [|s r].
  { exact (Hdigits false [] NoSign eq_refl eq_refl). }
  destruct (Literal.is_char s "+") eqn:Hplus.
  { apply is_char_1 in Hplus as ->. exact (Hdigits false r Plus eq_refl eq_refl). }
  destruct (Literal.is_char s "-") eqn:Hminus.
  { apply is_char_1 in Hminus as ->. exact (Hdigits true r Minus eq_refl eq_refl). }
  exact (Hdigits false (s :: r) NoSign eq_refl eq_refl).
Qed.


(** *** Unsigned decimal literals *)

Lemma not_Infinity c r :
  c <> "I"%char ->
  String.eqb (string_of_list_ascii (c :: r)) "Infinity" = false.
Proof.
  intros Hc. apply String.eqb_neq. cbn [string_of_list_ascii].
  intros [= -> _]. done.
Qed.

Lemma digits_cons c ds : digits (c :: ds) <-> is_digit c = true /\ digits ds.
Proof. unfold digits. cbn. apply andb_true_iff. Qed.

Lemma digits_app ds1 ds2 : digits (ds1 ++ ds2) <-> digits ds1 /\ digits ds2.
Proof. unfold digits. by rewrite forallb_app, andb_true_iff. Qed.

Lemma stops_exponent x : stops 10 (exponent_text x).
Proof. destruct x as [[[] sg ds]|]; cbn; done. Qed.

Lemma stops_rest fs x : stops 10 (fraction_text fs ++ exponent_text x).
Proof. destruct fs; [done|]. apply stops_exponent. Qed.

Lemma value_app ds1 ds2 :
  digits ds1 -> digits ds2 ->
  fold_left (digit_step 10) ds2 (value ds1) = value (ds1 ++ ds2).
Proof.
  intros H1 H2. unfold value. by rewrite fold_left_app, value_from.
Qed.

Lemma read_unsigned_text neg ws fs x :
  digits ws -> digits (default [] fs) -> ws ++ default [] fs <> [] ->
  well_formed_exponent x ->
  Literal.read_unsigned neg (ws ++ fraction_text fs ++ exponent_text x)
  = Literal.LDecimal neg (value (ws ++ default [] fs))
      (exponent_value x - Z.of_nat (length (default [] fs))).
Proof.
  intros Hws Hfs Hne Hx. unfold Literal.read_unsigned.
  assert (String.eqb
            (string_of_list_ascii (ws ++ fraction_text fs ++ exponent_text x))
            "Infinity" = false) as ->.
  { destruct ws as [|c ws'].
    - destruct fs as [fs|]; [|done]. by apply not_Infinity.
    - apply digits_cons in Hws as [Hc _]. apply not_Infinity.
      by intros ->. }
  rewrite read_digits_run;
    [|by apply digits_digits_in|apply stops_rest].
  rewrite value_from by done. fold (value ws). cbn [Nat.add].
  destruct fs as [fs|]; cbn [fraction_text default app] in *.
  - change (Literal.is_char "." ".") with true. cbv iota.
    rewrite read_digits_run;
      [|by apply digits_digits_in|apply stops_exponent].
    rewrite value_app by done. cbn [Nat.add].
    destruct (length ws + length fs =? 0) eqn:E.
    { apply Nat.eqb_eq in E. destruct ws, fs; done. }
    by rewrite read_exponent_text.
  - rewrite app_nil_r in *.
    assert (match exponent_text x with
            | [] => (value ws, 0, exponent_text x)
            | c :: r =>
                if Literal.is_char c "."
                then Literal.read_digits 10 r (value ws) 0
                else (value ws, 0, exponent_text x)
            end = (value ws, 0, exponent_text x)) as ->
      by (by destruct x as [[[] sg ds]|]).
    destruct (length ws + 0 =? 0) eqn:E.
    { apply Nat.eqb_eq in E. destruct ws; done. }
    by rewrite read_exponent_text.
Qed.

Lemma read_unsigned_inv neg l neg' m e :
  Literal.read_unsigned neg l = Literal.LDecimal neg' m e ->
  neg' = neg
  /\ exists ws fs x,
       digits ws /\ digits (default [] fs) /\ ws ++ default [] fs <> []
       /\ well_formed_exponent x
       /\ l = ws ++ fraction_text fs ++ exponent_text x
       /\ m = value (ws ++ default [] fs)
       /\ e = (exponent_value x - Z.of_nat (length (default [] fs)))%Z.
Proof.
  unfold Literal.read_unsigned.
  destruct (String.eqb (string_of_list_ascii l) "Infinity"); [done|].
  destruct (Literal.read_digits 10 l 0%N 0) as [[ip ni] l1] eqn:E1.
  apply read_digits_inv in E1 as (ws & -> & Hws & Hstop & -> & ->).
  apply digits_digits_in in Hws. rewrite value_from by done. fold (value ws).
  assert (forall fs (nf : nat) m' l2,
            l1 = fraction_text fs ++ l2 -> digits (default [] fs) ->
            nf = length (default [] fs) ->
            m' = value (ws ++ default [] fs) ->
            (if 0 + length ws + nf =? 0 then Literal.LNaN
             else match Literal.read_exponent l2 with
                  | Some e0 => Literal.LDecimal neg m' (e0 - Z.of_nat nf)
                  | None => Literal.LNaN
                  end) = Literal.LDecimal neg' m e ->
            neg' = neg
            /\ exists ws0 fs0 x,
                 digits ws0 /\ digits (default [] fs0)
                 /\ ws0 ++ default [] fs0 <> []
                 /\ well_formed_exponent x
                 /\ ws ++ l1 = ws0 ++ fraction_text fs0 ++ exponent_text x
                 /\ m = value (ws0 ++ default [] fs0)
                 /\ e = (exponent_value x
                         - Z.of_nat (length (default [] fs0)))%Z) as Hrest.
  { intros fs nf m' l2 -> Hfs -> -> Hres.
    destruct (0 + length ws + length (default [] fs) =? 0) eqn:Hlen; [done|].
    apply Nat.eqb_neq in Hlen.
    destruct (Literal.read_exponent l2) as [e0|] eqn:He; [|done].
    apply read_exponent_inv in He as (x & Hx & -> & ->).
    injection Hres as <- <- <-. split; [done|].
    exists ws, fs, x. split_and!; try done.
    intros Hnil. apply (f_equal length) in Hnil. rewrite length_app in Hnil.
    cbn in Hnil. lia. }
  destruct l1 as [|c r].
  { exact (Hrest None 0 (value ws) [] eq_refl eq_refl eq_refl
             (eq_sym (f_equal value (app_nil_r ws)))). }
  destruct (Literal.is_char c ".") eqn:Hc.
  - apply is_char_1 in Hc as ->.
    destruct (Literal.read_digits 10 r (value ws) 0) as [[m' nf] l2] eqn:E2.
    apply read_digits_inv in E2 as (fs & -> & Hfs & _ & -> & ->).
    apply digits_digits_in in Hfs.
    apply (Hrest (Some fs) (0 + length fs) _ l2); try done.
    by rewrite value_app.
  - exact (Hrest None 0 (value ws) (c :: r) eq_refl eq_refl eq_refl
             (eq_sym (f_equal value (app_nil_r ws)))).
Qed.


(** *** Integers in base 2, 8 and 16 *)

Lemma value_in_fold base ds :
  fold_left (digit_step base) ds 0%N = value_in base ds.
Proof. done. Qed.

Lemma radix_text base ds :
  digits_in base ds -> ds <> [] ->
  Literal.radix base ds = Literal.LDecimal false (value_in base ds) 0.
Proof.
  intros Hds Hne. unfold Literal.radix. rewrite <- (app_nil_r ds) at 1.
  rewrite read_digits_run by done. by destruct ds.
Qed.

Lemma radix_inv base l neg m e :
  Literal.radix base l = Literal.LDecimal neg m e ->
  neg = false /\ e = 0%Z /\ digits_in base l /\ l <> []
  /\ m = value_in base l.
Proof.
  unfold Literal.radix.
  destruct (Literal.read_digits base l 0%N 0) as [[v cnt] rest] eqn:E.
  destruct rest; [|done].
  apply read_digits_inv in E as (ds & -> & Hds & _ & -> & ->).
  rewrite app_nil_r. destruct ds; [done|]. intros [= <- <- <-]. done.
Qed.

(** *** No white space inside a literal *)

Lemma digit_nospace base c v :
  Literal.digit_of base c = Some v -> is_space c = false.
Proof.
  unfold Literal.digit_of, is_space. cbv zeta.
  destruct (Nat.leb_spec 48 (nat_of_ascii c)),
           (Nat.leb_spec (nat_of_ascii c) 57),
           (Nat.leb_spec 97 (nat_of_ascii c)),
           (Nat.leb_spec (nat_of_ascii c) 102),
           (Nat.leb_spec 65 (nat_of_ascii c)),
           (Nat.leb_spec (nat_of_ascii c) 70); cbn [andb]; try done; intros _.
  all: destruct (Nat.leb_spec 9 (nat_of_ascii c)),
                (Nat.leb_spec (nat_of_ascii c) 13),
                (Nat.eqb_spec (nat_of_ascii c) 32),
                (Nat.eqb_spec (nat_of_ascii c) 160); cbn; try done; lia.
Qed.

Lemma digits_in_nospace base ds : digits_in base ds -> nospace ds.
Proof.
  unfold digits_in, nospace. rewrite !forallb_forall. intros Hds c Hc.
  specialize (Hds c Hc). apply bool_decide_eq_true in Hds as [v Hv].
  apply negb_true_iff. by eapply digit_nospace.
Qed.

Lemma digits_nospace ds : digits ds -> nospace ds.
Proof. intros Hds. eapply digits_in_nospace. by apply digits_digits_in. Qed.

Lemma sign_nospace sg : nospace (sign_text sg).
Proof. by destruct sg. Qed.

Lemma exponent_nospace x : well_formed_exponent x -> nospace (exponent_text x).
Proof.
  destruct x as [[cap sg ds]|]; [|done]. intros [Hds _].
  cbn [exponent_text capital exp_sign exp_digits].
  change (nospace ([if cap then "E"%char else "e"%char]
                     ++ sign_text sg ++ ds)).
  rewrite !nospace_app. split_and!;
    [by destruct cap | apply sign_nospace | by apply digits_nospace].
Qed.

Lemma text_nospace d : well_formed d -> nospace (text d).
Proof.
  intros (Hw & Hf & _ & Hx). unfold text. rewrite !nospace_app.
  split_and!; [apply sign_nospace | by apply digits_nospace | |
               by apply exponent_nospace].
  unfold fraction_digits in Hf. destruct (fraction d) as [fs|]; [|done].
  change (nospace (["."%char] ++ fs)). rewrite nospace_app.
  split; [done | by apply digits_nospace].
Qed.

(** *** [Number] on the three forms *)

Lemma parse_blank ws :
  spaces ws ->
  Literal.parse (string_of_list_ascii ws) = Literal.LDecimal false 0 0.
Proof. intros Hws. unfold Literal.parse. by rewrite trim_spaces. Qed.

Lemma digit_not_sign c :
  is_digit c = true ->
  Literal.is_char c "+" = false /\ Literal.is_char c "-" = false.
Proof. intros Hc. split; by apply digit_not_char. Qed.

Lemma plain_not_mark x :
  is_digit x = true \/ x = "."%char \/ x = "e"%char \/ x = "E"%char ->
  Literal.is_char x "xX" = false /\ Literal.is_char x "oO" = false
  /\ Literal.is_char x "bB" = false.
Proof.
  intros [Hx|[->|[->| ->]]]; [|done..].
  split_and!; by apply digit_not_char.
Qed.

Lemma parse_body body :
  nospace body ->
  forall ws1 ws2, spaces ws1 -> spaces ws2 ->
  Literal.parse (string_of_list_ascii (ws1 ++ body ++ ws2))
  = match body with
    | [] => Literal.LDecimal false 0 0
    | c :: r =>
        if Literal.is_char c "+" then Literal.read_unsigned false r
        else if Literal.is_char c "-" then Literal.read_unsigned true r
        else
          match r with
          | x :: r' =>
              if Literal.is_char c "0" && Literal.is_char x "xX"
              then Literal.radix 16 r'
              else if Literal.is_char c "0" && Literal.is_char x "oO"
              then Literal.radix 8 r'
              else if Literal.is_char c "0" && Literal.is_char x "bB"
              then Literal.radix 2 r'
              else Literal.read_unsigned false body
          | [] => Literal.read_unsigned false body
          end
    end.
Proof.
  intros Hbody ws1 ws2 Hws1 Hws2. unfold Literal.parse.
  rewrite trim_body, list_string_inv by done. by destruct body.
Qed.

Lemma parse_decimal d ws1 ws2 :
  well_formed d -> spaces ws1 -> spaces ws2 ->
  Literal.parse (string_of_list_ascii (ws1 ++ text d ++ ws2))
  = Literal.LDecimal (is_minus (sign d)) (mantissa d) (scale d).
Proof.
  intros Hd Hws1 Hws2.
  rewrite parse_body by (done || by apply text_nospace).
  destruct Hd as (Hw & Hf & Hne & Hx).
  pose proof (read_unsigned_text (is_minus (sign d)) (whole d) (fraction d)
                (exponent d) Hw Hf Hne Hx) as Hread.
  unfold text, mantissa, scale, fraction_digits in *.
  destruct (sign d); cbn [sign_text app is_minus] in *.
  - (* no sign: the literal begins with a digit or the point *)
    destruct (whole d) as [|c ws] eqn:Ews.
    + destruct (fraction d) as [fs|]; [|done].
      cbn [fraction_text app] in *. cbn [default] in *.
      change (Literal.is_char "." "+") with false.
      change (Literal.is_char "." "-") with false.
      change (Literal.is_char "." "0") with false. cbv iota. cbn [andb].
      destruct (fs ++ exponent_text (exponent d)); exact Hread.
    + apply digits_cons in Hw as [Hc Hws]. cbn [app] in *.
      destruct (digit_not_sign c Hc) as [-> ->].
      destruct (ws ++ fraction_text (fraction d) ++ exponent_text (exponent d))
        as [|x r'] eqn:Er; [exact Hread|].
      assert (is_digit x = true \/ x = "."%char \/ x = "e"%char
              \/ x = "E"%char) as Hx'.
      { destruct ws as [|x' ws'].
        - destruct (fraction d) as [fs|].
          + injection Er as <- _. tauto.
          + destruct (exponent d) as [[[] sg ds]|]; [| |done];
              injection Er as <- _; tauto.
        - injection Er as <- _. apply digits_cons in Hws as [? _]. tauto. }
      destruct (plain_not_mark x Hx') as (-> & -> & ->).
      rewrite !andb_false_r. exact Hread.
  - exact Hread.
  - exact Hread.
Qed.

Lemma mark_base mark base :
  (mark, base) ∈ prefixes ->
  (if Literal.is_char mark "xX" then 16
   else if Literal.is_char mark "oO" then 8
   else if Literal.is_char mark "bB" then 2 else 0) = base.
Proof.
  unfold prefixes. rewrite !elem_of_cons, elem_of_nil.
  intros [H|[H|[H|[H|[H|[H|[]]]]]]]; by injection H as -> ->.
Qed.

Lemma mark_nospace mark base : (mark, base) ∈ prefixes -> is_space mark = false.
Proof.
  unfold prefixes. rewrite !elem_of_cons, elem_of_nil.
  intros [H|[H|[H|[H|[H|[H|[]]]]]]]; by injection H as -> ->.
Qed.

Lemma parse_radix mark base ds ws1 ws2 :
  (mark, base) ∈ prefixes -> digits_in base ds -> ds <> [] ->
  spaces ws1 -> spaces ws2 ->
  Literal.parse (string_of_list_ascii (ws1 ++ "0"%char :: mark :: ds ++ ws2))
  = Literal.LDecimal false (value_in base ds) 0.
Proof.
  intros Hmark Hds Hne Hws1 Hws2.
  change ("0"%char :: mark :: ds ++ ws2)
    with (("0"%char :: mark :: ds) ++ ws2).
  rewrite parse_body; [|
    change (nospace (["0"%char; mark] ++ ds)); apply nospace_app; split;
      [unfold nospace; cbn; by rewrite (mark_nospace _ _ Hmark)
      |by eapply digits_in_nospace] | done..].
  change (Literal.is_char "0" "+") with false.
  change (Literal.is_char "0" "-") with false.
  change (Literal.is_char "0" "0") with true. cbv iota. cbn [andb].
  pose proof (mark_base _ _ Hmark) as Hbase.
  destruct (Literal.is_char mark "xX"); [subst base; by apply radix_text|].
  destruct (Literal.is_char mark "oO"); [subst base; by apply radix_text|].
  destruct (Literal.is_char mark "bB"); [subst base; by apply radix_text|].
  subst base. unfold digits_in in Hds. destruct ds as [|c ds]; [done|].
  cbn in Hds. apply andb_prop in Hds as [Hc _].
  apply bool_decide_eq_true in Hc as [v Hv].
  unfold Literal.digit_of in Hv. cbv zeta in Hv.
  match type of Hv with match ?d with _ => _ end = _ => by destruct d end.
Qed.

Lemma parse_reads s neg m e :
  reads s neg m e -> Literal.parse s = Literal.LDecimal neg m e.
Proof.
  intros [ws Hws|d ws1 ws2 Hd Hws1 Hws2|mark base ds ws1 ws2 Hm Hds Hne Hws1 Hws2].
  - by apply parse_blank.
  - by apply parse_decimal.
  - by apply parse_radix.
Qed.


Lemma spaces_app ws1 ws2 : spaces ws1 -> spaces ws2 -> spaces (ws1 ++ ws2).
Proof.
  unfold spaces. rewrite forallb_app. intros -> ->. done.
Qed.

Lemma reads_parse s neg m e :
  Literal.parse s = Literal.LDecimal neg m e -> reads s neg m e.
Proof.
  destruct (trim_split s) as (ws1 & ws2 & Hs & Hws1 & Hws2).
  apply (f_equal string_of_list_ascii) in Hs. rewrite string_list_inv in Hs.
  unfold Literal.parse.
  destruct (list_ascii_of_string (trim s)) as [|c r].
  { intros [= <- <- <-]. rewrite Hs. apply reads_blank.
    by apply spaces_app. }
  assert (forall sg neg0,
            neg0 = is_minus sg -> c :: r = sign_text sg ++ drop (length (sign_text sg)) (c :: r) ->
            Literal.read_unsigned neg0 (drop (length (sign_text sg)) (c :: r))
            = Literal.LDecimal neg m e ->
            reads s neg m e) as Hdec.
  { intros sg neg0 -> Hsg Hread.
    apply read_unsigned_inv in Hread
      as (-> & ws & fs & x & Hw & Hf & Hne & Hx & Hl & -> & ->).
    rewrite Hs, Hsg, Hl.
    exact (reads_decimal
             {| sign := sg; whole := ws; fraction := fs; exponent := x |}
             ws1 ws2 (conj Hw (conj Hf (conj Hne Hx))) Hws1 Hws2). }
  destruct (Literal.is_char c "+") eqn:Hplus.
  { apply is_char_1 in Hplus as ->. exact (Hdec Plus false eq_refl eq_refl). }
  destruct (Literal.is_char c "-") eqn:Hminus.
  { apply is_char_1 in Hminus as ->. exact (Hdec Minus true eq_refl eq_refl). }
  assert (forall mark base,
            r = mark :: drop 1 r -> c = "0"%char -> (mark, base) ∈ prefixes ->
            Literal.radix base (drop 1 r) = Literal.LDecimal neg m e ->
            reads s neg m e) as Hradix.
  { intros mark base Hr -> Hmark Hrad.
    apply radix_inv in Hrad as (-> & -> & Hds & Hne & ->).
    rewrite Hs, Hr. by apply reads_radix. }
  destruct r as [|x r']; [exact (Hdec NoSign false eq_refl eq_refl)|].
  destruct (Literal.is_char c "0") eqn:Hzero; cbn [andb];
    [|exact (Hdec NoSign false eq_refl eq_refl)].
  apply is_char_1 in Hzero.
  destruct (Literal.is_char x "xX") eqn:H16.
  { apply is_char_2 in H16. apply (Hradix x 16); [done..|].
    unfold prefixes. destruct H16 as [->| ->]; set_solver. }
  destruct (Literal.is_char x "oO") eqn:H8.
  { apply is_char_2 in H8. apply (Hradix x 8); [done..|].
    unfold prefixes. destruct H8 as [->| ->]; set_solver. }
  destruct (Literal.is_char x "bB") eqn:H2.
  { apply is_char_2 in H2. apply (Hradix x 2); [done..|].
    unfold prefixes. destruct H2 as [->| ->]; set_solver. }
  exact (Hdec NoSign false eq_refl eq_refl).
Qed.

(** [Number] reads exactly the three forms. *)
Lemma parse_spec s neg m e :
  Literal.parse s = Literal.LDecimal neg m e <-> reads s neg m e.
Proof. split; [apply reads_parse | apply parse_reads]. Qed.

(** The characters of a decimal literal. *)
Definition decimal_char (c : ascii) : bool :=
  is_space c || is_digit c || Literal.is_char c "+-.eE".

Lemma decimal_chars s :
  decimal s ->
  forallb decimal_char (list_ascii_of_string s) = true
  /\ existsb is_digit (list_ascii_of_string s) = true.
Proof.
  intros (d & ws1 & ws2 & (Hw & Hf & Hne & Hx) & Hws1 & Hws2 & ->).
  rewrite list_string_inv.
  assert (forall l, spaces l -> forallb decimal_char l = true) as Hsp.
  { intros l Hl. unfold spaces in Hl. rewrite forallb_forall in Hl |- *.
    intros c Hc. unfold decimal_char. by rewrite (Hl c Hc). }
  assert (forall l, digits l -> forallb decimal_char l = true) as Hdg.
  { intros l Hl. unfold digits in Hl. rewrite forallb_forall in Hl |- *.
    intros c Hc. unfold decimal_char. rewrite (Hl c Hc).
    by rewrite orb_true_r. }
  assert (forall sg, forallb decimal_char (sign_text sg) = true) as Hsg
    by (by intros []).
  split.
  - unfold text. rewrite !forallb_app.
    rewrite (Hsp ws1), (Hsp ws2), (Hdg (whole d)), Hsg by done.
    cbn [andb]. rewrite andb_true_r. unfold fraction_digits in Hf.
    apply andb_true_intro. split.
    + destruct (fraction d) as [fs|]; [|done]. cbn. by apply Hdg.
    + destruct (exponent d) as [[cap sg ds]|]; [|done]. destruct Hx as [Hds _].
      cbn [exponent_text capital exp_sign exp_digits forallb].
      rewrite forallb_app, Hsg, Hdg by done. by destruct cap.
  - unfold text, fraction_digits in *. rewrite !existsb_app.
    destruct (whole d) as [|c ws].
    + destruct (fraction d) as [[|c fs]|]; try done.
      apply digits_cons in Hf as [Hc _]. cbn. rewrite Hc.
      by rewrite !orb_true_r.
    + apply digits_cons in Hw as [Hc _]. cbn. rewrite Hc.
      by rewrite !orb_true_r.
Qed.

End NumeralFacts.

Section CoercionOnDoubles.
#[local] Existing Instance Float64.
Import JsString Numeral.

(** C3 (amended). [coerceNumber] returns the number [n] exactly when [n]
    is finite and the value is the number [n] itself, or a string that
    [Number] reads as [n]: a decimal literal (a sign, digits with a
    fraction, an exponent), an empty or blank string, which reads as 0,
    or an integer in base 2, 8 or 16 after [0b], [0o] or [0x]; white
    space around the literal is skipped, and [n] is the double nearest
    to the number that the literal denotes.  For every other value, and
    for every other string, it returns no number. *)
Theorem coerceNumber_spec (v : unknown float) (n : float) :
  coerceNumber v = Some n <->
  is_finite n = true
  /\ (v = VNumber n
      \/ exists s neg m e,
           v = VString s /\ reads s neg m e
           /\ n = F64.of_literal (Literal.LDecimal neg m e)).
Proof.
  split.
  - intros Hc. split; [exact (coerceNumber_finite _ _ Hc)|].
    destruct v as [| | |x|s|]; cbn in Hc; try done.
    + destruct (is_finite x); [|done]. left. by injection Hc as ->.
    + right. unfold F64.Number_of_string in Hc.
      destruct (Literal.parse s) as [|neg|neg m e] eqn:Hp.
      * done.
      * by destruct neg.
      * destruct (is_finite _); [|done]. injection Hc as <-.
        exists s, neg, m, e. split_and!; [done| |done].
        by apply parse_spec.
  - intros [Hfin [->|(s & neg & m & e & -> & Hr & ->)]]; cbn.
    + cbn in Hfin. by rewrite Hfin.
    + unfold F64.Number_of_string. apply parse_spec in Hr. rewrite Hr.
      by rewrite Hfin.
Qed.

End CoercionOnDoubles.

(** ** The moving average *)

Section MovingAverage.
Context {N : Number}.
Implicit Types (vals : list num) (ts : list (Point num)).

Lemma ma_step_eq vals run ma i :
  ma_step vals (run, ma) i
  = (next_run vals run i,
     (ma ++ [if window - 1 <=? i
             then Some (ndiv (next_run vals run i) (of_nat window))
             else None])%list).
Proof. unfold ma_step, next_run. by destruct (window - 1 <=? i). Qed.

Lemma ma_prefix_S vals n :
  ma_prefix vals (S n) = ma_step vals (ma_prefix vals n) n.
Proof. unfold ma_prefix. by rewrite seq_S, fold_left_app. Qed.

Lemma run_after_eq vals i :
  run_after vals i = next_run vals (fst (ma_prefix vals i)) i.
Proof.
  unfold run_after. rewrite ma_prefix_S.
  destruct (ma_prefix vals i) as [run ma]. by rewrite ma_step_eq.
Qed.

Lemma ma_prefix_entries vals n :
  snd (ma_prefix vals n)
  = map (fun i => if window - 1 <=? i
                  then Some (ndiv (run_after vals i) (of_nat window))
                  else None) (seq 0 n).
Proof.
  induction n as [|n IH]; [done|].
  rewrite seq_S, map_app, <- IH, ma_prefix_S.
  cbn [map Nat.add]. rewrite run_after_eq.
  destruct (ma_prefix vals n) as [run ma]. by rewrite ma_step_eq.
Qed.

Lemma ma_loop_lookup vals i :
  i < length vals ->
  snd (ma_loop vals) !! i
  = Some (if window - 1 <=? i
          then Some (ndiv (run_after vals i) (of_nat window))
          else None).
Proof.
  intros Hi. unfold ma_loop. fold (ma_prefix vals (length vals)).
  rewrite ma_prefix_entries, list_lookup_fmap, lookup_seq_lt; done.
Qed.

Lemma timeSeriesWithMA_lookup ts i d :
  timeSeriesWithMA ts !! i = Some d ->
  exists p, ts !! i = Some p /\ ma_date d = date p /\ ma_value d = pvalue p
    /\ ma d = if window - 1 <=? i
              then Some (ndiv (run_after (map pvalue ts) i) (of_nat window))
              else None.
Proof.
  unfold timeSeriesWithMA. destruct (length ts =? 0) eqn:E; [done|].
  rewrite list_lookup_imap. destruct (ts !! i) as [p|] eqn:Hp; [|done].
  simpl. intros [= <-]. exists p. simpl. split_and!; try done.
  rewrite ma_loop_lookup; [done|].
  rewrite length_map. by eapply lookup_lt_Some.
Qed.

(** C10. The moving-average pass keeps the series: same length, same
    order, and every point keeps its date and its value; only the field
    [ma] is new. *)
Theorem timeSeriesWithMA_frame ts :
  length (timeSeriesWithMA ts) = length ts
  /\ map (fun d => {| date := ma_date d; pvalue := ma_value d |})
       (timeSeriesWithMA ts) = ts.
Proof.
  assert (forall (g : nat -> Point num -> PointMA num) l,
            (forall i p, ma_date (g i p) = date p /\ ma_value (g i p) = pvalue p) ->
            map (fun d => {| date := ma_date d; pvalue := ma_value d |})
              (imap g l) = l) as Himap.
  { intros g l. revert g. induction l as [|[dt v] l IH]; intros g Hg; [done|].
    rewrite imap_cons. simpl. destruct (Hg 0 {| date := dt; pvalue := v |}) as [-> ->].
    simpl. f_equal. apply IH. intros i p. apply (Hg (S i)). }
  unfold timeSeriesWithMA. destruct ts as [|p ts]; [done|].
  change (length (p :: ts) =? 0) with false. cbv iota.
  split; [by rewrite length_imap|].
  by apply Himap.
Qed.

Lemma Qc_sum_snoc (xs : list Qc) (x : Qc) :
  Qc_sum (xs ++ [x]) = (Qc_sum xs + x)%Qc.
Proof.
  induction xs as [|y xs IH]; simpl; [ring|]. rewrite IH. ring.
Qed.

Lemma exactb_true op qop (a b : num) x y :
  exactb op qop a b = true -> real a = Some x -> real b = Some y ->
  real (op a b) = Some (qop x y).
Proof.
  unfold exactb. intros Hex Ha Hb. rewrite Ha, Hb in Hex.
  destruct (real (op a b)) as [z|]; [|done].
  by apply bool_decide_eq_true in Hex as ->.
Qed.

Lemma operand_real vals xs i x :
  reals_of vals xs -> xs !! i = Some x -> real (operand vals i) = Some x.
Proof.
  intros Hxs Hx. unfold operand.
  destruct (Forall2_lookup_r _ _ _ _ _ Hxs Hx) as (v & -> & Hv). done.
Qed.

(** While nothing is rounded, [run] is the sum of the last [window]
    values seen. *)
Lemma run_after_exact vals xs i :
  reals_of vals xs -> real (of_nat 0) = Some 0%Qc ->
  (forall j, j <= i -> update_exact vals (fst (ma_prefix vals j)) j = true) ->
  i < length vals ->
  real (run_after vals i)
  = Some (Qc_sum (drop (S i - window) (take (S i) xs))).
Proof.
  intros Hxs H0. induction i as [|i IH]; intros Hex Hi.
  - destruct (lookup_lt_is_Some_2 xs 0) as [x Hx].
    { by rewrite <- (Forall2_length _ _ _ Hxs). }
    specialize (Hex 0 (le_n 0)). apply andb_prop in Hex as [Hadd _].
    rewrite run_after_eq. unfold next_run. cbn [ma_prefix seq fold_left fst] in *.
    change (window <=? 0) with false. cbv iota.
    rewrite (exactb_true _ _ _ _ _ _ Hadd H0 (operand_real _ _ _ _ Hxs Hx)).
    rewrite (take_S_r _ _ _ Hx). simpl. f_equal. ring.
  - assert (Hlen : length xs = length vals) by (symmetry; by eapply Forall2_length).
    destruct (lookup_lt_is_Some_2 xs (S i)) as [x Hx]; [lia|].
    pose proof (Hex (S i) (le_n _)) as Hstep.
    specialize (IH (fun j Hj => Hex j (Nat.le_trans _ _ _ Hj (Nat.le_succ_diag_r i)))
                   (Nat.lt_succ_l _ _ Hi)).
    apply andb_prop in Hstep as [Hadd Hsub].
    fold (run_after vals i) in Hadd, Hsub.
    pose proof (exactb_true _ _ _ _ _ _ Hadd IH (operand_real _ _ _ _ Hxs Hx)) as Hr1.
    rewrite run_after_eq. fold (run_after vals i). unfold next_run.
    rewrite (take_S_r _ (S i) _ Hx).
    destruct (window <=? S i) eqn:Hw.
    + apply Nat.leb_le in Hw.
      destruct (lookup_lt_is_Some_2 xs (S i - window)) as [y Hy]; [lia|].
      rewrite (exactb_true _ _ _ _ _ _ Hsub Hr1 (operand_real _ _ _ _ Hxs Hy)).
      f_equal.
      assert (take (S i) xs !! (S i - window) = Some y) as Hty.
      { rewrite lookup_take_lt; [done|]. unfold window in *. lia. }
      rewrite (drop_S _ _ _ Hty). cbn [Qc_sum foldr]. fold (Qc_sum (drop (S (S i - window)) (take (S i) xs))).
      replace (S (S i) - window) with (S (S i - window)) by lia.
      rewrite drop_app_le, Qc_sum_snoc.
      * ring.
      * rewrite length_take. unfold window in *. lia.
    + apply Nat.leb_gt in Hw.
      unfold window in *.
      replace (S (S i) - 7) with 0 by lia.
      replace (S i - 7) with 0 in Hr1 by lia.
      rewrite drop_0 in Hr1. by rewrite Hr1, drop_0, Qc_sum_snoc.
Qed.

Lemma updates_exact_reals vals :
  updates_exact vals = true -> exists xs, reals_of vals xs.
Proof.
  unfold updates_exact. intros Hex. apply andb_prop in Hex as [_ Hex].
  rewrite forallb_forall in Hex.
  assert (forall i v, vals !! i = Some v -> is_Some (real v)) as Hall.
  { intros i v Hv. specialize (Hex i). 
    assert (In i (seq 0 (length vals))) as Hin.
    { apply in_seq. apply lookup_lt_Some in Hv. lia. }
    apply Hex, andb_prop in Hin as [Hadd _]. unfold exactb, operand in Hadd.
    rewrite Hv in Hadd.
    destruct (real (fst (ma_prefix vals i))); [|done].
    destruct (real v); [eauto | done]. }
  clear Hex. induction vals as [|v vals IH].
  - exists []. constructor.
  - destruct (Hall 0 v eq_refl) as [x Hx].
    destruct IH as [xs Hxs]; [intros i w; apply (Hall (S i))|].
    exists (x :: xs). by constructor.
Qed.

(** C2 (amended). The moving-average pass gives no average at the indices
    0 to 5.  At every index [i >= 6] it gives [run / 7], where [run] is the
    sliding accumulator ([run += vals[i]], then [run -= vals[i - 7]] once
    [i >= 7]); whenever every update of the accumulator is exact (nothing
    is rounded), [run] is the sum of the seven values [vals[i-6 .. i]]. *)
Theorem moving_average_window ts i d :
  timeSeriesWithMA ts !! i = Some d ->
  (i < window - 1 -> ma d = None)
  /\ (window - 1 <= i ->
      ma d = Some (ndiv (run_after (map pvalue ts) i) (of_nat window))
      /\ (updates_exact (map pvalue ts) = true ->
          exists xs, reals_of (map pvalue ts) xs
            /\ real (run_after (map pvalue ts) i)
               = Some (Qc_sum (take window (drop (i + 1 - window) xs))))).
Proof.
  intros Hd. apply timeSeriesWithMA_lookup in Hd as (p & Hp & _ & _ & Hma).
  split.
  - intros Hi. rewrite Hma. by apply Nat.leb_gt in Hi as ->.
  - intros Hi. split.
    + rewrite Hma. by apply Nat.leb_le in Hi as ->.
    + intros Hex. destruct (updates_exact_reals _ Hex) as [xs Hxs].
      exists xs. split; [done|].
      unfold updates_exact in Hex. apply andb_prop in Hex as [H0 Hex].
      apply bool_decide_eq_true in H0. rewrite forallb_forall in Hex.
      assert (i < length (map pvalue ts)) as Hlt.
      { rewrite length_map. by eapply lookup_lt_Some. }
      rewrite (run_after_exact _ xs i Hxs H0); [|
        intros j Hj; apply Hex, in_seq; lia | done].
      f_equal. f_equal. rewrite take_drop_commute. f_equal.
      * unfold window in *. lia.
      * f_equal. unfold window in *. lia.
Qed.

End MovingAverage.

(** ** Summary statistics *)

Section Statistics.
Context {N : Number}.
Import JsString.

Lemma metric_values_nil mk rows :
  Forall (fun r => coerceNumber (get r mk) = None) rows ->
  metric_values mk rows = [].
Proof.
  unfold metric_values. induction 1 as [|r rows Hr _ IH]; [done|].
  cbn [omap list_omap]. by rewrite Hr.
Qed.

Lemma selected_truthy k : truthy k = true -> selected (Some k) = Some k.
Proof. unfold selected. by intros ->. Qed.

(** C9. With a metric column selected and no row whose metric value
    coerces to a number, [stats] returns the record of zeros
    [{ count: 0, min: 0, max: 0, mean: 0, median: 0, p95: 0 }]. *)
Theorem stats_no_values mk rows :
  truthy mk = true ->
  Forall (fun r => coerceNumber (get r mk) = None) rows ->
  stats (Some mk) rows
  = Some {| count := 0; smin := Some (of_nat 0); smax := Some (of_nat 0);
            mean := of_nat 0; median := Some (of_nat 0);
            p95 := Some (of_nat 0) |}.
Proof.
  intros Hmk Hrows. unfold stats.
  rewrite (selected_truthy _ Hmk), (metric_values_nil _ _ Hrows). done.
Qed.

End Statistics.

(** ** The rank of the 95th percentile *)

Section P95OnDoubles.
#[local] Existing Instance Float64.
Import JsString.

Lemma p95_ranks_2000 :
  forallb (fun n => bool_decide (to_index (p95_index n) = Some (n * 19 / 20)))
    (seq 1 2000) = true.
Proof. vm_compute. reflexivity. Qed.

Lemma p95_rank_doubles (n : nat) :
  1 <= n <= 2000 -> to_index (p95_index n) = Some (n * 19 / 20).
Proof.
  intros Hn. pose proof p95_ranks_2000 as Hall.
  rewrite forallb_forall in Hall.
  specialize (Hall n). rewrite bool_decide_eq_true in Hall.
  apply Hall, in_seq. lia.
Qed.


End P95OnDoubles.

(** ** Default selections *)

Section DefaultsFacts.
Context {N : Number}.
Import JsString.

Lemma init_slot_set candidates columns prev s :
  selected prev = Some s -> init_slot candidates columns prev = prev.
Proof. unfold init_slot. by intros ->. Qed.

Lemma init_slot_unset candidates columns prev :
  selected prev = None ->
  init_slot candidates columns prev = preferred_or_first candidates columns.
Proof. unfold init_slot. by intros ->. Qed.

Lemma init_slot_idem candidates columns prev :
  init_slot candidates columns (init_slot candidates columns prev)
  = init_slot candidates columns prev.
Proof.
  destruct (selected prev) eqn:E.
  - by rewrite !(init_slot_set _ _ _ _ E).
  - rewrite (init_slot_unset _ _ _ E). unfold init_slot.
    by destruct (selected (preferred_or_first candidates columns)).
Qed.

(** C8. A slot that holds a column (for the program: a non-empty name,
    the test [if (prev)]) keeps it when the defaults are resolved again,
    whatever the rows and the classified columns are by then; a slot still
    unset receives its default once rows are there; and resolving twice
    against the same columns changes nothing the second time. *)
Theorem initDefaults_keeps_selection rows sc nc dc sel :
  let sel' := initDefaults rows sc nc dc sel in
  (forall s, selected (groupKey sel) = Some s -> groupKey sel' = Some s)
  /\ (forall s, selected (metricKey sel) = Some s -> metricKey sel' = Some s)
  /\ (forall s, selected (dateKey sel) = Some s -> dateKey sel' = Some s)
  /\ (rows <> [] ->
      (selected (groupKey sel) = None ->
         groupKey sel' = preferred_or_first groupCandidates sc)
      /\ (selected (metricKey sel) = None ->
         metricKey sel' = preferred_or_first metricCandidates nc)
      /\ (selected (dateKey sel) = None ->
         dateKey sel' = preferred_or_first dateCandidates dc))
  /\ initDefaults rows sc nc dc sel' = sel'.
Proof.
  assert (forall k s, selected k = Some s -> k = Some s) as Hsel.
  { intros [k|] s; unfold selected; [|done]. by destruct (truthy k); intros [= ->]. }
  cbv zeta. unfold initDefaults.
  destruct rows as [|r rows]; cbn [length Nat.eqb].
  - split_and!; try done; by intros s Hs; apply Hsel.
  - cbn [groupKey metricKey dateKey]. split_and!.
    + intros s Hs. rewrite (init_slot_set _ _ _ _ Hs). by apply Hsel.
    + intros s Hs. rewrite (init_slot_set _ _ _ _ Hs). by apply Hsel.
    + intros s Hs. rewrite (init_slot_set _ _ _ _ Hs). by apply Hsel.
    + intros _. split_and!; apply init_slot_unset.
    + by rewrite !init_slot_idem.
Qed.

End DefaultsFacts.

(** ** Which event a map keeps *)

Section WinnersFacts.
Context {X : Type}.
Implicit Types (evs : list (string * X)) (m : JsMap.t X) (k : string) (x : X).

Lemma lookup_snoc_Some {A} (l : list A) (a b : A) i :
  (l ++ [a]) !! i = Some b <->
  (i < length l /\ l !! i = Some b) \/ (i = length l /\ a = b).
Proof.
  rewrite lookup_app_Some. split.
  - intros [Hl|[Hlen Hi]].
    + left. split; [by eapply lookup_lt_Some | done].
    + right. destruct (i - length l) as [|n] eqn:E; simpl in Hi; [|done].
      split; [lia | congruence].
  - intros [[_ Hl]|[-> ->]]; [by left|].
    right. split; [lia|]. by rewrite Nat.sub_diag.
Qed.

Lemma is_last_snoc evs k0 x0 k x :
  is_last (evs ++ [(k0, x0)]) k x <->
  (k = k0 /\ x = x0) \/ (k <> k0 /\ is_last evs k x).
Proof.
  split.
  - intros (i & Hi & Hlast). apply lookup_snoc_Some in Hi as [[Hlt Hi]|[-> Hi]].
    + right. split.
      * intros ->. apply (Hlast (length evs) x0 Hlt).
        apply lookup_snoc_Some. by right.
      * exists i. split; [done|]. intros j x' Hj Hev.
        apply (Hlast j x' Hj). apply lookup_snoc_Some. left.
        split; [by eapply lookup_lt_Some | done].
    + left. by inversion Hi.
  - intros [[-> ->]|[Hne (i & Hi & Hlast)]].
    + exists (length evs). split; [apply lookup_snoc_Some; by right|].
      intros j x' Hj Hev. apply lookup_snoc_Some in Hev as [[? _]|[? _]]; lia.
    + exists i. split.
      * apply lookup_snoc_Some. left. split; [by eapply lookup_lt_Some | done].
      * intros j x' Hj Hev. apply lookup_snoc_Some in Hev as [[_ Hev]|[_ Hev]].
        -- by apply (Hlast j x' Hj).
        -- by inversion Hev.
Qed.

Lemma is_first_snoc evs k0 x0 k x :
  is_first (evs ++ [(k0, x0)]) k x <->
  is_first evs k x \/ (k = k0 /\ x = x0 /\ k ∉ map fst evs).
Proof.
  split.
  - intros (i & Hi & Hfirst). apply lookup_snoc_Some in Hi as [[Hlt Hi]|[-> Hi]].
    + left. exists i. split; [done|]. intros j x' Hj Hev.
      apply (Hfirst j x' Hj). apply lookup_snoc_Some. left.
      split; [lia | done].
    + right. inversion Hi; subst. split_and!; try done.
      intros Hin. apply list_elem_of_fmap in Hin as ([k' x'] & -> & Hin).
      apply list_elem_of_lookup in Hin as [j Hj].
      apply (Hfirst j x'); [by eapply lookup_lt_Some|].
      apply lookup_snoc_Some. left. split; [by eapply lookup_lt_Some | done].
  - intros [(i & Hi & Hfirst)|(-> & -> & Hnot)].
    + exists i. split.
      * apply lookup_snoc_Some. left. split; [by eapply lookup_lt_Some | done].
      * intros j x' Hj Hev. apply lookup_snoc_Some in Hev as [[_ Hev]|[-> _]].
        -- by apply (Hfirst j x' Hj).
        -- apply lookup_lt_Some in Hi. lia.
    + exists (length evs). split; [apply lookup_snoc_Some; by right|].
      intros j x' Hj Hev. apply lookup_snoc_Some in Hev as [[_ Hev]|[? _]]; [|lia].
      apply Hnot. apply list_elem_of_lookup_2 in Hev.
      by apply (list_elem_of_fmap_2 fst) in Hev.
Qed.

(** [set] at every event: the map holds the last event of each key. *)
Lemma write_always_spec evs :
  let m := fold_left write_always evs JsMap.empty in
  NoDup (JsMap.keys m)
  /\ forall k x, JsMap.get k m = Some x <-> is_last evs k x.
Proof.
  induction evs as [|[k0 x0] evs IH] using rev_ind.
  - split; [constructor|]. intros k x. split; [done|].
    by intros (i & Hi & _).
  - cbv zeta in *. rewrite fold_left_app. cbn [fold_left].
    destruct IH as [Hnd IH]. unfold write_always at 1 3. cbn [fst snd].
    split; [by apply NoDup_keys_set|].
    intros k x. rewrite is_last_snoc.
    destruct (decide (k0 = k)) as [->|Hne].
    + rewrite get_set_eq. split; [intros [= ->]; by left|].
      by intros [[_ ->]|[? _]].
    + rewrite (get_set_ne _ _ _ _ Hne), IH. split; [intros ?; right; by split|].
      by intros [[-> _]|[_ ?]].
Qed.

(** [set] at the events of a new key only: the map holds the first event
    of each key. *)
Lemma write_once_spec evs :
  let m := fold_left write_once evs JsMap.empty in
  (forall k, JsMap.get k m = None <-> k ∉ map fst evs)
  /\ forall k x, JsMap.get k m = Some x <-> is_first evs k x.
Proof.
  induction evs as [|[k0 x0] evs IH] using rev_ind.
  - split.
    + intros k. split; [intros _; apply not_elem_of_nil | done].
    + intros k x. split; [done|]. by intros (i & Hi & _).
  - cbv zeta in *. rewrite fold_left_app. cbn [fold_left].
    destruct IH as [Hkeys IH]. unfold write_once at 1 3. cbn [fst snd].
    unfold JsMap.has.
    destruct (JsMap.get k0 (fold_left write_once evs JsMap.empty)) as [x1|] eqn:E.
    + assert (k0 ∈ map fst evs) as Hin.
      { destruct (decide (k0 ∈ map fst evs)); [done|].
        apply Hkeys in n. congruence. }
      split.
      * intros k. rewrite Hkeys, map_app, not_elem_of_app. cbn.
        rewrite list_elem_of_singleton. split; [|tauto].
        intros Hk. split; [done|]. by intros ->.
      * intros k x. rewrite IH, is_first_snoc. split; [tauto|].
        intros [?|(-> & _ & Hnot)]; done.
    + apply Hkeys in E. split.
      * intros k. rewrite map_app, not_elem_of_app. cbn.
        rewrite list_elem_of_singleton.
        destruct (decide (k0 = k)) as [->|Hne].
        -- rewrite get_set_eq. split; [done | tauto].
        -- rewrite (get_set_ne _ _ _ _ Hne), Hkeys. split; [|tauto].
           intros ?. split; [done | congruence].
      * intros k x. rewrite is_first_snoc.
        destruct (decide (k0 = k)) as [->|Hne].
        -- rewrite get_set_eq. split.
           ++ intros [= ->]. by right.
           ++ intros [(i & Hi & _)|(_ & -> & _)]; [|done].
              exfalso. apply E. apply list_elem_of_lookup_2 in Hi.
              by apply (list_elem_of_fmap_2 fst) in Hi.
        -- rewrite (get_set_ne _ _ _ _ Hne), IH. split; [tauto|].
           intros [?|(-> & _)]; done.
Qed.

(** A loop that skips the rows without an event is a loop over the
    events. *)
Lemma fold_left_events {A R} (f : R -> option (string * X))
    (g : A -> string * X -> A) (rows : list R) (a : A) :
  fold_left (fun a r => match f r with Some e => g a e | None => a end) rows a
  = fold_left g (omap f rows) a.
Proof.
  revert a. induction rows as [|r rows IH]; intros a; [done|].
  cbn [fold_left omap list_omap]. rewrite IH. by destruct (f r).
Qed.

Lemma fold_left_ext {A B} (f g : A -> B -> A) (l : list B) (a : A) :
  (forall a b, f a b = g a b) -> fold_left f l a = fold_left g l a.
Proof.
  intros Hfg. revert a. induction l as [|b l IH]; intros a; [done|].
  cbn [fold_left]. by rewrite Hfg, IH.
Qed.

End WinnersFacts.

(** ** Days in the form YYYY-MM-DD *)

Section IsoDays.

Lemma digits_length w n : length (IsoDate.digits w n) = w.
Proof.
  revert n. induction w as [|w IH]; intros n; [done|].
  cbn [IsoDate.digits]. rewrite length_app, IH. cbn. lia.
Qed.

Lemma digit_char (n : Z) :
  Numeral.is_digit (ascii_of_nat (48 + Z.to_nat (n mod 10))) = true.
Proof.
  pose proof (Z.mod_pos_bound n 10 eq_refl) as Hb.
  assert (Z.to_nat (n mod 10) < 10) as Hlt by lia.
  revert Hlt. generalize (Z.to_nat (n mod 10)). intros k Hk.
  do 10 (destruct k as [|k]; [done|]). lia.
Qed.

Lemma digits_are_digits w n : forallb Numeral.is_digit (IsoDate.digits w n) = true.
Proof.
  revert n. induction w as [|w IH]; intros n; [done|].
  cbn [IsoDate.digits]. rewrite forallb_app, IH. cbn [forallb].
  by rewrite digit_char.
Qed.

Lemma civil_year_range (z : Z) :
  (-719528 <= z <= 2932896)%Z ->
  (0 <= (IsoDate.civil_from_days z).1.1 <= 9999)%Z.
Proof.
  intros Hz. unfold IsoDate.civil_from_days. cbv zeta. cbn [fst].
  set (z' := (z + 719468)%Z).
  set (era := (z' / 146097)%Z).
  set (doe := (z' - era * 146097)%Z).
  set (yoe := ((doe - doe / 1460 + doe / 36524 - doe / 146096) / 365)%Z).
  set (doy := (doe - (365 * yoe + yoe / 4 - yoe / 100))%Z).
  set (mp := ((5 * doy + 2) / 153)%Z).
  assert (-1 <= era <= 24)%Z as Hera
    by (subst era z'; Z.to_euclidean_division_equations; lia).
  assert (0 <= doe <= 146096)%Z as Hdoe
    by (subst doe era; Z.to_euclidean_division_equations; lia).
  assert (0 <= yoe <= 399)%Z as Hyoe
    by (subst yoe; Z.to_euclidean_division_equations; lia).
  assert (0 <= doy <= 365)%Z as Hdoy
    by (subst doy yoe; Z.to_euclidean_division_equations; lia).
  assert (0 <= mp <= 11)%Z as Hmp'
    by (subst mp; Z.to_euclidean_division_equations; lia).
  assert (era = -1 -> yoe = 399 /\ 306 <= doy)%Z as Hlow.
  { intros He. subst doy yoe doe. rewrite He in *. subst era z'.
    Z.to_euclidean_division_equations. lia. }
  assert (era = 24 -> yoe = 399 -> doy <= 305)%Z as Hhigh.
  { intros He Hy. subst doy. rewrite Hy in *. subst yoe doe. rewrite He in *.
    subst era z'. Z.to_euclidean_division_equations. lia. }
  assert (306 <= doy <-> 10 <= mp)%Z as Hmp
    by (subst mp; Z.to_euclidean_division_equations; lia).
  destruct (mp <? 10)%Z eqn:E; [apply Z.ltb_lt in E|apply Z.ltb_ge in E].
  - assert ((mp + 3 <=? 2)%Z = false) as -> by (apply Z.leb_gt; lia). lia.
  - assert ((mp - 9 <=? 2)%Z = true) as -> by (apply Z.leb_le; lia). lia.
Qed.


Lemma iso_day_canonical (t : Z) :
  four_digit_year t = true -> canonical_day (IsoDate.iso_day t) = true.
Proof.
  unfold four_digit_year. intros [Hlo Hhi]%andb_prop.
  apply Z.leb_le in Hlo, Hhi.
  assert (-719528 <= t / 86400000 <= 2932896)%Z as Hz
    by (Z.to_euclidean_division_equations; lia).
  pose proof (civil_year_range _ Hz) as Hy.
  unfold IsoDate.iso_day.
  destruct (IsoDate.civil_from_days (t / 86400000)) as [[y m] d].
  cbn [fst] in Hy.
  assert (((0 <=? y) && (y <=? 9999))%Z = true) as ->
    by (apply andb_true_intro; split; apply Z.leb_le; lia).
  pose proof (digits_length 4 y) as Ly.
  pose proof (digits_length 2 m) as Lm.
  pose proof (digits_length 2 d) as Ld.
  pose proof (digits_are_digits 4 y) as Dy.
  pose proof (digits_are_digits 2 m) as Dm.
  pose proof (digits_are_digits 2 d) as Dd.
  destruct (IsoDate.digits 4 y) as [|y1 [|y2 [|y3 [|y4 [|]]]]]; try done.
  destruct (IsoDate.digits 2 m) as [|m1 [|m2 [|]]]; try done.
  destruct (IsoDate.digits 2 d) as [|d1 [|d2 [|]]]; try done.
  cbn in Dy, Dm, Dd |- *.
  repeat match goal with
         | H : _ && _ = true |- _ => apply andb_prop in H as [? H]
         end.
  unfold canonical_day. cbn.
  repeat match goal with H : Numeral.is_digit _ = true |- _ => rewrite H; clear H end.
  done.
Qed.

Lemma digit_of_lt base c v : Literal.digit_of base c = Some v -> v < base.
Proof.
  unfold Literal.digit_of. cbv zeta.
  match goal with |- match ?d with _ => _ end = _ -> _ => destruct d as [y|] end;
    [|done].
  destruct (y <? base) eqn:E; [|done]. intros [= <-]. by apply Nat.ltb_lt.
Qed.

Lemma number_range n l acc v :
  (0 <= acc)%Z -> IsoDate.number n l acc = Some v ->
  (acc * 10 ^ Z.of_nat n <= v < (acc + 1) * 10 ^ Z.of_nat n)%Z.
Proof.
  revert l acc. induction n as [|n IH]; intros l acc Hacc.
  - destruct l; [|done]. cbn. intros [= ->]. lia.
  - destruct l as [|c l]; [done|]. cbn [IsoDate.number].
    destruct (IsoDate.digit c) as [dg|] eqn:Hd; [|done].
    assert (0 <= dg <= 9)%Z as Hdg.
    { unfold IsoDate.digit in Hd.
      destruct (Literal.digit_of 10 c) as [k|] eqn:Hk; [|done].
      injection Hd as <-. apply digit_of_lt in Hk. lia. }
    intros Hn. apply IH in Hn; [|lia].
    rewrite Nat2Z.inj_succ, Z.pow_succ_r by lia.
    pose proof (Z.pow_pos_nonneg 10 (Z.of_nat n)) as Hp. nia.
Qed.

Lemma days_from_civil_range y m d :
  (0 <= y <= 9999)%Z -> (1 <= m <= 12)%Z ->
  (1 <= d <= IsoDate.days_in_month y m)%Z ->
  (-719528 <= IsoDate.days_from_civil y m d <= 2932896)%Z.
Proof.
  unfold IsoDate.days_in_month, IsoDate.days_from_civil. cbv zeta.
  intros Hy Hm.
  repeat match goal with
         | |- context [if ?b then _ else _] =>
             let E := fresh in
             destruct b eqn:E;
             [first [apply Z.leb_le in E | apply Z.ltb_lt in E | apply Z.eqb_eq in E]
             |first [apply Z.leb_gt in E | apply Z.ltb_ge in E | apply Z.eqb_neq in E]]
         end;
    try lia; intros Hd; Z.to_euclidean_division_equations; lia.
Qed.

(** On the host for ISO dates every day of a date that parses has the
    form [YYYY-MM-DD]. *)
Lemma IsoHost_days_canonical ds t :
  IsoDate.parse ds = Some t -> canonical_day (IsoDate.iso_day t) = true.
Proof.
  intros Hp. apply iso_day_canonical. unfold IsoDate.parse in Hp.
  destruct (_ && _ && _) in Hp; [|done].
  destruct (IsoDate.number 4 _ 0) as [y|] eqn:Hy; [|done].
  destruct (IsoDate.number 2 (take 2 _) 0) as [m|] eqn:Hm; [|done].
  destruct (IsoDate.number 2 (drop 8 _) 0) as [d|] eqn:Hd; [|done].
  destruct (_ && _ && _ && _)%Z eqn:Hr in Hp; [|done].
  injection Hp as <-.
  apply number_range in Hy; [|lia]. 
  apply andb_prop in Hr as [[[H1 H2]%andb_prop H3]%andb_prop H4].
  apply Z.leb_le in H1, H2, H3, H4.
  pose proof (days_from_civil_range y m d) as Hrange.
  unfold four_digit_year. apply andb_true_intro.
  split; apply Z.leb_le; change (10 ^ Z.of_nat 4)%Z with 10000%Z in Hy; lia.
Qed.

End IsoDays.

(** ** The daily time series *)

Section TimeSeries.
Context {N : Number} {H : Host}.
Import JsString.

Lemma series_step_event mk dk gk sel (m : JsMap.t num) r :
  series_step mk dk gk sel m r
  = match day_reading mk dk gk sel r with
    | Some e => write_always m e
    | None => m
    end.
Proof.
  unfold series_step, day_reading.
  destruct (other_group gk sel r); [done|].
  destruct (get r dk); try done.
  destruct (Date_parse s); [|done].
  by destruct (coerceNumber (get r mk)).
Qed.

Lemma day_reading_Some mk dk gk sel r d v :
  day_reading mk dk gk sel r = Some (d, v) <->
  other_group gk sel r = false
  /\ exists ds t, get r dk = VString ds /\ Date_parse ds = Some t
       /\ d = toISODate t /\ coerceNumber (get r mk) = Some v.
Proof.
  unfold day_reading. split.
  - destruct (other_group gk sel r); [done|].
    destruct (get r dk) as [| | | |ds|]; try done.
    destruct (Date_parse ds) as [t|] eqn:Ht; [|done].
    destruct (coerceNumber (get r mk)) as [n|]; [|done].
    intros [= <- <-]. split; [done|]. by exists ds, t.
  - intros (-> & ds & t & -> & -> & -> & ->). done.
Qed.

Lemma timeSeries_eq mk dk gk sel rows :
  truthy mk = true -> truthy dk = true ->
  timeSeries (Some mk) (Some dk) gk sel rows
  = js_sort by_date
      (map (fun '(d, v) => {| date := d; pvalue := v |})
         (fold_left write_always (day_readings mk dk gk sel rows) JsMap.empty)).
Proof.
  intros Hmk Hdk. unfold timeSeries.
  rewrite (selected_truthy _ Hmk), (selected_truthy _ Hdk).
  unfold day_readings. rewrite <- fold_left_events.
  do 2 f_equal. apply fold_left_ext. intros m r. apply series_step_event.
Qed.

Lemma other_group_spec gk sel (r : AnyRecord) :
  other_group gk sel r = false <->
  forall k, selected gk = Some k -> sel <> "All" -> get r k = VString sel.
Proof.
  unfold other_group. destruct (selected gk) as [k|]; [|done].
  destruct (String.eqb_spec sel "All") as [->|Hne]; cbn [negb].
  - split; [|done]. by intros _ k' _ ?.
  - split.
    + intros Hg k' [= <-] _. destruct (get r k) as [| | | |g|]; try done.
      apply negb_false_iff, String.eqb_eq in Hg. by subst.
    + intros Hg. rewrite (Hg k eq_refl Hne). apply negb_false_iff, String.eqb_refl.
Qed.


End TimeSeries.

(** ** The latest-value ranking *)

Section Ranking.
Context {N : Number} {H : Host}.
Import JsString.
Implicit Types (evs : list (string * Latest num)) (m : JsMap.t (Latest num)).

Lemma is_latest_snoc_other evs g0 e0 g e :
  g <> g0 -> is_latest (evs ++ [(g0, e0)]) g e <-> is_latest evs g e.
Proof.
  intros Hne. split; intros (i & Hi & Hmax).
  - apply lookup_snoc_Some in Hi as [[Hlt Hi]|[_ Hi]]; [|by inversion Hi].
    exists i. split; [done|]. intros j e' Hj. apply (Hmax j e').
    apply lookup_snoc_Some. left. split; [by eapply lookup_lt_Some | done].
  - exists i. split.
    + apply lookup_snoc_Some. left. split; [by eapply lookup_lt_Some | done].
    + intros j e' Hj. apply lookup_snoc_Some in Hj as [[_ Hj]|[_ Hj]].
      * by apply (Hmax j e').
      * by inversion Hj.
Qed.

Lemma is_latest_snoc_new evs g0 e0 :
  (forall j e', evs !! j = Some (g0, e') -> (dateMs e' <= dateMs e0)%Z) ->
  is_latest (evs ++ [(g0, e0)]) g0 e0.
Proof.
  intros Hle. exists (length evs). split; [apply lookup_snoc_Some; by right|].
  intros j e' Hj. apply lookup_snoc_Some in Hj as [[Hlt Hj]|[-> Hj]].
  - specialize (Hle j e' Hj). lia.
  - inversion Hj. right. done.
Qed.

Lemma is_latest_snoc_keep evs g0 e0 prev :
  is_latest evs g0 prev -> (dateMs e0 < dateMs prev)%Z ->
  is_latest (evs ++ [(g0, e0)]) g0 prev.
Proof.
  intros (i & Hi & Hmax) Hlt. exists i. split.
  - apply lookup_snoc_Some. left. split; [by eapply lookup_lt_Some | done].
  - intros j e' Hj. apply lookup_snoc_Some in Hj as [[_ Hj]|[_ Hj]].
    + by apply (Hmax j e').
    + inversion Hj; subst. by left.
Qed.

Lemma is_latest_snoc_inv evs g0 e0 e :
  is_latest (evs ++ [(g0, e0)]) g0 e ->
  (e = e0 /\ forall j e', evs !! j = Some (g0, e') -> (dateMs e' <= dateMs e0)%Z)
  \/ (is_latest evs g0 e /\ (dateMs e0 < dateMs e)%Z).
Proof.
  intros (i & Hi & Hmax).
  apply lookup_snoc_Some in Hi as [[Hlt Hi]|[-> Hi]].
  - right. split.
    + exists i. split; [done|]. intros j e' Hj. apply (Hmax j e').
      apply lookup_snoc_Some. left. split; [by eapply lookup_lt_Some | done].
    + destruct (Hmax (length evs) e0) as [?|[_ ?]]; [|done|lia].
      apply lookup_snoc_Some. by right.
  - left. inversion Hi; subst. split; [done|]. intros j e' Hj.
    destruct (Hmax j e') as [?|[? _]]; [|lia..].
    apply lookup_snoc_Some. left. split; [by eapply lookup_lt_Some | done].
Qed.

Lemma is_latest_elem_of evs g e : is_latest evs g e -> (g, e) ∈ evs.
Proof. intros (i & Hi & _). by eapply list_elem_of_lookup_2. Qed.

(** The map of [chartData] holds, for each group, its latest event. *)
Lemma write_latest_spec evs :
  let m := fold_left write_latest evs JsMap.empty in
  NoDup (JsMap.keys m)
  /\ (forall g, JsMap.get g m = None <-> g ∉ map fst evs)
  /\ forall g e, JsMap.get g m = Some e <-> is_latest evs g e.
Proof.
  induction evs as [|[g0 e0] evs IH] using rev_ind.
  - split_and!; [constructor | |].
    + intros g. split; [intros _; apply not_elem_of_nil | done].
    + intros g e. split; [done|]. by intros (i & Hi & _).
  - cbv zeta in *. rewrite fold_left_app. cbn [fold_left].
    destruct IH as (Hnd & Hkeys & IH).
    set (m := fold_left write_latest evs JsMap.empty) in *.
    assert (forall g, g ∉ map fst (evs ++ [(g0, e0)]) <-> g <> g0 /\ g ∉ map fst evs)
      as Hsnoc.
    { intros g. rewrite map_app, not_elem_of_app. cbn.
      rewrite list_elem_of_singleton. tauto. }
    unfold write_latest. cbn [fst snd].
    destruct (JsMap.get g0 m) as [prev|] eqn:E.
    + pose proof (proj1 (IH g0 prev) E) as Hprev.
      assert (g0 ∈ map fst evs) as Hin.
      { apply is_latest_elem_of in Hprev.
        by apply (list_elem_of_fmap_2 fst) in Hprev. }
      destruct (dateMs prev <=? dateMs e0)%Z eqn:Hle.
      * apply Z.leb_le in Hle. split_and!; [by apply NoDup_keys_set | |].
        -- intros g. rewrite Hsnoc. destruct (decide (g0 = g)) as [->|Hne].
           ++ rewrite get_set_eq. split; [done | tauto].
           ++ rewrite (get_set_ne _ _ _ _ Hne), Hkeys. split; [|tauto].
              intros ?. split; [congruence | done].
        -- intros g e. destruct (decide (g0 = g)) as [->|Hne].
           ++ rewrite get_set_eq. split.
              ** intros [= ->]. apply is_latest_snoc_new. intros j e' Hj.
                 destruct Hprev as (i & _ & Hmax).
                 destruct (Hmax j e' Hj) as [?|[? _]]; lia.
              ** intros Hl. apply is_latest_snoc_inv in Hl as [[-> _]|[Hl Hlt]];
                   [done|].
                 apply IH in Hl. rewrite E in Hl. inversion Hl; subst. lia.
           ++ rewrite (get_set_ne _ _ _ _ Hne), IH.
              symmetry. apply is_latest_snoc_other. congruence.
      * apply Z.leb_gt in Hle. split_and!; [done | |].
        -- intros g. rewrite Hsnoc, Hkeys. split; [|tauto].
           intros Hg. split; [|done]. by intros ->.
        -- intros g e. destruct (decide (g0 = g)) as [<-|Hne].
           ++ rewrite E. split.
              ** intros [= <-]. by apply is_latest_snoc_keep.
              ** intros Hl. apply is_latest_snoc_inv in Hl as [[-> Hall]|[Hl _]].
                 --- destruct Hprev as (i & Hi & _).
                     specialize (Hall i prev Hi). lia.
                 --- apply IH in Hl. congruence.
           ++ rewrite IH. symmetry. apply is_latest_snoc_other. congruence.
    + pose proof (proj1 (Hkeys g0) E) as Hnot.
      split_and!; [by apply NoDup_keys_set | |].
      * intros g. rewrite Hsnoc. destruct (decide (g0 = g)) as [->|Hne].
        -- rewrite get_set_eq. split; [done | tauto].
        -- rewrite (get_set_ne _ _ _ _ Hne), Hkeys. split; [|tauto].
           intros ?. split; [congruence | done].
      * intros g e. destruct (decide (g0 = g)) as [->|Hne].
        -- rewrite get_set_eq. split.
           ++ intros [= ->]. apply is_latest_snoc_new. intros j e' Hj.
              exfalso. apply Hnot. apply list_elem_of_lookup_2 in Hj.
              by apply (list_elem_of_fmap_2 fst) in Hj.
           ++ intros Hl. apply is_latest_snoc_inv in Hl as [[-> _]|[Hl _]]; [done|].
              exfalso. apply Hnot. apply is_latest_elem_of in Hl.
              by apply (list_elem_of_fmap_2 fst) in Hl.
        -- rewrite (get_set_ne _ _ _ _ Hne), IH.
           symmetry. apply is_latest_snoc_other. congruence.
Qed.

End Ranking.

Section RankingBars.
Context {N : Number} {H : Host}.
Import JsString.

Lemma chart_step_events gk mk dk nk st r :
  chart_step gk mk dk nk st r
  = (match ranked_reading gk mk dk r with
     | Some e => write_latest st.1 e
     | None => st.1
     end,
     match naming gk mk nk r with
     | Some e => write_once st.2 e
     | None => st.2
     end).
Proof.
  destruct st as [latest names]. unfold chart_step, naming, ranked_reading.
  cbn [fst snd].
  destruct (get r gk) as [| | | |g|]; try done.
  destruct (truthy (trim g)); [|done]. cbn [negb].
  destruct (coerceNumber (get r mk)) as [n|]; [|done].
  f_equal. destruct (selected nk) as [k|]; [|done].
  destruct (get r k) as [| | | |nm|]; try done.
  destruct (truthy (trim nm)); [|done].
  unfold write_once. simpl. by destruct (JsMap.has g names).
Qed.

Lemma fold_left_pair {A B R} (f : A -> R -> A) (g : B -> R -> B)
    (rows : list R) (a : A) (b : B) :
  fold_left (fun st r => (f st.1 r, g st.2 r)) rows (a, b)
  = (fold_left f rows a, fold_left g rows b).
Proof.
  revert a b. induction rows as [|r rows IH]; intros a b; [done|].
  cbn [fold_left fst snd]. apply IH.
Qed.

Lemma chart_loop_events gk mk dk nk rows :
  chart_loop gk mk dk nk rows
  = (fold_left write_latest (ranked_readings gk mk dk rows) JsMap.empty,
     fold_left write_once (namings gk mk nk rows) JsMap.empty).
Proof.
  unfold chart_loop, ranked_readings, namings.
  rewrite <- !fold_left_events, <- fold_left_pair.
  apply fold_left_ext. intros st r. apply chart_step_events.
Qed.

Lemma ranked_reading_Some gk mk dk r g e :
  ranked_reading gk mk dk r = Some (g, e) <->
  get r gk = VString g /\ truthy (trim g) = true
  /\ coerceNumber (get r mk) = Some (latest_value e)
  /\ dateMs e = recency dk r.
Proof.
  unfold ranked_reading. split.
  - destruct (get r gk) as [| | | |g'|]; try done.
    destruct (truthy (trim g')) eqn:Hg; [|done].
    destruct (coerceNumber (get r mk)) as [n|]; [|done].
    by intros [= <- <-].
  - intros (-> & -> & -> & Ht). destruct e as [t n]. cbn in *. by subst.
Qed.

Lemma naming_Some gk mk nk r g nm :
  naming gk mk nk r = Some (g, nm) <->
  get r gk = VString g /\ truthy (trim g) = true
  /\ is_Some (coerceNumber (get r mk))
  /\ exists k, selected nk = Some k /\ get r k = VString nm
       /\ truthy (trim nm) = true.
Proof.
  unfold naming, ranked_reading. split.
  - destruct (get r gk) as [| | | |g'|]; try done.
    destruct (truthy (trim g')) eqn:Hg; [|done].
    destruct (coerceNumber (get r mk)) as [n|]; [|done].
    destruct (selected nk) as [k|]; [|done].
    destruct (get r k) as [| | | |nm'|] eqn:Hk; try done.
    destruct (truthy (trim nm')) eqn:Hnm; [|done].
    intros [= <- <-]. split_and!; eauto.
  - intros (-> & -> & [n ->] & k & -> & -> & ->). done.
Qed.

Lemma chartData_eq gk mk dk nk rows :
  truthy gk = true -> truthy mk = true ->
  chartData (Some gk) (Some mk) dk nk rows
  = take 10
      (js_sort by_value_desc
         (map (fun ge : string * Latest num =>
                 {| label := label_of (chart_loop gk mk dk nk rows).2 ge.1;
                    value := latest_value ge.2 |})
              (chart_loop gk mk dk nk rows).1)).
Proof.
  intros Hgk Hmk. unfold chartData.
  rewrite (selected_truthy _ Hgk), (selected_truthy _ Hmk).
  unfold chart_bars, JsMap.entries. do 2 f_equal.
  apply map_ext. by intros [g e].
Qed.

Lemma desc_by_real_trans (a b c : Bar num) :
  desc_by_real a b -> desc_by_real b c -> desc_by_real a c.
Proof.
  intros (x & y & Hx & Hy & Hxy) (y' & z & Hy' & Hz & Hyz).
  rewrite Hy in Hy'. inversion Hy'; subst.
  exists x, z. split_and!; [done..|]. by eapply Qcle_trans.
Qed.

Lemma compares_by_real_spec vals a b :
  compares_by_real vals = true -> a ∈ vals -> b ∈ vals ->
  exists x y, real a = Some x /\ real b = Some y
    /\ (nlt (of_nat 0) (nsub b a) = true <-> (x < y)%Qc).
Proof.
  unfold compares_by_real. rewrite forallb_forall. intros Hall Ha Hb.
  apply list_elem_of_In, Hall in Ha. rewrite forallb_forall in Ha.
  apply list_elem_of_In, Ha in Hb. unfold agreesb in Hb.
  destruct (real a) as [x|]; [|done]. destruct (real b) as [y|]; [|done].
  exists x, y. split_and!; [done..|].
  apply Bool.eqb_prop in Hb. rewrite Hb. apply bool_decide_eq_true.
Qed.

(** With a comparator [b - a] that orders the values as numbers, the
    output is the first 10 of the groups' latest readings in descending
    order of value. *)
Lemma chartData_ranked gk mk dk nk rows :
  truthy gk = true -> truthy mk = true ->
  compares_by_real (metric_values mk rows) = true ->
  (forall r g e,
     ranked_reading gk mk dk r = Some (g, e) <->
     get r gk = VString g /\ truthy (trim g) = true
     /\ coerceNumber (get r mk) = Some (latest_value e)
     /\ dateMs e = recency dk r)
  /\ exists (groups : list (string * Latest num)) (sorted : list (Bar num)),
       NoDup (map fst groups)
       /\ (forall g e,
             (g, e) ∈ groups <-> is_latest (ranked_readings gk mk dk rows) g e)
       /\ map value sorted ≡ₚ map (fun ge => latest_value ge.2) groups
       /\ StronglySorted desc_by_real sorted
       /\ chartData (Some gk) (Some mk) dk nk rows = take 10 sorted
       /\ length (chartData (Some gk) (Some mk) dk nk rows) <= 10.
Proof.
  intros Hgk Hmk Hcmp. split; [intros r g e; apply ranked_reading_Some|].
  rewrite (chartData_eq _ _ _ _ _ Hgk Hmk), chart_loop_events. cbn [fst snd].
  destruct (write_latest_spec (ranked_readings gk mk dk rows))
    as (Hnd & _ & Hget).
  set (groups := fold_left write_latest (ranked_readings gk mk dk rows) JsMap.empty) in *.
  set (names := fold_left write_once (namings gk mk nk rows) JsMap.empty).
  set (bars := map (fun ge : string * Latest num =>
                      {| label := label_of names ge.1;
                         value := latest_value ge.2 |}) groups).
  assert (forall g e, (g, e) ∈ groups <->
            is_latest (ranked_readings gk mk dk rows) g e) as Hgroups.
  { intros g e. rewrite <- Hget. split; [by apply elem_of_get|].
    apply get_Some_elem_of. }
  exists groups, (js_sort by_value_desc bars). split_and!; [done..| | | |].
  - rewrite js_sort_perm. unfold bars. by rewrite map_map.
  - apply js_sort_sorted; [apply desc_by_real_trans|].
    assert (forall b, b ∈ bars -> value b ∈ metric_values mk rows) as Hvals.
    { intros b Hb. apply list_elem_of_fmap in Hb as ([g e] & -> & Hge).
      apply Hgroups, is_latest_elem_of in Hge. cbn [value snd].
      apply list_elem_of_omap in Hge as (r & Hr & Hrd).
      apply ranked_reading_Some in Hrd as (_ & _ & Hc & _).
      apply list_elem_of_omap. eauto. }
    intros a b Ha Hb.
    destruct (compares_by_real_spec _ _ _ Hcmp (Hvals a Ha) (Hvals b Hb))
      as (x & y & Hx & Hy & Hxy).
    unfold by_value_desc, desc_by_real. split.
    + intros Hafter. exists x, y. split_and!; [done..|].
      apply Qcnot_lt_le. intros Hlt. apply Hxy in Hlt. congruence.
    + intros Hafter. exists y, x. split_and!; [done..|].
      apply Qclt_le_weak. by apply Hxy.
  - done.
  - rewrite length_take. lia.
Qed.

(** C4 (amended). A row gives its group a display name when the ranking
    counts it (its group value is not blank and its metric value coerces)
    and, with a display-name column configured, its value there is a
    string that is not blank.  The label of a group's bar is the name of
    the first such row of the group, and the group key itself when the
    group has no such row. *)
Theorem chartData_labels gk mk dk nk rows :
  truthy gk = true -> truthy mk = true ->
  (forall r g nm,
     naming gk mk nk r = Some (g, nm) <->
     get r gk = VString g /\ truthy (trim g) = true
     /\ is_Some (coerceNumber (get r mk))
     /\ exists k, selected nk = Some k /\ get r k = VString nm
          /\ truthy (trim nm) = true)
  /\ exists (groups : list (string * Latest num)) (display : string -> string),
       (forall g e,
          (g, e) ∈ groups <-> is_latest (ranked_readings gk mk dk rows) g e)
       /\ chartData (Some gk) (Some mk) dk nk rows
          = take 10
              (js_sort by_value_desc
                 (map (fun ge : string * Latest num =>
                         {| label := display ge.1; value := latest_value ge.2 |})
                      groups))
       /\ (forall g nm, is_first (namings gk mk nk rows) g nm -> display g = nm)
       /\ (forall g, g ∉ map fst (namings gk mk nk rows) -> display g = g).
Proof.
  intros Hgk Hmk. split; [intros r g nm; apply naming_Some|].
  rewrite (chartData_eq _ _ _ _ _ Hgk Hmk), chart_loop_events. cbn [fst snd].
  destruct (write_latest_spec (ranked_readings gk mk dk rows))
    as (Hnd & _ & Hget).
  destruct (write_once_spec (namings gk mk nk rows)) as [Hnone Hfirst].
  cbv zeta in *.
  exists (fold_left write_latest (ranked_readings gk mk dk rows) JsMap.empty),
    (label_of (fold_left write_once (namings gk mk nk rows) JsMap.empty)).
  split_and!; [|done| |].
  - intros g e. rewrite <- Hget. split; [by apply elem_of_get|].
    apply get_Some_elem_of.
  - intros g nm Hnm. apply Hfirst in Hnm. unfold label_of. by rewrite Hnm.
  - intros g Hg. apply Hnone in Hg. unfold label_of. by rewrite Hg.
Qed.

End RankingBars.

(** ** The sign of a difference of doubles *)

Section Rounding.
Variables prec emax : Z.
Hypothesis prec_pos : (0 < prec)%Z.

Lemma digits2_pos_le (m : positive) :
  (2 ^ (Zpos (digits2_pos m) - 1) <= Zpos m)%Z.
Proof.
  induction m as [m IH|m IH|]; cbn [digits2_pos]; [| |done].
  - rewrite Pos2Z.inj_succ.
    replace (Z.succ (Zpos (digits2_pos m)) - 1)%Z
      with (Z.succ (Zpos (digits2_pos m) - 1))%Z by lia.
    rewrite Z.pow_succ_r by lia. lia.
  - rewrite Pos2Z.inj_succ.
    replace (Z.succ (Zpos (digits2_pos m)) - 1)%Z
      with (Z.succ (Zpos (digits2_pos m) - 1))%Z by lia.
    rewrite Z.pow_succ_r by lia. lia.
Qed.

Lemma shr_1_m (r : shr_record) :
  (0 <= shr_m r)%Z -> shr_m (shr_1 r) = (shr_m r / 2)%Z.
Proof.
  destruct r as [m r s]. cbn [shr_m]. intros Hm.
  destruct m as [|[p|p|]|p]; cbn [shr_1 shr_m]; try lia.
  - done.
  - rewrite (Pos2Z.inj_xI p). apply Z.div_unique with 1%Z; lia.
  - rewrite (Pos2Z.inj_xO p). apply Z.div_unique with 0%Z; lia.
  - done.
Qed.

Lemma iter_shr_m (p : positive) (r : shr_record) :
  (0 <= shr_m r)%Z ->
  shr_m (SpecFloat.iter_pos shr_1 p r) = (shr_m r / 2 ^ Zpos p)%Z.
Proof.
  revert r. induction p as [p IH|p IH|]; intros r Hr; cbn [SpecFloat.iter_pos].
  - assert (0 <= shr_m (shr_1 r))%Z as H1
      by (rewrite shr_1_m by done; apply Z.div_pos; lia).
    assert (0 <= shr_m (SpecFloat.iter_pos shr_1 p (shr_1 r)))%Z as H2
      by (rewrite IH by done; apply Z.div_pos; lia).
    rewrite IH, IH, shr_1_m by done.
    rewrite !Z.div_div by lia. f_equal.
    replace (Zpos p~1) with (1 + (Zpos p + Zpos p))%Z by lia.
    rewrite !Z.pow_add_r, Z.pow_1_r by lia. lia.
  - assert (0 <= shr_m (SpecFloat.iter_pos shr_1 p r))%Z as H2
      by (rewrite IH by done; apply Z.div_pos; lia).
    rewrite IH, IH by done. rewrite Z.div_div by lia. f_equal.
    replace (Zpos p~0) with (Zpos p + Zpos p)%Z by lia.
    rewrite Z.pow_add_r by lia. lia.
  - rewrite shr_1_m by done. by rewrite Z.pow_1_r.
Qed.

Lemma shr_record_of_loc_m m l : shr_m (shr_record_of_loc m l) = m.
Proof. by destruct l as [|[]]. Qed.

(** Shifting a positive mantissa to its format exponent leaves it
    positive when the exponent is no less than [emin]. *)
Lemma shr_fexp_pos (m e : Z) (l : location) :
  (0 < m)%Z -> (SpecFloat.emin prec emax <= e)%Z ->
  (0 < shr_m (shr_fexp prec emax m e l).1)%Z
  /\ (SpecFloat.emin prec emax <= (shr_fexp prec emax m e l).2)%Z.
Proof.
  intros Hm He. unfold shr_fexp, shr.
  destruct (SpecFloat.fexp prec emax (Zdigits2 m + e) - e)%Z as [|n|n] eqn:En;
    cbn [fst snd]; rewrite ?shr_record_of_loc_m; try done.
  destruct m as [|m|m]; try lia. cbn [Zdigits2] in En.
  unfold SpecFloat.fexp in En.
  assert (Zpos n = Zpos (digits2_pos m) - prec)%Z as Hn by lia.
  split; [|lia].
  rewrite iter_shr_m by (rewrite shr_record_of_loc_m; lia).
  rewrite shr_record_of_loc_m.
  pose proof (digits2_pos_le m) as Hd.
  assert (2 ^ Zpos n <= 2 ^ (Zpos (digits2_pos m) - 1))%Z as Hpow
    by (apply Z.pow_le_mono_r; lia).
  apply Z.div_str_pos. split; [apply Z.pow_pos_nonneg; lia | lia].
Qed.

Lemma round_nearest_even_ge mx l : (mx <= round_nearest_even mx l)%Z.
Proof.
  destruct l as [|[]]; cbn; try lia. destruct (Z.even mx); lia.
Qed.

Lemma binary_round_aux_pos sx (m e : Z) (l : location) :
  (0 < m)%Z -> (SpecFloat.emin prec emax <= e)%Z ->
  (exists m' e', binary_round_aux prec emax sx m e l = S754_finite sx m' e')
  \/ binary_round_aux prec emax sx m e l = S754_infinity sx.
Proof.
  intros Hm He. unfold binary_round_aux.
  destruct (shr_fexp_pos m e l Hm He) as [H1 H2].
  destruct (shr_fexp prec emax m e l) as [mrs' e']. cbn [fst snd] in H1, H2.
  pose proof (round_nearest_even_ge (shr_m mrs') (loc_of_shr_record mrs')) as Hr.
  destruct (shr_fexp_pos (round_nearest_even (shr_m mrs') (loc_of_shr_record mrs'))
              e' loc_Exact) as [H3 H4]; [lia | done |].
  destruct (shr_fexp prec emax _ e' loc_Exact) as [mrs'' e''].
  cbn [fst snd] in H3, H4.
  destruct (shr_m mrs'') as [|m''|m'']; try lia.
  destruct (e'' <=? emax - prec)%Z; eauto.
Qed.

Lemma binary_round_aux_sign sx (m e : Z) (l : location) :
  match binary_round_aux prec emax sx m e l with
  | S754_zero s | S754_infinity s | S754_finite s _ _ => s = sx
  | S754_nan => True
  end.
Proof.
  unfold binary_round_aux.
  destruct (shr_fexp prec emax m e l) as [mrs' e'].
  destruct (shr_fexp prec emax _ e' loc_Exact) as [mrs'' e''].
  destruct (shr_m mrs''); try done.
  by destruct (e'' <=? emax - prec)%Z.
Qed.

Lemma shl_align_exponent (m : positive) (e e' : Z) :
  (SpecFloat.emin prec emax <= e)%Z -> (SpecFloat.emin prec emax <= e')%Z ->
  (SpecFloat.emin prec emax <= (shl_align m e e').2)%Z.
Proof.
  intros He He'. unfold shl_align. by destruct (e' - e)%Z.
Qed.

Lemma binary_round_pos sx (m : positive) (e : Z) :
  (SpecFloat.emin prec emax <= e)%Z ->
  (exists m' e', binary_round prec emax sx m e = S754_finite sx m' e')
  \/ binary_round prec emax sx m e = S754_infinity sx.
Proof.
  intros He. unfold binary_round.
  pose proof (shl_align_exponent m e
                (SpecFloat.fexp prec emax (Zpos (digits2_pos m) + e)) He) as Hz.
  destruct (shl_align m e _) as [mz ez]. cbn [snd] in Hz.
  apply binary_round_aux_pos; [done|]. apply Hz.
  unfold SpecFloat.fexp. lia.
Qed.

Lemma binary_round_sign sx (m : positive) (e : Z) :
  match binary_round prec emax sx m e with
  | S754_zero s | S754_infinity s | S754_finite s _ _ => s = sx
  | S754_nan => True
  end.
Proof.
  unfold binary_round. destruct (shl_align m e _) as [mz ez].
  apply binary_round_aux_sign.
Qed.

(** The exponent of a valid finite number is no less than [emin]. *)
Lemma valid_exponent s m e :
  SpecFloat.valid_binary prec emax (S754_finite s m e) = true -> (SpecFloat.emin prec emax <= e)%Z.
Proof.
  cbn. unfold bounded, canonical_mantissa.
  intros [Hc _]%andb_prop. apply Z.eqb_eq in Hc.
  unfold SpecFloat.fexp in Hc. lia.
Qed.

Lemma iter_xO (m d : positive) :
  Zpos (Pos.iter xO m d) = (Zpos m * 2 ^ Zpos d)%Z.
Proof.
  induction d as [|d IH] using Pos.peano_ind.
  - cbn. lia.
  - rewrite Pos.iter_succ, Pos2Z.inj_xO, IH, Pos2Z.inj_succ.
    rewrite Z.pow_succ_r by lia. lia.
Qed.

Lemma shl_align_value (m : positive) (e e' : Z) :
  (e' <= e)%Z ->
  Zpos (shl_align m e e').1 = (Zpos m * 2 ^ (e - e'))%Z.
Proof.
  intros Hle. unfold shl_align.
  destruct (e' - e)%Z as [|d|d] eqn:Ed; cbn [fst]; try lia.
  - replace (e - e')%Z with 0%Z by lia. lia.
  - rewrite iter_xO. f_equal. f_equal. lia.
Qed.


Lemma Qscale (c e ez : Z) :
  (ez <= e)%Z ->
  inject_Z c * Qpower 2 e == inject_Z (c * 2 ^ (e - ez)) * Qpower 2 ez.
Proof.
  intros Hle. rewrite inject_Z_mult, Zpower_Qpower by lia.
  replace e with ((e - ez) + ez)%Z at 1 by lia.
  rewrite Qpower_plus by done. apply Qmult_assoc.
Qed.

Lemma cond_Zopp_mul s a b : (cond_Zopp s a * b = cond_Zopp s (a * b))%Z.
Proof. destruct s; cbn; lia. Qed.

Lemma Qscaled_pos (z : Z) (p : Q) :
  (0 < p)%Q -> (0 < inject_Z z * p)%Q <-> (0 < z)%Z.
Proof.
  intros Hp. rewrite Zlt_Qlt, <- (Qmult_lt_r (inject_Z 0) (inject_Z z) p Hp).
  assert (inject_Z 0 * p == 0)%Q as -> by apply Qmult_0_l. done.
Qed.

Lemma Qscaled_neg (z : Z) (p : Q) :
  (0 < p)%Q -> (inject_Z z * p < 0)%Q <-> (z < 0)%Z.
Proof.
  intros Hp. rewrite Zlt_Qlt, <- (Qmult_lt_r (inject_Z z) (inject_Z 0) p Hp).
  assert (inject_Z 0 * p == 0)%Q as -> by apply Qmult_0_l. done.
Qed.

Lemma SF_value_pos s m e :
  (0 < SF_value (S754_finite s m e))%Q <-> s = false.
Proof.
  cbn [SF_value]. rewrite Qscaled_pos by (by apply Qpower_0_lt).
  destruct s; cbn; split; done || lia.
Qed.

Lemma SF_value_neg s m e :
  (SF_value (S754_finite s m e) < 0)%Q <-> s = true.
Proof.
  cbn [SF_value]. rewrite Qscaled_neg by (by apply Qpower_0_lt).
  destruct s; cbn; split; done || lia.
Qed.

(** The difference of two finite numbers is above zero exactly when the
    values are in that order: rounding a difference never changes its
    sign, and only the difference of equal values is a zero. *)
Lemma SFsub_sign (x y : spec_float) :
  SpecFloat.valid_binary prec emax x = true ->
  SpecFloat.valid_binary prec emax y = true ->
  SF_finite x = true -> SF_finite y = true ->
  SFltb (S754_zero false) (SFsub prec emax y x) = true
  <-> (SF_value x < SF_value y)%Q.
Proof.
  intros Vx Vy Fx Fy.
  destruct x as [sx| | |sx mx ex], y as [sy| | |sy my ey]; try done.
  - cbn. destruct sx, sy; cbn; split; try done.
  - cbn [SFsub]. change (SF_value (S754_zero sx)) with 0%Q.
    rewrite SF_value_pos. unfold SFltb. cbn.
    destruct sy; split; done.
  - cbn [SFsub]. unfold SFltb. cbn [SFcompare].
    change (SF_value (S754_zero sy)) with 0%Q.
    rewrite SF_value_neg.
    destruct sx; split; done.
  - apply valid_exponent in Vx, Vy. cbn [SFsub].
    set (ez := Z.min ey ex).
    assert (ez <= ey)%Z as Hy by lia. assert (ez <= ex)%Z as Hx by lia.
    assert (SpecFloat.emin prec emax <= ez)%Z as Hez by lia.
    rewrite !shl_align_value by done.
    set (M := (cond_Zopp sy (Zpos my * 2 ^ (ey - ez))
               - cond_Zopp sx (Zpos mx * 2 ^ (ex - ez)))%Z).
    assert ((SF_value (S754_finite sx mx ex) < SF_value (S754_finite sy my ey))%Q
            <-> (0 < M)%Z) as ->.
    { cbn [SF_value].
      rewrite (Qscale _ ex ez), (Qscale _ ey ez) by done.
      rewrite !cond_Zopp_mul.
      rewrite Qmult_lt_r by (by apply Qpower_0_lt).
      rewrite <- Zlt_Qlt. subst M. lia. }
    clearbody M. unfold SFltb, binary_normalize.
    destruct M as [|M|M].
    + cbn. split; [done|lia].
    + destruct (binary_round_pos false M ez Hez) as [(m' & e' & ->)| ->];
        cbn; split; done || lia.
    + pose proof (binary_round_sign true M ez) as Hs.
      destruct (binary_round prec emax true M ez) as [s| s| |s ? ?];
        try subst s; cbn; split; done || lia.
Qed.

End Rounding.

(** ** Doubles *)

Lemma F64_finite_cases (a : float) :
  is_finite a = true -> SF_finite (Prim2SF a) = true.
Proof.
  unfold is_finite, is_nan, is_infinity.
  rewrite !FloatAxioms.eqb_spec, FloatAxioms.abs_spec.
  change (Prim2SF infinity) with (S754_infinity false).
  destruct (Prim2SF a) as [s|s| |s m e]; try done. by destruct s.
Qed.

Lemma F64_real_value (a : float) :
  SF_finite (Prim2SF a) = true ->
  F64.real a = Some (Q2Qc (SF_value (Prim2SF a))).
Proof.
  unfold F64.real. by destruct (Prim2SF a).
Qed.

Lemma Q2Qc_lt (p q : Q) : (Q2Qc p < Q2Qc q)%Qc <-> (p < q)%Q.
Proof.
  unfold Qclt. cbn [Q2Qc this]. by rewrite !Qred_correct.
Qed.

(** On finite doubles [b - a] is above zero exactly when [a] is less
    than [b]. *)
Lemma F64_sub_sign (a b : float) :
  is_finite a = true -> is_finite b = true ->
  exists x y, F64.real a = Some x /\ F64.real b = Some y
    /\ ((F64.of_Z 0 <? b - a)%float = true <-> (x < y)%Qc).
Proof.
  intros Ha%F64_finite_cases Hb%F64_finite_cases.
  eexists _, _. split; [by apply F64_real_value|].
  split; [by apply F64_real_value|].
  rewrite Q2Qc_lt, ltb_spec, sub_spec.
  change (Prim2SF (F64.of_Z 0)) with (S754_zero false).
  apply SFsub_sign; try done; apply Prim2SF_valid.
Qed.

Lemma F64_agrees (a b : float) :
  is_finite a = true -> is_finite b = true ->
  @agreesb Float64 a b = true.
Proof.
  intros Ha Hb. destruct (F64_sub_sign a b Ha Hb) as (x & y & Hx & Hy & Hlt).
  unfold agreesb. cbn [real Float64 nlt nsub of_nat].
  rewrite Hx, Hy. change (Z.of_nat 0) with 0%Z.
  destruct (F64.of_Z 0 <? b - a)%float eqn:E.
  - rewrite bool_decide_eq_true_2; [done|]. by apply Hlt.
  - rewrite bool_decide_eq_false_2; [done|]. intros Hn. apply Hlt in Hn. done.
Qed.

Lemma F64_compares_by_real (vals : list float) :
  Forall (fun v => is_finite v = true) vals ->
  @compares_by_real Float64 vals = true.
Proof.
  intros Hfin. unfold compares_by_real.
  apply forallb_forall. intros a Ha. apply forallb_forall. intros b Hb.
  rewrite Forall_forall in Hfin.
  apply F64_agrees; apply Hfin; by apply list_elem_of_In.
Qed.

(** ** The ranking on doubles *)

Section RankingStamp.
Context {N : Number} {H : Host}.
Import JsString.

(** The time stamp of a row is its parsed date; it is 0 when no date
    column is selected, when the value there is not a string and when the
    string does not parse. *)
Lemma recency_spec (dk : option string) (r : AnyRecord) (t : Z) :
  t = recency dk r <->
  (exists k ds, selected dk = Some k /\ get r k = VString ds
     /\ Date_parse ds = Some t)
  \/ (t = 0%Z
      /\ forall k ds, selected dk = Some k -> get r k = VString ds ->
           Date_parse ds = None).
Proof.
  unfold recency. split.
  - intros ->. destruct (selected dk) as [k|] eqn:Hk; [|right; by split].
    destruct (get r k) as [| | | |ds|] eqn:Hget;
      try (right; split; [done|]; intros k' ds' [= <-]; congruence).
    destruct (Date_parse ds) as [ms|] eqn:Hp.
    + left. by exists k, ds.
    + right. split; [done|]. intros k' ds' [= <-]. congruence.
  - intros [(k & ds & -> & -> & ->)|[-> Hnone]]; [done|].
    destruct (selected dk) as [k|]; [|done].
    destruct (get r k) as [| | | |ds|] eqn:Hget; try done.
    by rewrite (Hnone k ds eq_refl Hget).
Qed.

End RankingStamp.

Section RankingOnDoubles.
#[local] Existing Instance Float64.
Context {H : Host}.
Import JsString.

Lemma metric_values_finite mk (rows : list AnyRecord) :
  Forall (fun v => is_finite v = true) (metric_values mk rows).
Proof.
  apply Forall_forall. intros v Hv.
  apply list_elem_of_omap in Hv as (r & _ & Hc).
  exact (coerceNumber_finite _ _ Hc).
Qed.

(** C1 (amended). With a group and a metric column selected, the ranking
    counts exactly the rows whose group value is a string that is not
    empty once trimmed and whose metric value coerces to a number; the
    time stamp of a row is its parsed date, and 0 when there is no date
    column, the value there is no string or the string does not parse.
    Per group it keeps the reading with the greatest time stamp, the
    later row at equal time stamps.  The output is the first 10 of the
    groups' readings in descending order of value. *)
Theorem chartData_latest_ranking gk mk dk nk (rows : list AnyRecord) :
  truthy gk = true -> truthy mk = true ->
  (forall r g e,
     ranked_reading gk mk dk r = Some (g, e) <->
     get r gk = VString g /\ truthy (trim g) = true
     /\ coerceNumber (get r mk) = Some (latest_value e)
     /\ ((exists k ds, selected dk = Some k /\ get r k = VString ds
            /\ Date_parse ds = Some (dateMs e))
         \/ (dateMs e = 0%Z
             /\ forall k ds, selected dk = Some k -> get r k = VString ds ->
                  Date_parse ds = None)))
  /\ exists (groups : list (string * Latest float)) (sorted : list (Bar float)),
       NoDup (map fst groups)
       /\ (forall g e,
             (g, e) ∈ groups <-> is_latest (ranked_readings gk mk dk rows) g e)
       /\ map value sorted ≡ₚ map (fun ge => latest_value ge.2) groups
       /\ StronglySorted desc_by_real sorted
       /\ chartData (Some gk) (Some mk) dk nk rows = take 10 sorted
       /\ length (chartData (Some gk) (Some mk) dk nk rows) <= 10.
Proof.
  intros Hgk Hmk. split.
  - intros r g e. rewrite ranked_reading_Some, recency_spec. done.
  - apply (chartData_ranked gk mk dk nk rows Hgk Hmk).
    apply F64_compares_by_real, metric_values_finite.
Qed.

End RankingOnDoubles.


(** ** Exact arithmetic *)

Section ExactFacts.

Lemma Qfloor_Qc_of_Z (z : Z) : Qfloor (Qc_of_Z z) = z.
Proof.
  unfold Qc_of_Z. cbn [this Q2Qc].
  rewrite (Qfloor_comp _ _ (Qred_correct (inject_Z z))). apply Qfloor_Z.
Qed.

End ExactFacts.

(** ** The histogram *)

Section Histogram.
Context {N : Number}.
Import JsString.

Lemma count_at_lookup (counts : list nat) (idx : num) (k : nat) :
  count_at counts idx !! k
  = (fun n => n + (if match to_index idx with
                      | Some j => j =? k
                      | None => false
                      end then 1 else 0)) <$> counts !! k.
Proof.
  unfold count_at. destruct (to_index idx) as [j|].
  - destruct (Nat.eqb_spec j k) as [->|Hne].
    + rewrite list_lookup_alter_eq.
      destruct (counts !! k); simpl; f_equal; lia.
    + rewrite list_lookup_alter_ne by done.
      destruct (counts !! k); simpl; f_equal; lia.
  - destruct (counts !! k); simpl; f_equal; lia.
Qed.

(** Counter [k] grows by the number of values whose index is [k]. *)
Lemma counts_lookup (idx : num -> num) (values : list num)
    (counts : list nat) (k : nat) :
  fold_left (fun counts v => count_at counts (idx v)) values counts !! k
  = (fun n => n + length (List.filter
                            (fun v => match to_index (idx v) with
                                      | Some j => j =? k
                                      | None => false
                                      end) values)) <$> counts !! k.
Proof.
  revert counts. induction values as [|v values IH]; intros counts.
  - cbn. destruct (counts !! k); simpl; f_equal; lia.
  - cbn [fold_left List.filter]. rewrite IH, count_at_lookup.
    destruct (counts !! k) as [n|]; [|done]. cbn. f_equal.
    destruct (match to_index (idx v) with Some j => j =? k | None => false end);
      cbn; lia.
Qed.

Lemma counts_length (idx : num -> num) (values : list num) (counts : list nat) :
  length (fold_left (fun counts v => count_at counts (idx v)) values counts)
  = length counts.
Proof.
  revert counts. induction values as [|v values IH]; intros counts; [done|].
  cbn [fold_left]. rewrite IH. unfold count_at.
  destruct (to_index (idx v)); [apply length_alter | done].
Qed.

Lemma counts_eq (min step : num) (values : list num) :
  fold_left (fun counts v => count_at counts (bin_index min step v)) values
    (replicate bins 0)
  = map (fun k => length (List.filter (fun v => lands_in min step v k) values))
      (seq 0 bins).
Proof.
  apply list_eq. intros k. rewrite counts_lookup, list_lookup_fmap.
  destruct (decide (k < bins)) as [Hk|Hk].
  - rewrite lookup_replicate_2, lookup_seq_lt by done. done.
  - rewrite (proj1 (lookup_replicate_None bins 0 k)), lookup_seq_ge by lia. done.
Qed.

Lemma histogram_eq mk rows v0 vs :
  truthy mk = true -> metric_values mk rows = v0 :: vs ->
  histogram (Some mk) rows
  = imap (fun i c =>
            {| bin_start := nadd (min_of v0 vs)
                              (nmul (of_nat i) (bin_step (min_of v0 vs) (max_of v0 vs)));
               bin_end := nadd (nadd (min_of v0 vs)
                                  (nmul (of_nat i)
                                     (bin_step (min_of v0 vs) (max_of v0 vs))))
                               (bin_step (min_of v0 vs) (max_of v0 vs));
               bin_count := c |})
      (map (fun k =>
              length (List.filter
                        (fun v => lands_in (min_of v0 vs)
                                    (bin_step (min_of v0 vs) (max_of v0 vs)) v k)
                        (v0 :: vs)))
           (seq 0 bins)).
Proof.
  intros Hmk Hvals. unfold histogram.
  rewrite (selected_truthy _ Hmk), Hvals. cbv zeta. by rewrite counts_eq.
Qed.

Lemma sum_list_indicator (j s n : nat) :
  sum_list (map (fun k => if j =? k then 1 else 0) (seq s n))
  = if (s <=? j) && (j <? s + n) then 1 else 0.
Proof.
  revert s. induction n as [|n IH]; intros s.
  - change (seq s 0) with (@nil nat). cbn [map sum_list].
    destruct (Nat.leb_spec s j), (Nat.ltb_spec j (s + 0)); cbn; lia.
  - cbn [seq map sum_list]. rewrite IH.
    destruct (Nat.eqb_spec j s), (Nat.leb_spec s j),
      (Nat.ltb_spec j (s + S n)), (Nat.leb_spec (S s) j),
      (Nat.ltb_spec j (S s + n)); cbn; lia.
Qed.

(** The counters add up to the number of values that have a bucket. *)
Lemma counts_total (idx : num -> option nat) (values : list num) (n : nat) :
  sum_list (map (fun k => length (List.filter
                                    (fun v => match idx v with
                                              | Some j => j =? k
                                              | None => false
                                              end) values))
              (seq 0 n))
  = length (List.filter (fun v => match idx v with
                                  | Some j => j <? n
                                  | None => false
                                  end) values).
Proof.
  induction values as [|v values IH].
  - cbn. induction (seq 0 n) as [|k l IHl]; [done|]. cbn. by rewrite IHl.
  - assert (forall l : list nat,
              sum_list (map (fun k => length (List.filter
                                                (fun v => match idx v with
                                                          | Some j => j =? k
                                                          | None => false
                                                          end) (v :: values))) l)
              = sum_list (map (fun k => match idx v with
                                        | Some j => if j =? k then 1 else 0
                                        | None => 0
                                        end) l)
                + sum_list (map (fun k => length (List.filter
                                                    (fun v => match idx v with
                                                              | Some j => j =? k
                                                              | None => false
                                                              end) values)) l))
      as Hsplit.
    { induction l as [|k l IHl]; [done|].
      cbn [map sum_list]. rewrite IHl. cbn [List.filter].
      destruct (idx v) as [j|]; [|unfold id; lia].
      destruct (j =? k); cbn [length]; unfold id; lia. }
    rewrite Hsplit, IH. cbn [List.filter]. destruct (idx v) as [j|].
    + rewrite sum_list_indicator.
      destruct (Nat.leb_spec 0 j), (Nat.ltb_spec j (0 + n)), (Nat.ltb_spec j n);
        cbn; lia.
    + assert (forall l : list nat, sum_list (map (fun _ => 0) l) = 0) as ->.
      { induction l as [|k l IHl]; [done|]. cbn. by rewrite IHl. }
      done.
Qed.

End Histogram.

Section HistogramExact.
Context {N : Number}.
Import JsString.

Lemma Qc_of_Z_lt (a b : Z) : (Qc_of_Z a < Qc_of_Z b)%Qc <-> (a < b)%Z.
Proof.
  unfold Qclt, Qc_of_Z. cbn [this Q2Qc].
  rewrite !Qred_correct. by rewrite Zlt_Qlt.
Qed.

Lemma qmax_Z (a b : Z) :
  Exact.qmax (Qc_of_Z a) (Qc_of_Z b) = Qc_of_Z (Z.max a b).
Proof.
  unfold Exact.qmax. destruct (decide (Qc_of_Z a < Qc_of_Z b)%Qc) as [Hlt|Hge].
  - apply (proj1 (Qc_of_Z_lt a b)) in Hlt. by rewrite Z.max_r by lia.
  - rewrite Qc_of_Z_lt in Hge. by rewrite Z.max_l by lia.
Qed.

Lemma qmin_Z (a b : Z) :
  Exact.qmin (Qc_of_Z a) (Qc_of_Z b) = Qc_of_Z (Z.min a b).
Proof.
  unfold Exact.qmin. destruct (decide (Qc_of_Z a < Qc_of_Z b)%Qc) as [Hlt|Hge].
  - apply (proj1 (Qc_of_Z_lt a b)) in Hlt. by rewrite Z.min_l by lia.
  - rewrite Qc_of_Z_lt in Hge. by rewrite Z.min_r by lia.
Qed.

Lemma qmin_le (x y : Qc) : (Exact.qmin x y <= x)%Qc /\ (Exact.qmin x y <= y)%Qc.
Proof.
  unfold Exact.qmin. destruct (decide (x < y)%Qc) as [Hlt|Hge].
  - split; [apply Qcle_refl | by apply Qclt_le_weak].
  - split; [by apply Qcnot_lt_le | apply Qcle_refl].
Qed.

Lemma qmax_ge (x y : Qc) : (x <= Exact.qmax x y)%Qc /\ (y <= Exact.qmax x y)%Qc.
Proof.
  unfold Exact.qmax. destruct (decide (x < y)%Qc) as [Hlt|Hge].
  - split; [by apply Qclt_le_weak | apply Qcle_refl].
  - split; [apply Qcle_refl | by apply Qcnot_lt_le].
Qed.

Lemma exactb_reals op qop (a b : num) :
  exactb op qop a b = true -> is_Some (real a) /\ is_Some (real b).
Proof.
  unfold exactb. destruct (real a); [|done]. destruct (real b); [|done].
  eauto.
Qed.

Lemma fold_exact_reals op qop vs (v0 : num) :
  fold_exact op qop vs v0 = true -> exists xs, reals_of vs xs.
Proof.
  revert v0. induction vs as [|v vs IH]; intros v0.
  - exists []. constructor.
  - cbn. intros [Hex Hrest]%andb_prop.
    destruct (exactb_reals _ _ _ _ Hex) as [_ [x Hx]].
    destruct (IH _ Hrest) as [xs Hxs]. exists (x :: xs). by constructor.
Qed.

Lemma min_of_exact v0 vs x0 xs :
  real v0 = Some x0 -> reals_of vs xs ->
  fold_exact nmin Exact.qmin vs v0 = true ->
  exists lo, real (min_of v0 vs) = Some lo /\ lo ∈ x0 :: xs
    /\ forall x, x ∈ x0 :: xs -> (lo <= x)%Qc.
Proof.
  intros Hx0 Hxs. revert v0 x0 Hx0.
  induction Hxs as [|v1 x1 vs xs Hx1 _ IH]; intros v0 x0 Hx0 Hex.
  - exists x0. split_and!; [done | apply list_elem_of_here |].
    intros x Hx. apply list_elem_of_singleton in Hx as ->. apply Qcle_refl.
  - cbn in Hex. apply andb_prop in Hex as [Hex Hrest].
    destruct (IH (nmin v0 v1) _ (exactb_true _ _ _ _ _ _ Hex Hx0 Hx1) Hrest)
      as (lo & Hlo & Hin & Hle).
    exists lo. split_and!; [done | |].
    + apply elem_of_cons in Hin as [->|Hin].
      * unfold Exact.qmin. destruct (decide (x0 < x1)%Qc).
        -- apply list_elem_of_here.
        -- apply list_elem_of_further, list_elem_of_here.
      * by do 2 apply list_elem_of_further.
    + intros x Hx. pose proof (Hle _ (list_elem_of_here _ _)) as Hq.
      destruct (qmin_le x0 x1) as [H0 H1].
      apply elem_of_cons in Hx as [->|Hx]; [by eapply Qcle_trans|].
      apply elem_of_cons in Hx as [->|Hx]; [by eapply Qcle_trans|].
      apply Hle. by apply list_elem_of_further.
Qed.

Lemma max_of_exact v0 vs x0 xs :
  real v0 = Some x0 -> reals_of vs xs ->
  fold_exact nmax Exact.qmax vs v0 = true ->
  exists hi, real (max_of v0 vs) = Some hi /\ hi ∈ x0 :: xs
    /\ forall x, x ∈ x0 :: xs -> (x <= hi)%Qc.
Proof.
  intros Hx0 Hxs. revert v0 x0 Hx0.
  induction Hxs as [|v1 x1 vs xs Hx1 _ IH]; intros v0 x0 Hx0 Hex.
  - exists x0. split_and!; [done | apply list_elem_of_here |].
    intros x Hx. apply list_elem_of_singleton in Hx as ->. apply Qcle_refl.
  - cbn in Hex. apply andb_prop in Hex as [Hex Hrest].
    destruct (IH (nmax v0 v1) _ (exactb_true _ _ _ _ _ _ Hex Hx0 Hx1) Hrest)
      as (hi & Hhi & Hin & Hle).
    exists hi. split_and!; [done | |].
    + apply elem_of_cons in Hin as [->|Hin].
      * unfold Exact.qmax. destruct (decide (x0 < x1)%Qc).
        -- apply list_elem_of_further, list_elem_of_here.
        -- apply list_elem_of_here.
      * by do 2 apply list_elem_of_further.
    + intros x Hx. pose proof (Hle _ (list_elem_of_here _ _)) as Hq.
      destruct (qmax_ge x0 x1) as [H0 H1].
      apply elem_of_cons in Hx as [->|Hx]; [by eapply Qcle_trans|].
      apply elem_of_cons in Hx as [->|Hx]; [by eapply Qcle_trans|].
      apply Hle. by apply list_elem_of_further.
Qed.

Lemma Qc_of_Z_bins_nonzero : Qc_of_Z (Z.of_nat bins) <> 0%Qc.
Proof. intros Heq. by apply (f_equal (fun q : Qc => Qnum q)) in Heq. Qed.

Lemma width_nonzero lo hi : width lo hi <> 0%Qc.
Proof.
  unfold width. destruct (decide (hi = lo)) as [|Hne]; [done|].
  intros Hz. apply Hne.
  assert (hi - lo = (hi - lo) / Qc_of_Z (Z.of_nat bins) * Qc_of_Z (Z.of_nat bins))%Qc
    as Heq by (field; apply Qc_of_Z_bins_nonzero).
  rewrite Hz in Heq.
  assert (hi = hi - lo + lo)%Qc as -> by ring. rewrite Heq. ring.
Qed.

Lemma nat_exact_real k :
  nat_exact k = true -> real (of_nat k) = Some (Qc_of_Z (Z.of_nat k)).
Proof. apply bool_decide_eq_true. Qed.

Lemma exact_at_true f qf (a : num) x :
  exact_at f qf a = true -> real a = Some x -> real (f a) = Some (qf x).
Proof.
  unfold exact_at. intros Hex Ha. rewrite Ha in Hex.
  destruct (real (f a)) as [z|]; [|done].
  by apply bool_decide_eq_true in Hex as ->.
Qed.

Lemma bin_step_exact min max lo hi :
  real min = Some lo -> real max = Some hi ->
  nat_exact 1 = true -> nat_exact bins = true ->
  exactb nsub Qcminus max min = true ->
  exactb ndiv Qcdiv (nsub max min) (of_nat bins) = true ->
  match real (ndiv (nsub max min) (of_nat bins)) with
  | Some q =>
      Bool.eqb (falsy (ndiv (nsub max min) (of_nat bins)))
        (bool_decide (q = 0%Qc))
  | None => false
  end = true ->
  real (bin_step min max) = Some (width lo hi).
Proof.
  intros Hlo Hhi H1 H20 Hsub Hdiv Hfalsy. unfold bin_step.
  pose proof (exactb_true _ _ _ _ _ _ Hdiv
                (exactb_true _ _ _ _ _ _ Hsub Hhi Hlo)
                (nat_exact_real _ H20)) as Hs.
  rewrite Hs in Hfalsy. apply Bool.eqb_prop in Hfalsy. rewrite Hfalsy.
  unfold width. destruct (decide (hi = lo)) as [->|Hne].
  - rewrite bool_decide_eq_true_2; [apply (nat_exact_real 1 H1)|].
    field. apply Qc_of_Z_bins_nonzero.
  - rewrite bool_decide_eq_false_2; [done|].
    intros Hz. apply (width_nonzero lo hi). unfold width.
    by destruct (decide (hi = lo)).
Qed.

Lemma bin_index_exact min step v lo w x :
  real min = Some lo -> real step = Some w -> real v = Some x ->
  nat_exact 0 = true -> nat_exact (bins - 1) = true ->
  index_exact min step v = true ->
  to_index (bin_index min step v) = Some (bucket_of lo w x).
Proof.
  intros Hlo Hw Hx H0 H19. unfold index_exact. cbv zeta.
  intros [[[[[Hsub Hdiv]%andb_prop Hfloor]%andb_prop Hmax]%andb_prop
             Hmin]%andb_prop Hidx]%andb_prop.
  pose proof (exactb_true _ _ _ _ _ _ Hsub Hx Hlo) as Hd.
  pose proof (exactb_true _ _ _ _ _ _ Hdiv Hd Hw) as Hq.
  pose proof (exact_at_true _ _ _ _ Hfloor Hq) as Hf.
  pose proof (exactb_true _ _ _ _ _ _ Hmax (nat_exact_real _ H0) Hf) as Ha.
  pose proof (exactb_true _ _ _ _ _ _ Hmin (nat_exact_real _ H19) Ha) as Hb.
  rewrite Hb in Hidx. apply bool_decide_eq_true in Hidx.
  unfold bin_index. rewrite Hidx. f_equal.
  rewrite qmax_Z, qmin_Z, Qfloor_Qc_of_Z. done.
Qed.

Lemma bucket_of_max lo hi :
  bucket_of lo (width lo hi) hi = if decide (hi = lo) then 0 else 19.
Proof.
  unfold bucket_of, width. destruct (decide (hi = lo)) as [->|Hne].
  - assert ((lo - lo) / 1 = Qc_of_Z 0)%Qc as ->
      by (change (Qc_of_Z 0) with 0%Qc; field; done).
    by rewrite Qfloor_Qc_of_Z.
  - assert ((hi - lo) / ((hi - lo) / Qc_of_Z (Z.of_nat bins))
            = Qc_of_Z (Z.of_nat bins))%Qc as ->.
    { field. split; [apply Qc_of_Z_bins_nonzero|].
      intros Hz. apply Hne. assert (hi = hi - lo + lo)%Qc as -> by ring.
      rewrite Hz. ring. }
    by rewrite Qfloor_Qc_of_Z.
Qed.

Lemma filter_reals (p : num -> bool) (q : Qc -> bool) vals xs :
  reals_of vals xs ->
  (forall i v x, vals !! i = Some v -> xs !! i = Some x -> p v = q x) ->
  length (List.filter p vals) = length (List.filter q xs).
Proof.
  intros Hxs. induction Hxs as [|v x vals xs Hx _ IH]; intros Hpq; [done|].
  cbn [List.filter]. rewrite (Hpq 0 v x eq_refl eq_refl).
  specialize (IH (fun i => Hpq (S i))).
  destruct (q x); cbn [length]; by rewrite IH.
Qed.

(** When nothing is rounded every value has the bucket
    [floor((x - lo) / width)], clamped. *)
Lemma histogram_exact v0 vs :
  buckets_exact v0 vs = true ->
  exists (lo hi : Qc) (xs : list Qc),
    reals_of (v0 :: vs) xs
    /\ real (min_of v0 vs) = Some lo /\ real (max_of v0 vs) = Some hi
    /\ lo ∈ xs /\ hi ∈ xs
    /\ (forall x, x ∈ xs -> (lo <= x)%Qc /\ (x <= hi)%Qc)
    /\ real (bin_step (min_of v0 vs) (max_of v0 vs)) = Some (width lo hi)
    /\ (forall i v x,
          (v0 :: vs) !! i = Some v -> xs !! i = Some x ->
          to_index (bin_index (min_of v0 vs)
                      (bin_step (min_of v0 vs) (max_of v0 vs)) v)
          = Some (bucket_of lo (width lo hi) x)).
Proof.
  unfold buckets_exact. cbv zeta.
  intros [[[[[[[Hnats Hv0]%andb_prop Hmin]%andb_prop Hmax]%andb_prop
               Hsub]%andb_prop Hdiv]%andb_prop Hfalsy]%andb_prop Hidx]%andb_prop.
  cbn [forallb] in Hnats.
  apply andb_prop in Hnats as [H0 [H1 [H19 [H20 _]%andb_prop]%andb_prop]%andb_prop].
  apply bool_decide_eq_true in Hv0 as [x0 Hx0].
  destruct (fold_exact_reals _ _ _ _ Hmin) as [xs Hxs].
  destruct (min_of_exact _ _ _ _ Hx0 Hxs Hmin) as (lo & Hlo & Hlo_in & Hlo_le).
  destruct (max_of_exact _ _ _ _ Hx0 Hxs Hmax) as (hi & Hhi & Hhi_in & Hhi_le).
  assert (reals_of (v0 :: vs) (x0 :: xs)) as Hall by by constructor.
  pose proof (bin_step_exact _ _ _ _ Hlo Hhi H1 H20 Hsub Hdiv Hfalsy) as Hstep.
  exists lo, hi, (x0 :: xs). split_and!; try done.
  - intros x Hx. split; [by apply Hlo_le | by apply Hhi_le].
  - intros i v x Hv Hx.
    assert (real v = Some x) as Hvx.
    { destruct (Forall2_lookup_l _ _ _ _ _ Hall Hv) as (x' & Hx' & Hreal).
      congruence. }
    apply (bin_index_exact _ _ _ _ _ _ Hlo Hstep Hvx H0 H19).
    rewrite forallb_forall in Hidx. apply Hidx, list_elem_of_In.
    by eapply list_elem_of_lookup_2.
Qed.

End HistogramExact.

Section HistogramBuckets.
Context {N : Number}.
Import JsString.


End HistogramBuckets.

(** ** The statements on doubles and ISO dates *)

Section OnDoubles.
#[local] Existing Instance Float64.
#[local] Existing Instance IsoHost.

(** The coercion on doubles: decimal literals with optional white space,
    sign, fraction and exponent; [Number] also reads the empty string as 0
    and radix-prefixed integers. *)
Example coerceNumber_on_doubles :
  coerceNumber (Sample.text "12.5") = Some 12.5%float
  /\ coerceNumber (Sample.text " -1e3 ") = Some (-1000)%float
  /\ coerceNumber (Sample.text "n/a") = None
  /\ coerceNumber (Sample.text "12 apples") = None
  /\ coerceNumber (Sample.text "Infinity") = None
  /\ coerceNumber (Sample.text "") = Some 0%float
  /\ coerceNumber (Sample.text "0x1F") = Some 31%float
  /\ coerceNumber (Sample.number infinity) = None
  /\ coerceNumber (Sample.number nan) = None
  /\ coerceNumber (VBool true : unknown float) = None
  /\ coerceNumber (VNull : unknown float) = None.
Proof. split_and!; vm_compute; reflexivity. Qed.

(** The string [" -12.5e1 "] is a decimal literal between blanks and
    coerces to -125; ["0b101"] is a binary integer and coerces to 5. *)
Lemma coerceNumber_spec_witness :
  coerceNumber (Sample.text " -12.5e1 ") = Some (-125)%float
  /\ coerceNumber (Sample.text "0b101") = Some 5%float
  /\ Numeral.decimal " -12.5e1 ".
Proof.
  pose (d := {| Numeral.sign := Numeral.Minus;
                Numeral.whole := list_ascii_of_string "12";
                Numeral.fraction := Some (list_ascii_of_string "5");
                Numeral.exponent :=
                  Some {| Numeral.capital := false;
                          Numeral.exp_sign := Numeral.NoSign;
                          Numeral.exp_digits := list_ascii_of_string "1" |} |}).
  assert (Numeral.well_formed d) as Hd
    by (split_and!; [reflexivity | reflexivity | discriminate |
                     split; [reflexivity | discriminate]]).
  split_and!.
  - apply (proj2 (coerceNumber_spec (Sample.text " -12.5e1 ") (-125)%float)).
    split; [reflexivity|]. right. exists " -12.5e1 ", true, 125%N, 0%Z.
    split_and!; [reflexivity | | vm_compute; reflexivity].
    exact (Numeral.reads_decimal d [" "%char] [" "%char] Hd eq_refl eq_refl).
  - apply (proj2 (coerceNumber_spec (Sample.text "0b101") 5%float)).
    split; [reflexivity|]. right. exists "0b101", false, 5%N, 0%Z.
    split_and!; [reflexivity | | vm_compute; reflexivity].
    refine (Numeral.reads_radix "b" 2 (list_ascii_of_string "101") [] []
              _ eq_refl _ eq_refl eq_refl); [|discriminate].
    unfold Numeral.prefixes. set_solver.
  - exists d, [" "%char], [" "%char]. by split_and!.
Defined.

(** The empty string and the string ["0x1F"] are not decimal literals,
    and coerce to 0 and to 31. *)
Lemma coerceNumber_decimal_counterexample :
  coerceNumber (Sample.text "") = Some 0%float
  /\ ~ Numeral.decimal ""
  /\ coerceNumber (Sample.text "0x1F") = Some 31%float
  /\ ~ Numeral.decimal "0x1F".
Proof.
  split_and!; try (vm_compute; reflexivity).
  - intros [_ Hd]%decimal_chars. discriminate.
  - intros [Hd _]%decimal_chars. discriminate.
Qed.

(** The ranking of the six sample rows, by the theorem: group A keeps the
    reading of day 2 although the reading of day 1 comes later, group B
    the later of two readings of one day, group C the later of two
    readings without a date. *)
Lemma chartData_latest_ranking_witness :
  chartData (Some "g") (Some "m") (Some "d") None Sample.unordered_rows
  = [ {| label := "A"; value := 10%float |};
      {| label := "B"; value := 7%float |};
      {| label := "C"; value := 4%float |} ]
  /\ exists (groups : list (string * Latest float)) (sorted : list (Bar float)),
       NoDup (map fst groups)
       /\ (forall g e,
             (g, e) ∈ groups <->
             is_latest
               (ranked_readings "g" "m" (Some "d") Sample.unordered_rows) g e)
       /\ map value sorted ≡ₚ map (fun ge => latest_value ge.2) groups
       /\ StronglySorted desc_by_real sorted
       /\ chartData (Some "g") (Some "m") (Some "d") None Sample.unordered_rows
          = take 10 sorted
       /\ length (chartData (Some "g") (Some "m") (Some "d") None
                    Sample.unordered_rows) <= 10.
Proof.
  split; [vm_compute; reflexivity|].
  refine (proj2 (chartData_latest_ranking "g" "m" (Some "d") None
                   Sample.unordered_rows _ _)); vm_compute; reflexivity.
Defined.

(** Group A with 10 on day 1 and 20 on day 2, group B with 5 on day 1. *)
Example chartData_ranking_example :
  chartData (Some "g") (Some "m") (Some "d") None Sample.ranking_rows
  = [ {| label := "A"; value := 20%float |};
      {| label := "B"; value := 5%float |} ].
Proof. vm_compute; reflexivity. Qed.

(** A row whose group value is the non-empty string [" "] and whose metric
    value coerces to 5 is not in the ranking. *)
Lemma chartData_blank_group_counterexample :
  (exists r g,
     Sample.blank_group_rows = [r] /\ get r "g" = VString g /\ g <> ""
     /\ coerceNumber (get r "m") = Some 5%float)
  /\ chartData (Some "g") (Some "m") None None Sample.blank_group_rows = [].
Proof.
  split; [|vm_compute; reflexivity].
  eexists _, " ". split_and!; [reflexivity | vm_compute; reflexivity | done |
                              vm_compute; reflexivity].
Qed.


(** The series 1 .. 8: no average up to index 5, then 4 and 5; nothing is
    rounded, and the accumulator at index 7 is the sum of the values at the
    indices 1 .. 7. *)
Lemma moving_average_window_witness :
  map ma (timeSeriesWithMA (Sample.series [1; 2; 3; 4; 5; 6; 7; 8]%float))
  = [None; None; None; None; None; None; Some 4%float; Some 5%float]
  /\ exists xs,
       reals_of (map pvalue (Sample.series [1; 2; 3; 4; 5; 6; 7; 8]%float)) xs
       /\ real (run_after
                  (map pvalue (Sample.series [1; 2; 3; 4; 5; 6; 7; 8]%float)) 7)
          = Some (Qc_sum (take window (drop (7 + 1 - window) xs))).
Proof.
  split; [vm_compute; reflexivity|].
  edestruct (moving_average_window
               (Sample.series [1; 2; 3; 4; 5; 6; 7; 8]%float) 7) as [_ Hw];
    [vm_compute; reflexivity|].
  destruct Hw as [_ Hex]; [unfold window; lia|].
  apply Hex. vm_compute. reflexivity.
Defined.

(** On the series 1e100, 1, 1, 1, 1, 1, 1, 1 the program's average at index
    7 is 0, and the sum of the values at the indices 1 .. 7, divided by 7,
    is 1. *)
Lemma moving_average_rounding_counterexample :
  map ma (timeSeriesWithMA
            (Sample.series [F64.Number_of_string "1e100"; 1; 1; 1; 1; 1; 1; 1]%float))
    !! 7 = Some (Some 0%float)
  /\ ndiv (fold_left nadd [1; 1; 1; 1; 1; 1; 1]%float (of_nat 0)) (of_nat 7)
     = 1%float
  /\ PrimFloat.eqb 0 1 = false.
Proof. split_and!; vm_compute; reflexivity. Qed.

(** On the series 0.1, 0.2, ..., 0.8 the program's average at index 7 is
    0.49999999999999994, and the sum of the values at the indices 1 .. 7,
    added from left to right and divided by 7, is 0.5. *)
Example moving_average_decimals :
  map ma (timeSeriesWithMA
            (Sample.series
               (map F64.Number_of_string
                  ["0.1"; "0.2"; "0.3"; "0.4"; "0.5"; "0.6"; "0.7"; "0.8"])))
    !! 7 = Some (Some (F64.Number_of_string "0.49999999999999994"))
  /\ ndiv (fold_left nadd
             (map F64.Number_of_string
                ["0.2"; "0.3"; "0.4"; "0.5"; "0.6"; "0.7"; "0.8"]) (of_nat 0))
          (of_nat 7)
     = F64.Number_of_string "0.5".
Proof. split; vm_compute; reflexivity. Qed.

(** Group A is named by its first counted row that has a name; group B has
    none and shows its key. *)
Lemma chartData_labels_witness :
  chartData (Some "g") (Some "m") None (Some "name") Sample.named_rows
  = [ {| label := "B"; value := 3%float |};
      {| label := "Alpha"; value := 2%float |} ]
  /\ is_first (namings "g" "m" (Some "name") Sample.named_rows) "A" "Alpha"
  /\ exists (groups : list (string * Latest float)) (display : string -> string),
       chartData (Some "g") (Some "m") None (Some "name") Sample.named_rows
       = take 10
           (js_sort by_value_desc
              (map (fun ge : string * Latest float =>
                      {| label := display ge.1; value := latest_value ge.2 |})
                   groups))
       /\ display "A" = "Alpha" /\ display "B" = "B".
Proof.
  assert (is_first (namings "g" "m" (Some "name") Sample.named_rows) "A" "Alpha")
    as Hfirst.
  { exists 0. split; [vm_compute; reflexivity|]. intros j x' Hj. lia. }
  split; [vm_compute; reflexivity|]. split; [exact Hfirst|].
  destruct (chartData_labels "g" "m" None (Some "name") Sample.named_rows)
    as (_ & groups & display & _ & Heq & Hnamed & Hkey); [reflexivity..|].
  exists groups, display. split_and!; [exact Heq | by apply Hnamed |].
  apply Hkey. vm_compute. intros Hin.
  apply elem_of_cons in Hin as [Hin|Hin]; [discriminate|].
  apply elem_of_cons in Hin as [Hin|Hin]; [discriminate|].
  by apply elem_of_nil in Hin.
Defined.

(** The first row of the filtered set has the non-empty display name
    ["Alpha"] for the key ["A"]; the label in the ranking is ["A"]. *)
Lemma chartData_label_counterexample :
  (exists r1 r2,
     Sample.unnamed_rows = [r1; r2]
     /\ get r1 "g" = VString "A" /\ get r1 "name" = VString "Alpha")
  /\ chartData (Some "g") (Some "m") None (Some "name") Sample.unnamed_rows
     = [ {| label := "A"; value := 5%float |} ].
Proof.
  split; [|vm_compute; reflexivity].
  eexists _, _. split_and!; [reflexivity | vm_compute; reflexivity..].
Qed.


(** The values 0 and 10 on doubles: one value in bucket 0, one in
    bucket 19. *)
Example histogram_0_10 :
  map bin_count (histogram (Some "m") (Sample.readings [0; 10]%float))
  = [1; 0; 0; 0; 0; 0; 0; 0; 0; 0; 0; 0; 0; 0; 0; 0; 0; 0; 0; 1]
  /\ to_index (bin_index 0%float (bin_step 0%float 10%float) 10%float)
     = Some 19.
Proof. split; vm_compute; reflexivity. Qed.




(** A group column chosen earlier stays when the rows and the columns
    change; the metric slot, still unset, gets its default. *)
Lemma initDefaults_keeps_selection_witness :
  initDefaults Sample.ranking_rows ["zone"; "geo_name"] ["n"; "AQI"] []
    {| groupKey := Some "zone"; metricKey := None; dateKey := None |}
  = {| groupKey := Some "zone"; metricKey := Some "AQI"; dateKey := None |}
  /\ groupKey
       (initDefaults Sample.ranking_rows ["zone"; "geo_name"] ["n"; "AQI"] []
          {| groupKey := Some "zone"; metricKey := None; dateKey := None |})
     = Some "zone".
Proof.
  split; [vm_compute; reflexivity|].
  exact (proj1 (initDefaults_keeps_selection Sample.ranking_rows
                  ["zone"; "geo_name"] ["n"; "AQI"] []
                  {| groupKey := Some "zone"; metricKey := None;
                     dateKey := None |}) "zone" eq_refl).
Defined.

(** Rows without a coercible metric value give the record of zeros. *)
Lemma stats_no_values_witness :
  stats (Some "m") Sample.no_metric_rows
  = Some {| count := 0; smin := Some 0%float; smax := Some 0%float;
            mean := 0%float; median := Some 0%float; p95 := Some 0%float |}.
Proof.
  refine (eq_trans (stats_no_values "m" Sample.no_metric_rows eq_refl _) _).
  - repeat (constructor; [vm_compute; reflexivity|]). constructor.
  - vm_compute. reflexivity.
Defined.

End OnDoubles.


(** ** The histogram on doubles and in exact arithmetic *)

Section OnRationals.


End OnRationals.

(** * Properties of the rest of [App] *)

(** ** Strings *)

Section JsTextFacts.
Import JsString.

(** A property of characters that holds of the 256 code units holds of
    every character. *)
Lemma ascii_all (p : ascii -> bool) :
  forallb (fun n => p (ascii_of_nat n)) (seq 0 256) = true ->
  forall c, p c = true.
Proof.
  intros Hall c. rewrite forallb_forall in Hall.
  rewrite <- (ascii_nat_embedding c). apply Hall, in_seq.
  pose proof (nat_ascii_bounded c). lia.
Qed.

Lemma lower_idem c : JsText.lower (JsText.lower c) = JsText.lower c.
Proof.
  apply Ascii.eqb_eq.
  revert c. apply ascii_all. vm_compute. reflexivity.
Qed.

Lemma toLowerCase_idem s :
  JsText.toLowerCase (JsText.toLowerCase s) = JsText.toLowerCase s.
Proof. induction s as [|c s IH]; [done|]. cbn. by rewrite lower_idem, IH. Qed.

Lemma is_space_lower c : is_space (JsText.lower c) = is_space c.
Proof.
  apply Bool.eqb_prop.
  revert c. apply ascii_all. vm_compute. reflexivity.
Qed.

Lemma ltrim_nil l : ltrim l = [] <-> forallb is_space l = true.
Proof.
  induction l as [|c l IH]; cbn; [done|].
  destruct (is_space c); cbn; [done|]. split; done.
Qed.

Lemma ltrim_spaces l : forallb is_space (ltrim l) = forallb is_space l.
Proof.
  induction l as [|c l IH]; cbn; [done|].
  destruct (is_space c) eqn:E; cbn; [done|]. by rewrite E.
Qed.

Lemma forallb_rev {A} (p : A -> bool) (l : list A) :
  forallb p (rev l) = forallb p l.
Proof.
  induction l as [|a l IH]; [done|].
  cbn. rewrite forallb_app, IH. cbn. destruct (p a), (forallb p l); done.
Qed.

(** A string is blank, [!s.trim()], exactly when all its characters are
    white space. *)
Lemma truthy_trim s :
  truthy (trim s) = negb (forallb is_space (list_ascii_of_string s)).
Proof.
  unfold trim. set (l := list_ascii_of_string s).
  assert (forall x, truthy (string_of_list_ascii x)
                    = match x with [] => false | _ => true end) as Ht
    by by intros [|? ?].
  rewrite Ht.
  destruct (rev (ltrim (rev (ltrim l)))) as [|c x] eqn:E.
  - apply (f_equal (@rev _)) in E. rewrite rev_involutive in E. cbn in E.
    apply ltrim_nil in E. rewrite forallb_rev, ltrim_spaces in E.
    by rewrite E.
  - destruct (forallb is_space l) eqn:El; [|done].
    rewrite <- ltrim_spaces, <- forallb_rev in El. apply ltrim_nil in El.
    by rewrite El in E.
Qed.

Lemma list_ascii_toLowerCase s :
  list_ascii_of_string (JsText.toLowerCase s)
  = map JsText.lower (list_ascii_of_string s).
Proof. induction s as [|c s IH]; [done|]. cbn. by rewrite IH. Qed.

Lemma truthy_trim_toLowerCase s :
  truthy (trim (JsText.toLowerCase s)) = truthy (trim s).
Proof.
  rewrite !truthy_trim, list_ascii_toLowerCase. f_equal.
  induction (list_ascii_of_string s) as [|c l IH]; [done|].
  cbn. by rewrite is_space_lower, IH.
Qed.

Lemma starts_with_spec needle hay :
  JsText.starts_with needle hay = true <->
  exists post, hay = (needle ++ post)%string.
Proof.
  revert hay. induction needle as [|a needle IH]; intros hay; cbn.
  - split; [eauto | done].
  - destruct hay as [|b hay].
    + split; [done | by intros [post Hp]].
    + rewrite andb_true_iff, IH, Ascii.eqb_eq. split.
      * intros [-> [post ->]]. eauto.
      * intros [post [= -> ->]]. eauto.
Qed.

(** [hay.includes(needle)]: [needle] occurs in [hay]. *)
Lemma includes_spec needle hay :
  JsText.includes needle hay = true <->
  exists pre post, hay = (pre ++ needle ++ post)%string.
Proof.
  induction hay as [|b hay IH]; cbn.
  - rewrite orb_false_r, starts_with_spec. split.
    + intros [post ->]. by exists "", post.
    + intros ([|? ?] & post & Hp); [eauto | done].
  - rewrite orb_true_iff, IH.
    change (match needle with
            | "" => true
            | String a needle' =>
                (a =? b)%char && JsText.starts_with needle' hay
            end) with (JsText.starts_with needle (String b hay)).
    rewrite starts_with_spec. split.
    + intros [[post ->]|(pre & post & ->)].
      * by exists "", post.
      * by exists (String b pre), post.
    + intros ([|c pre] & post & Hp).
      * left. eauto.
      * right. injection Hp as -> ->. eauto.
Qed.

Lemma string_app_assoc (a b c : string) :
  ((a ++ b) ++ c = a ++ b ++ c)%string.
Proof.
  induction a as [|x a IH]; [done|].
  change (String x ((a ++ b) ++ c) = String x (a ++ b ++ c))%string.
  by rewrite IH.
Qed.

Lemma includes_trans a b hay :
  JsText.includes a b = true -> JsText.includes b hay = true ->
  JsText.includes a hay = true.
Proof.
  rewrite !includes_spec. intros (p1 & q1 & ->) (p2 & q2 & ->).
  exists (p2 ++ p1)%string, (q1 ++ q2)%string.
  by rewrite !string_app_assoc.
Qed.

(** The default selections test column names, in lower case, against
    candidates that are ASCII strings.  For such a test it makes no
    difference that [JsString.toLowerCase] leaves the Latin-1 capitals as
    they are. *)
Lemma eqb_lower_ascii a b :
  nat_of_ascii b < 128 ->
  Ascii.eqb (lower a) b = Ascii.eqb (JsText.lower a) b.
Proof.
  intros Hb.
  assert (forallb (fun n => Bool.eqb (Ascii.eqb (lower a) (ascii_of_nat n))
                              (Ascii.eqb (JsText.lower a) (ascii_of_nat n)))
            (seq 0 128) = true) as Hall.
  { revert a. apply ascii_all. vm_compute. reflexivity. }
  rewrite forallb_forall in Hall.
  specialize (Hall (nat_of_ascii b)). rewrite ascii_nat_embedding in Hall.
  apply Bool.eqb_prop, Hall, in_seq. lia.
Qed.

Lemma candidate_test_lower (candidates : list string) (c : string) :
  Forall (fun k => Forall (fun b => nat_of_ascii b < 128)
                     (list_ascii_of_string k)) candidates ->
  includes candidates (toLowerCase c)
  = includes candidates (JsText.toLowerCase c).
Proof.
  intros Hascii. unfold includes.
  induction Hascii as [|k candidates Hk _ IH]; [done|].
  cbn [existsb]. rewrite IH. f_equal. clear IH.
  revert k Hk. induction c as [|a c IH]; intros [|b k] Hk; try done.
  cbn [list_ascii_of_string] in Hk. apply Forall_cons in Hk as [Hb Hk].
  cbn [toLowerCase JsText.toLowerCase String.eqb].
  by rewrite (eqb_lower_ascii a b Hb), (IH k Hk).
Qed.

End JsTextFacts.

(** ** The search box *)

Section Search.
Context {N : Number}.
Import JsString.

Lemma matches_spec needle (r : AnyRecord) :
  matches needle r = true <->
  exists k v pre post,
    r !! k = Some (VString v)
    /\ JsText.toLowerCase v = (pre ++ needle ++ post)%string.
Proof.
  unfold matches. rewrite existsb_exists. split.
  - intros ([k x] & Hin & Hx). cbn in Hx.
    destruct x as [| | | |v|]; try done.
    apply includes_spec in Hx as (pre & post & Hv).
    apply list_elem_of_In in Hin.
    apply (elem_of_map_to_list (M := gmap string) r k (VString v)) in Hin.
    eauto 6.
  - intros (k & v & pre & post & Hk & Hv).
    exists (k, VString v). split.
    + apply list_elem_of_In.
      by apply (elem_of_map_to_list (M := gmap string) r k (VString v)).
    + cbn. apply includes_spec. eauto.
Qed.

Lemma filter_sublist {A} (p : A -> bool) (l : list A) :
  List.filter p l `sublist_of` l.
Proof.
  induction l as [|a l IH]; cbn; [done|].
  destruct (p a); by constructor.
Qed.

Lemma filter_filter {A} (p q : A -> bool) (l : list A) :
  List.filter p (List.filter q l) = List.filter (fun a => q a && p a) l.
Proof.
  induction l as [|a l IH]; cbn; [done|].
  destruct (q a); cbn; [|done]. destruct (p a); by rewrite IH.
Qed.

(** X1. A blank query keeps all the rows.  Any other query keeps, in
    their order, exactly the rows in which some field is a string that
    contains the query, both taken in lower case; the query is not
    trimmed. *)
Theorem filteredRows_spec (rows : list AnyRecord) (query : string) :
  (truthy (trim query) = false /\ filteredRows rows query = rows)
  \/ (truthy (trim query) = true
      /\ filteredRows rows query `sublist_of` rows
      /\ (exists keep : AnyRecord -> bool,
            filteredRows rows query = List.filter keep rows
            /\ forall r, keep r = true <->
                 exists k v pre post,
                   r !! k = Some (VString v)
                   /\ JsText.toLowerCase v
                      = (pre ++ JsText.toLowerCase query ++ post)%string)).
Proof.
  unfold filteredRows. destruct (truthy (trim query)); cbn; [right | by left].
  split_and!; [done | apply filter_sublist |].
  exists (matches (JsText.toLowerCase query)). split; [done|].
  intros r. apply matches_spec.
Qed.

(** X2. Searching the rows of two pages put together gives the matches of
    the first page followed by those of the second: the search goes row
    by row. *)
Theorem filteredRows_app (rows more : list AnyRecord) (query : string) :
  filteredRows (rows ++ more) query
  = filteredRows rows query ++ filteredRows more query.
Proof.
  unfold filteredRows. destruct (truthy (trim query)); cbn; [|done].
  apply List.filter_app.
Qed.

(** X3. Searching the result of a search again with the same query
    changes nothing, and two searches one after the other give the same
    rows in either order. *)
Theorem filteredRows_twice (rows : list AnyRecord) (q1 q2 : string) :
  filteredRows (filteredRows rows q1) q1 = filteredRows rows q1
  /\ filteredRows (filteredRows rows q1) q2
     = filteredRows (filteredRows rows q2) q1.
Proof.
  unfold filteredRows.
  destruct (truthy (trim q1)), (truthy (trim q2)); cbn; try done.
  - rewrite !filter_filter. split.
    + apply filter_ext. intros r. by destruct (matches _ r).
    + apply filter_ext. intros r. apply andb_comm.
  - split; [|done]. rewrite filter_filter.
    apply filter_ext. intros r. by destruct (matches _ r).
Qed.

(** X4. The search does not tell upper case from lower case in the
    query: two queries that are equal in lower case find the same rows. *)
Theorem filteredRows_case (rows : list AnyRecord) (q1 q2 : string) :
  JsText.toLowerCase q1 = JsText.toLowerCase q2 ->
  filteredRows rows q1 = filteredRows rows q2.
Proof.
  intros Heq. unfold filteredRows.
  rewrite <- (truthy_trim_toLowerCase q1), <- (truthy_trim_toLowerCase q2).
  by rewrite Heq.
Qed.

End Search.

(** ** The columns *)

Section ColumnsFacts.
Context {N : Number} {H : Host}.
Import JsString.

Lemma includes_elem_of (l : list string) (c : string) :
  includes l c = true <-> c ∈ l.
Proof.
  unfold includes. rewrite existsb_exists. split.
  - intros (x & Hx & Heq). apply String.eqb_eq in Heq as ->.
    by apply list_elem_of_In.
  - intros Hc. exists c. split; [by apply list_elem_of_In|].
    apply String.eqb_refl.
Qed.

Lemma includes_not_elem_of (l : list string) (c : string) :
  includes l c = false <-> c ∉ l.
Proof.
  rewrite <- includes_elem_of. by destruct (includes l c).
Qed.

(** Adding keys to a set appends the new ones. *)
Lemma set_add_fold (ks keys : list string) :
  NoDup keys ->
  exists new,
    fold_left set_add ks keys = keys ++ new
    /\ NoDup (keys ++ new)
    /\ forall c, c ∈ new <-> c ∈ ks /\ c ∉ keys.
Proof.
  revert keys. induction ks as [|k ks IH]; intros keys Hnd.
  - exists []. rewrite app_nil_r. split_and!; [done..|].
    intros c. split; [by intros ?%elem_of_nil | by intros [?%elem_of_nil _]].
  - cbn [fold_left]. unfold set_add at 2.
    destruct (includes keys k) eqn:E.
    + apply includes_elem_of in E.
      destruct (IH keys Hnd) as (new & Heq & Hnd' & Hnew).
      exists new. split_and!; [done..|].
      intros c. rewrite Hnew, elem_of_cons. split; [tauto|].
      intros [[->|Hc] Hn]; [done | tauto].
    + apply includes_not_elem_of in E.
      assert (NoDup (keys ++ [k])) as Hnd1.
      { apply NoDup_app. split_and!; [done | | apply NoDup_singleton].
        intros x Hx ->%list_elem_of_singleton. done. }
      destruct (IH _ Hnd1) as (new & Heq & Hnd' & Hnew).
      exists (k :: new). rewrite Heq, <- app_assoc. cbn.
      split_and!; [done | by rewrite <- app_assoc in Hnd' |].
      intros c. rewrite !elem_of_cons, Hnew, elem_of_app,
        list_elem_of_singleton.
      destruct (decide (c = k)) as [->|Hne]; [tauto|]. tauto.
Qed.

Lemma allColumns_fold (Object_keys : AnyRecord -> list string)
    (rows : list AnyRecord) (keys : list string) :
  NoDup keys ->
  exists new,
    fold_left (fun keys r => fold_left set_add (Object_keys r) keys) rows keys
    = keys ++ new
    /\ NoDup (keys ++ new)
    /\ forall c, c ∈ new <->
         (exists r, r ∈ rows /\ c ∈ Object_keys r) /\ c ∉ keys.
Proof.
  revert keys. induction rows as [|r rows IH]; intros keys Hnd.
  - exists []. rewrite app_nil_r. split_and!; [done..|].
    intros c. split; [by intros ?%elem_of_nil|].
    by intros [(r & ?%elem_of_nil & _) _].
  - cbn [fold_left].
    destruct (set_add_fold (Object_keys r) keys Hnd)
      as (new1 & -> & Hnd1 & Hnew1).
    destruct (IH _ Hnd1) as (new2 & -> & Hnd2 & Hnew2).
    exists (new1 ++ new2). rewrite app_assoc.
    split_and!; [done..|].
    intros c. rewrite elem_of_app, Hnew1, Hnew2, elem_of_app, Hnew1.
    split.
    + intros [[Hc Hn]|[(r' & Hr' & Hc) Hn]].
      * split; [|done]. exists r. split; [apply list_elem_of_here | done].
      * split; [|tauto]. exists r'. split; [|done].
        by apply list_elem_of_further.
    + intros [(r' & Hr' & Hc) Hn].
      destruct (decide (c ∈ Object_keys r)) as [Hin|Hnin]; [tauto|].
      right. split; [|tauto].
      apply elem_of_cons in Hr' as [->|Hr']; [done|]. eauto.
Qed.

Lemma elem_of_allColumns (Object_keys : AnyRecord -> list string)
    (rows : list AnyRecord) (c : string) :
  c ∈ allColumns Object_keys rows <->
  exists r, r ∈ rows /\ c ∈ Object_keys r.
Proof.
  unfold allColumns. destruct rows as [|r rows].
  - cbn. split; [by intros ?%elem_of_nil|].
    by intros (r & ?%elem_of_nil & _).
  - change (length (r :: rows) =? 0) with false. cbv iota.
    destruct (allColumns_fold Object_keys (r :: rows) [] (NoDup_nil_2))
      as (new & -> & Hnd & Hnew).
    cbn. rewrite Hnew. split; [tauto|].
    intros Hc. split; [done|]. apply not_elem_of_nil.
Qed.

(** X5. The columns are the keys of the rows, each once: a name is a
    column exactly when some row has it as a key. *)
Theorem allColumns_spec (Object_keys : AnyRecord -> list string)
    (rows : list AnyRecord) :
  NoDup (allColumns Object_keys rows)
  /\ forall c, c ∈ allColumns Object_keys rows <->
       exists r, r ∈ rows /\ c ∈ Object_keys r.
Proof.
  split; [|apply elem_of_allColumns].
  unfold allColumns. destruct rows as [|r rows]; [constructor|].
  change (length (r :: rows) =? 0) with false. cbv iota.
  destruct (allColumns_fold Object_keys (r :: rows) [] (NoDup_nil_2))
    as (new & -> & Hnd & _).
  done.
Qed.

(** X6. Loading further rows keeps the columns there are, in their
    order, and puts the columns that only the new rows have behind
    them. *)
Theorem allColumns_app (Object_keys : AnyRecord -> list string)
    (rows more : list AnyRecord) :
  exists new,
    allColumns Object_keys (rows ++ more) = allColumns Object_keys rows ++ new
    /\ forall c, c ∈ new <->
         (exists r, r ∈ more /\ c ∈ Object_keys r)
         /\ c ∉ allColumns Object_keys rows.
Proof.
  destruct rows as [|r rows].
  - cbn [app]. exists (allColumns Object_keys more). split; [done|].
    intros c. rewrite (elem_of_allColumns Object_keys more).
    split; [|tauto]. intros Hc. split; [done|]. apply not_elem_of_nil.
  - unfold allColumns.
    change (length ((r :: rows) ++ more) =? 0) with false.
    change (length (r :: rows) =? 0) with false. cbv iota.
    rewrite fold_left_app.
    destruct (allColumns_fold Object_keys (r :: rows) [] (NoDup_nil_2))
      as (new1 & Heq1 & Hnd1 & _).
    rewrite Heq1. cbn [app] in *.
    destruct (allColumns_fold Object_keys more new1 Hnd1)
      as (new2 & -> & _ & Hnew2).
    eauto.
Qed.

End ColumnsFacts.

(** ** The classes of columns *)

Section Classes.
Context {N : Number} {H : Host}.
Import JsString.

Lemma elem_of_filter_bool {A} (p : A -> bool) (l : list A) (a : A) :
  a ∈ List.filter p l <-> a ∈ l /\ p a = true.
Proof. rewrite !list_elem_of_In. apply filter_In. Qed.

Lemma existsb_elem_of {A} (p : A -> bool) (l : list A) :
  existsb p l = true <-> exists a, a ∈ l /\ p a = true.
Proof.
  rewrite existsb_exists. by setoid_rewrite list_elem_of_In.
Qed.

Lemma elem_of_stringColumns (allColumns : list string)
    (rows : list AnyRecord) (c : string) :
  c ∈ stringColumns allColumns rows <->
  c ∈ allColumns
  /\ exists r s, r ∈ rows /\ get r c = VString s /\ truthy (trim s) = true.
Proof.
  unfold stringColumns.
  rewrite elem_of_filter_bool, existsb_elem_of. unfold has_text.
  split; intros [Hc Hr]; (split; [done|]).
  - destruct Hr as (r & Hr & Ht).
    destruct (get r c) as [| | | |s|] eqn:E; try done. eauto.
  - destruct Hr as (r & s & Hr & Hg & Ht). exists r. by rewrite Hg.
Qed.

Lemma elem_of_numericColumns (allColumns : list string)
    (rows : list AnyRecord) (c : string) :
  c ∈ numericColumns allColumns rows <->
  c ∈ allColumns /\ exists r n, r ∈ rows /\ coerceNumber (get r c) = Some n.
Proof.
  unfold numericColumns.
  rewrite elem_of_filter_bool, existsb_elem_of. unfold has_number.
  split; intros [Hc Hr]; (split; [done|]).
  - destruct Hr as (r & Hr & Ht).
    destruct (coerceNumber (get r c)) as [n|] eqn:E; [eauto | done].
  - destruct Hr as (r & n & Hr & Hg). exists r. by rewrite Hg.
Qed.

(** X7. The string columns are the columns in which some row holds a
    string that is not blank, the numeric columns those in which some row
    holds a value that coerces to a number; both keep the order of the
    columns.  A column of numeric strings is in both. *)
Theorem classified_columns (allColumns : list string)
    (rows : list AnyRecord) :
  stringColumns allColumns rows `sublist_of` allColumns
  /\ numericColumns allColumns rows `sublist_of` allColumns
  /\ (forall c, c ∈ stringColumns allColumns rows <->
        c ∈ allColumns
        /\ exists r s, r ∈ rows /\ get r c = VString s
             /\ truthy (trim s) = true)
  /\ (forall c, c ∈ numericColumns allColumns rows <->
        c ∈ allColumns
        /\ exists r n, r ∈ rows /\ coerceNumber (get r c) = Some n)
  /\ (forall c r s,
        c ∈ allColumns -> r ∈ rows -> get r c = VString s ->
        truthy (trim s) = true -> isFinite (Number_of_string s) = true ->
        c ∈ stringColumns allColumns rows
        /\ c ∈ numericColumns allColumns rows).
Proof.
  split_and!; [apply filter_sublist | apply filter_sublist
               | apply elem_of_stringColumns | apply elem_of_numericColumns |].
  intros c r s Hc Hr Hg Ht Hfin. split.
  - apply elem_of_stringColumns. eauto 6.
  - apply elem_of_numericColumns. split; [done|].
    exists r, (Number_of_string s).
    split; [done|]. rewrite Hg. cbn. by rewrite Hfin.
Qed.

(** The loop with [break] pushes the column exactly when the hits, with
    those before, reach the threshold. *)
Lemma date_scan_count c hits rows :
  hits < threshold ->
  date_scan c hits rows
  = (threshold <=? hits + length (List.filter (date_hit c) rows)).
Proof.
  revert hits. induction rows as [|r rows IH]; intros hits Hlt.
  - cbn [date_scan List.filter length]. symmetry. apply Nat.leb_gt. lia.
  - cbn [date_scan List.filter]. destruct (date_hit c r).
    + cbn [length]. destruct (Nat.leb_spec threshold (S hits)) as [Hle|Hgt].
      * symmetry. apply Nat.leb_le. lia.
      * rewrite IH by done. f_equal. lia.
    + by apply IH.
Qed.

Lemma push_if_filter {A} (p : A -> bool) (l acc : list A) :
  fold_left (fun columns c => if p c then columns ++ [c] else columns) l acc
  = acc ++ List.filter p l.
Proof.
  revert acc. induction l as [|a l IH]; intros acc; cbn.
  - by rewrite app_nil_r.
  - rewrite IH. destruct (p a); [|done]. by rewrite <- app_assoc.
Qed.

Lemma dateColumns_filter (allColumns : list string) (rows : list AnyRecord) :
  dateColumns allColumns rows
  = List.filter
      (fun c => threshold <=? length (List.filter (date_hit c) rows))
      allColumns.
Proof.
  unfold dateColumns. rewrite push_if_filter. cbn [app].
  apply filter_ext. intros c. rewrite date_scan_count; [done|].
  unfold threshold. lia.
Qed.

Lemma elem_of_dateColumns (allColumns : list string) (rows : list AnyRecord)
    (c : string) :
  c ∈ dateColumns allColumns rows <->
  c ∈ allColumns /\ 6 <= length (List.filter (date_hit c) rows).
Proof.
  rewrite dateColumns_filter, elem_of_filter_bool. unfold threshold.
  by rewrite Nat.leb_le.
Qed.

(** X8. The date columns are, in the order of the columns, those in
    which at least 6 rows hold a string that [Number] does not read as a
    finite number and [Date.parse] reads; with fewer than 6 rows there is
    none.  A value that counts as a date never coerces to a number. *)
Theorem dateColumns_spec (allColumns : list string) (rows : list AnyRecord) :
  dateColumns allColumns rows
  = List.filter
      (fun c => threshold <=? length (List.filter (date_hit c) rows))
      allColumns
  /\ (forall c, c ∈ dateColumns allColumns rows <->
        c ∈ allColumns /\ 6 <= length (List.filter (date_hit c) rows))
  /\ (forall c r, date_hit c r = true ->
        exists v t, get r c = VString v /\ Date_parse v = Some t
          /\ coerceNumber (get r c) = None)
  /\ (length rows < 6 -> dateColumns allColumns rows = []).
Proof.
  split_and!; [apply dateColumns_filter | apply elem_of_dateColumns | |].
  - intros c r. unfold date_hit.
    destruct (get r c) as [| | | |v|] eqn:E; try done.
    intros [Hnum Hdate]%andb_prop. apply negb_true_iff in Hnum.
    destruct (Date_parse v) as [t|] eqn:Et; [|done].
    exists v, t. split_and!; [done..|]. cbn. by rewrite Hnum.
  - intros Hlt.
    destruct (dateColumns allColumns rows) as [|c l] eqn:E; [done|].
    assert (c ∈ dateColumns allColumns rows) as Hc
      by (rewrite E; apply list_elem_of_here).
    apply elem_of_dateColumns in Hc as [_ Hc].
    pose proof (filter_length_le (date_hit c) rows). lia.
Qed.

End Classes.

(** ** The display-name column and the defaults *)

Section Names.
Context {N : Number} {H : Host}.
Import JsString.

Lemma find_first {A} (p : A -> bool) (l : list A) (a : A) :
  find p l = Some a <->
  exists i, l !! i = Some a /\ p a = true
    /\ forall j b, j < i -> l !! j = Some b -> p b = false.
Proof.
  induction l as [|x l IH]; cbn.
  - split; [done|]. by intros (i & Hi & _).
  - destruct (p x) eqn:E.
    + split.
      * intros [= ->]. exists 0. split_and!; [done..|]. intros j b Hj. lia.
      * intros (i & Hi & Ha & Hfirst). destruct i as [|i]; [done|].
        specialize (Hfirst 0 x (Nat.lt_0_succ i) eq_refl). congruence.
    + rewrite IH. split.
      * intros (i & Hi & Ha & Hfirst). exists (S i). split_and!; [done..|].
        intros [|j] b Hj Hb; [by inversion Hb; subst|].
        apply (Hfirst j); [lia | done].
      * intros (i & Hi & Ha & Hfirst). destruct i as [|i].
        { inversion Hi; subst. congruence. }
        exists i. split_and!; [done..|]. intros j b Hj Hb.
        apply (Hfirst (S j)); [lia | done].
Qed.

Lemma find_None_all {A} (p : A -> bool) (l : list A) :
  find p l = None <-> forall a, a ∈ l -> p a = false.
Proof.
  induction l as [|x l IH]; cbn.
  - split; [|done]. by intros _ a ?%elem_of_nil.
  - destruct (p x) eqn:E.
    + split; [done|]. intros Hall.
      specialize (Hall x (list_elem_of_here _ _)). congruence.
    + rewrite IH. split.
      * intros Hall a [->|Ha]%elem_of_cons; auto.
      * intros Hall a Ha. apply Hall. by apply list_elem_of_further.
Qed.

(** X9. The display-name column is the first name of the list of
    candidates, in the order of that list, that is the lower case of some
    string column; it is that candidate, in lower case, not the column as
    the data spell it.  There is none exactly when no string column is a
    candidate in lower case. *)
Theorem nameKey_spec (stringColumns : list string) :
  (forall k, nameKey stringColumns = Some k <->
     exists i, nameCandidates !! i = Some k
       /\ (exists c, c ∈ stringColumns /\ JsText.toLowerCase c = k)
       /\ forall j k', j < i -> nameCandidates !! j = Some k' ->
            forall c, c ∈ stringColumns -> JsText.toLowerCase c <> k')
  /\ (nameKey stringColumns = None <->
      forall c, c ∈ stringColumns ->
        JsText.toLowerCase c ∉ nameCandidates).
Proof.
  unfold nameKey. cbv zeta.
  set (p := fun c => includes (map JsText.toLowerCase stringColumns) c).
  assert (forall k, p k = true <->
            exists c, c ∈ stringColumns /\ JsText.toLowerCase c = k) as Hp.
  { intros k. unfold p. rewrite includes_elem_of, list_elem_of_fmap.
    split; intros (c & ? & ?); eauto. }
  assert (forall k, p k = false <->
            forall c, c ∈ stringColumns -> JsText.toLowerCase c <> k) as Hn.
  { intros k. split.
    - intros Hk c Hc Heq.
      assert (p k = true) by (apply Hp; eauto). congruence.
    - intros Hall. destruct (p k) eqn:E; [|done].
      apply Hp in E as (c & Hc & Heq). by destruct (Hall c Hc). }
  assert (forall k, find p nameCandidates = Some k -> truthy k = true) as Ht.
  { intros k Hk. apply find_some in Hk as [Hk _].
    apply list_elem_of_In in Hk. revert k Hk.
    apply Forall_forall. unfold nameCandidates.
    repeat (constructor; [done|]). constructor. }
  split.
  - intros k. unfold selected.
    destruct (find p nameCandidates) as [k0|] eqn:E.
    + rewrite (Ht k0 eq_refl). split.
      * intros [= <-]. apply find_first in E as (i & Hi & Hpk & Hfirst).
        exists i. split_and!; [done | by apply Hp |].
        intros j k' Hj Hk'. apply Hn. by apply (Hfirst j).
      * intros (i & Hi & Hpk & Hfirst).
        assert (find p nameCandidates = Some k) as Hk; [|congruence].
        apply find_first. exists i. split_and!; [done | by apply Hp |].
        intros j k' Hj Hk'. apply Hn. by apply (Hfirst j).
    + split; [done|]. intros (i & Hi & Hpk & Hfirst).
      apply (proj1 (find_None_all p nameCandidates)) with (a := k) in E.
      * apply Hp in Hpk. congruence.
      * by eapply list_elem_of_lookup_2.
  - unfold selected. destruct (find p nameCandidates) as [k0|] eqn:E.
    + rewrite (Ht k0 eq_refl). split; [done|]. intros Hall.
      apply find_some in E as [Hin Hpk]. apply Hp in Hpk as (c & Hc & <-).
      destruct (Hall c Hc). by apply list_elem_of_In.
    + split; [|done]. intros _ c Hc Hin.
      apply (proj1 (find_None_all p nameCandidates)) with (a := JsText.toLowerCase c) in E;
        [|done].
      assert (p (JsText.toLowerCase c) = true) by (apply Hp; eauto).
      congruence.
Qed.

End Names.

Section NamesInCharts.
Context {N : Number} {H : Host}.
Import JsString.

(** X10. When no row holds a string under the display-name column, every
    bar of the ranking is labelled with its group key and carries the
    latest value of that group. *)
Theorem chartData_unnamed gk mk dk nk (rows : list AnyRecord) :
  truthy gk = true -> truthy mk = true ->
  (forall k r, selected nk = Some k -> r ∈ rows -> isString (get r k) = false) ->
  forall b, b ∈ chartData (Some gk) (Some mk) dk nk rows ->
    exists e, is_latest (ranked_readings gk mk dk rows) (label b) e
      /\ value b = latest_value e.
Proof.
  intros Hgk Hmk Hnone b.
  rewrite (chartData_eq _ _ _ _ _ Hgk Hmk), chart_loop_events. cbn [fst snd].
  assert (namings gk mk nk rows = []) as ->.
  { unfold namings. induction rows as [|r rows IH]; [done|].
    cbn [omap list_omap].
    assert (naming gk mk nk r = None) as ->.
    { destruct (naming gk mk nk r) as [[g nm]|] eqn:E; [|done].
      apply naming_Some in E as (_ & _ & _ & k & Hk & Hg & _).
      specialize (Hnone k r Hk (list_elem_of_here _ _)).
      by rewrite Hg in Hnone. }
    apply IH. intros k r' Hk Hr'. apply (Hnone k); [done|].
    by apply list_elem_of_further. }
  cbn [fold_left].
  destruct (write_latest_spec (ranked_readings gk mk dk rows))
    as (Hnd & _ & Hget).
  cbv zeta in Hget, Hnd. intros Hb. apply elem_of_take in Hb as (i & Hb & _).
  apply list_elem_of_lookup_2 in Hb. rewrite js_sort_perm in Hb.
  apply list_elem_of_fmap in Hb as ([g e] & -> & Hge).
  cbn [label value fst snd]. exists e. split; [|done].
  apply Hget. unfold label_of. cbn [JsMap.get JsMap.empty fst].
  by apply elem_of_get.
Qed.

Lemma init_slot_picks (candidates columns : list string)
    (prev : option string) (s : string) :
  init_slot candidates columns prev = Some s -> prev = Some s \/ s ∈ columns.
Proof.
  unfold init_slot. destruct (selected prev); [by left|].
  unfold preferred_or_first, or_else. intros Hs. right.
  destruct (selected (find _ columns)) eqn:E.
  - apply find_some in Hs as [Hs _]. by apply list_elem_of_In.
  - by eapply list_elem_of_lookup_2.
Qed.

Lemma initDefaults_picks (rows : list AnyRecord) (sc nc dc : list string)
    (sel : Selection) :
  let sel' := initDefaults rows sc nc dc sel in
  (forall s, groupKey sel' = Some s -> groupKey sel = Some s \/ s ∈ sc)
  /\ (forall s, metricKey sel' = Some s -> metricKey sel = Some s \/ s ∈ nc)
  /\ (forall s, dateKey sel' = Some s -> dateKey sel = Some s \/ s ∈ dc).
Proof.
  cbv zeta. unfold initDefaults.
  destruct rows as [|r rows]; cbn [length Nat.eqb].
  - split_and!; intros s Hs; by left.
  - cbn [groupKey metricKey dateKey]. split_and!; apply init_slot_picks.
Qed.

(** X11. A slot that the defaults fill holds one of the classified
    columns, as the data spell it; a slot never holds anything but its
    earlier value or a column of its class.  Among the columns the first,
    in their order, that is a preferred name in lower case wins. *)
Theorem initDefaults_picks_columns (rows : list AnyRecord)
    (sc nc dc : list string) (sel : Selection) :
  let sel' := initDefaults rows sc nc dc sel in
  (forall s, groupKey sel' = Some s -> groupKey sel = Some s \/ s ∈ sc)
  /\ (forall s, metricKey sel' = Some s -> metricKey sel = Some s \/ s ∈ nc)
  /\ (forall s, dateKey sel' = Some s -> dateKey sel = Some s \/ s ∈ dc)
  /\ (forall i c,
        rows <> [] -> selected (groupKey sel) = None ->
        sc !! i = Some c -> includes groupCandidates (toLowerCase c) = true ->
        (forall j c', j < i -> sc !! j = Some c' ->
           includes groupCandidates (toLowerCase c') = false) ->
        groupKey sel' = Some c).
Proof.
  destruct (initDefaults_picks rows sc nc dc sel) as (Hg & Hm & Hd).
  cbv zeta in *. split_and!; [done..|].
  intros i c Hrows Hsel Hi Hc Hfirst. unfold initDefaults.
  destruct rows as [|r rows]; [done|]. cbn [length Nat.eqb groupKey].
  rewrite (init_slot_unset _ _ _ Hsel).
  unfold preferred_or_first, or_else.
  assert (find (fun c0 => includes groupCandidates (toLowerCase c0)) sc
          = Some c) as ->.
  { apply find_first. eauto. }
  assert (truthy c = true) as Ht.
  { destruct c; [|done]. by vm_compute in Hc. }
  unfold selected. by rewrite Ht.
Qed.

(** X12. Whatever the defaults put into a slot is usable: the group
    column holds a string that is not blank in some row, the metric column
    a value that coerces to a number in some row, the date column a date
    in at least 6 rows; and each is a key of some row. *)
Theorem defaultSelection_usable (Object_keys : AnyRecord -> list string)
    (rows : list AnyRecord) (sel : Selection) :
  let sel' := defaultSelection Object_keys rows sel in
  (forall g, groupKey sel' = Some g ->
     groupKey sel = Some g
     \/ ((exists r, r ∈ rows /\ g ∈ Object_keys r)
         /\ exists r s, r ∈ rows /\ get r g = VString s
              /\ truthy (trim s) = true))
  /\ (forall m, metricKey sel' = Some m ->
        metricKey sel = Some m
        \/ ((exists r, r ∈ rows /\ m ∈ Object_keys r)
            /\ exists r n, r ∈ rows /\ coerceNumber (get r m) = Some n))
  /\ (forall d, dateKey sel' = Some d ->
        dateKey sel = Some d
        \/ ((exists r, r ∈ rows /\ d ∈ Object_keys r)
            /\ 6 <= length (List.filter (date_hit d) rows))).
Proof.
  cbv zeta. unfold defaultSelection. cbv zeta.
  set (columns := allColumns Object_keys rows).
  destruct (initDefaults_picks rows (stringColumns columns rows)
              (numericColumns columns rows) (dateColumns columns rows) sel)
    as (Hg & Hm & Hd).
  pose proof (elem_of_allColumns Object_keys rows) as Hcols.
  fold columns in Hcols.
  pose proof (elem_of_stringColumns columns rows) as Hs.
  pose proof (elem_of_numericColumns columns rows) as Hn.
  pose proof (elem_of_dateColumns columns rows) as Hdate.
  split_and!.
  - intros g Hsel. destruct (Hg g Hsel) as [?|Hin]; [by left|]. right.
    apply Hs in Hin as [Hc Hr]. split; [by apply Hcols | done].
  - intros m Hsel. destruct (Hm m Hsel) as [?|Hin]; [by left|]. right.
    apply Hn in Hin as [Hc Hr]. split; [by apply Hcols | done].
  - intros d Hsel. destruct (Hd d Hsel) as [?|Hin]; [by left|]. right.
    apply Hdate in Hin as [Hc Hr]. split; [by apply Hcols | done].
Qed.

End NamesInCharts.

(** ** The group options *)

Section Counting.

Lemma write_count_spec (gs : list string) :
  let m := fold_left write_count gs JsMap.empty in
  NoDup (JsMap.keys m)
  /\ forall g n, JsMap.get g m = Some n <->
       0 < n /\ n = length (List.filter (String.eqb g) gs).
Proof.
  induction gs as [|g0 gs IH] using rev_ind.
  - split; [constructor|]. intros g n. cbn. split; [done | lia].
  - cbv zeta in *. rewrite fold_left_app. cbn [fold_left].
    destruct IH as [Hnd IH].
    set (m := fold_left write_count gs JsMap.empty) in *.
    unfold write_count. split; [by apply NoDup_keys_set|].
    intros g n. rewrite List.filter_app, length_app. cbn [List.filter].
    destruct (String.eqb_spec g g0) as [->|Hne].
    + rewrite get_set_eq. cbn [length].
      destruct (JsMap.get g0 m) as [n0|] eqn:E.
      * apply IH in E as [Hpos ->]. cbn. split; [intros [= <-]; lia|].
        intros [_ ->]. done.
      * cbn. destruct (length (List.filter (String.eqb g0) gs)) as [|k] eqn:El.
        { split; [intros [= <-]; lia | intros [_ ->]; done]. }
        assert (JsMap.get g0 m = Some (S k)) as Hk by (apply IH; lia).
        congruence.
    + rewrite get_set_ne by done. cbn [length]. rewrite Nat.add_0_r.
      apply IH.
Qed.

End Counting.

Section Options.
Context {N : Number}.
Import JsString.

Lemma options_step_events gk nk st (r : AnyRecord) :
  options_step gk nk st r
  = (match group_of gk r with
     | Some g => write_count st.1 g
     | None => st.1
     end,
     match option_naming gk nk r with
     | Some e => write_once st.2 e
     | None => st.2
     end).
Proof.
  destruct st as [counts names]. unfold options_step, option_naming, group_of.
  destruct (get r gk) as [| | | |g|]; try done.
  destruct (truthy (trim g)); [|done]. cbn [fst snd]. f_equal.
  destruct (selected nk) as [k|]; [|done].
  destruct (get r k) as [| | | |nm|]; try done.
  unfold write_once. cbn [fst snd].
  destruct (truthy (trim nm)); [|done]. cbn. by destruct (JsMap.has g names).
Qed.

Lemma options_loop_events gk nk (rows : list AnyRecord) :
  fold_left (options_step gk nk) rows (JsMap.empty, JsMap.empty)
  = (fold_left write_count (omap (group_of gk) rows) JsMap.empty,
     fold_left write_once (option_namings gk nk rows) JsMap.empty).
Proof.
  unfold option_namings.
  rewrite <- (fold_left_events (X := string) (option_naming gk nk) write_once).
  assert (forall (f : AnyRecord -> option string) (g : JsMap.t nat -> string -> JsMap.t nat)
            (l : list AnyRecord) a,
            fold_left (fun a r => match f r with Some e => g a e | None => a end) l a
            = fold_left g (omap f l) a) as Hev.
  { intros f g l. induction l as [|r l IH]; intros a; [done|].
    cbn [fold_left omap list_omap]. rewrite IH. by destruct (f r). }
  rewrite <- Hev, <- fold_left_pair.
  apply fold_left_ext. intros st r. apply options_step_events.
Qed.

Lemma occurrences_rows gk (rows : list AnyRecord) g :
  length (List.filter (String.eqb g) (omap (group_of gk) rows))
  = rows_of_group gk rows g.
Proof.
  unfold rows_of_group. induction rows as [|r rows IH]; [done|].
  cbn [omap list_omap List.filter].
  destruct (group_of gk r) as [g'|] eqn:E.
  - cbn [List.filter]. destruct (String.eqb_spec g g') as [->|Hne].
    + rewrite bool_decide_eq_true_2 by done. cbn. by rewrite IH.
    + rewrite bool_decide_eq_false_2 by congruence. done.
  - rewrite bool_decide_eq_false_2 by done. done.
Qed.

(** X13. The options of the group selector are the groups of the rows
    (the values of the group column that are strings and not blank), each
    once, ordered by their number of rows, the greatest first, and cut at
    50.  An option shows the display name of the first row of its group
    that has one, whether or not that row has a metric value, and the
    group key when no row of the group has one. *)
Theorem groupOptions_spec gk nk (rows : list AnyRecord) :
  truthy gk = true ->
  exists (counted : list (string * nat)) (display : string -> string),
    NoDup (map fst counted)
    /\ (forall g n, (g, n) ∈ counted <->
          0 < n /\ n = rows_of_group gk rows g)
    /\ StronglySorted (fun a b => b.2 <= a.2) counted
    /\ groupOptions (Some gk) nk rows
       = take 50
           (map (fun e : string * nat =>
                   {| GroupOption.id := e.1;
                      GroupOption.name := display e.1 |})
              counted)
    /\ (forall g nm,
          is_first (option_namings gk nk rows) g nm -> display g = nm)
    /\ (forall g, g ∉ map fst (option_namings gk nk rows) -> display g = g)
    /\ length (groupOptions (Some gk) nk rows) <= 50.
Proof.
  intros Hgk. unfold groupOptions. rewrite (selected_truthy _ Hgk).
  rewrite options_loop_events.
  destruct (write_count_spec (omap (group_of gk) rows)) as [Hnd Hget].
  destruct (write_once_spec (option_namings gk nk rows)) as [Hnone Hfirst].
  cbv zeta in *.
  set (counts := fold_left write_count (omap (group_of gk) rows) JsMap.empty)
    in *.
  set (names := fold_left write_once (option_namings gk nk rows) JsMap.empty)
    in *.
  exists (js_sort by_count_desc (JsMap.entries counts)), (label_of names).
  split_and!.
  - by rewrite js_sort_perm.
  - intros g n. rewrite js_sort_perm, <- occurrences_rows, <- Hget.
    split; [by apply elem_of_get | apply get_Some_elem_of].
  - apply js_sort_sorted.
    + intros a b c Hab Hbc. lia.
    + intros a b _ _. unfold by_count_desc. split.
      * intros Hlt%Nat.ltb_ge. done.
      * intros Hlt%Nat.ltb_lt. lia.
  - done.
  - intros g nm Hnm. apply Hfirst in Hnm. unfold label_of. by rewrite Hnm.
  - intros g Hg. apply Hnone in Hg. unfold label_of. by rewrite Hg.
  - rewrite length_take. lia.
Qed.

End Options.

(** ** The groups by mean value *)

Section Pushing.
Context {T : Type}.
Implicit Types (evs : list (string * T)).

Lemma payloads_snoc evs (e : string * T) g :
  payloads (evs ++ [e]) g
  = payloads evs g ++ (if String.eqb e.1 g then [e.2] else []).
Proof.
  unfold payloads. rewrite omap_app. cbn. by destruct (String.eqb e.1 g).
Qed.

End Pushing.

Section TopBottomFacts.
Context {N : Number}.
Import JsString.

Lemma write_push_spec (evs : list (string * num)) :
  let m := fold_left write_push evs JsMap.empty in
  NoDup (JsMap.keys m)
  /\ forall g vals, JsMap.get g m = Some vals <->
       vals <> [] /\ vals = payloads evs g.
Proof.
  induction evs as [|[g0 n0] evs IH] using rev_ind.
  - split; [constructor|]. intros g vals. cbn. split; [done|].
    by intros [Hne ->].
  - cbv zeta in *. rewrite fold_left_app. cbn [fold_left].
    destruct IH as [Hnd IH].
    set (m := fold_left write_push evs JsMap.empty) in *.
    unfold write_push. cbn [fst snd]. split; [by apply NoDup_keys_set|].
    intros g vals. rewrite payloads_snoc. cbn [fst snd].
    destruct (String.eqb_spec g0 g) as [->|Hne].
    + rewrite get_set_eq.
      destruct (JsMap.get g m) as [old|] eqn:E.
      * apply IH in E as [Hold ->]. cbn. split.
        { intros [= <-]. split; [|done]. by destruct (payloads evs g). }
        { by intros [_ ->]. }
      * cbn. destruct (payloads evs g) as [|v l] eqn:El.
        { cbn. split; [by intros [= <-] | by intros [_ ->]]. }
        assert (JsMap.get g m = Some (v :: l)) as Hk by (by apply IH).
        congruence.
    + rewrite get_set_ne by done. rewrite app_nil_r. apply IH.
Qed.

Lemma groups_step_event gk mk groups (r : AnyRecord) :
  groups_step gk mk groups r
  = match group_value gk mk r with
    | Some e => write_push groups e
    | None => groups
    end.
Proof.
  unfold groups_step, group_value, group_of.
  destruct (get r gk) as [| | | |g|]; try done.
  destruct (truthy (trim g)); [|done]. cbn.
  by destruct (coerceNumber (get r mk)).
Qed.

Lemma payloads_values gk mk (rows : list AnyRecord) g :
  payloads (omap (group_value gk mk) rows) g = values_of_group gk mk rows g.
Proof.
  unfold payloads, values_of_group. induction rows as [|r rows IH]; [done|].
  cbn [omap list_omap]. destruct (group_value gk mk r) as [[g' n]|].
  - cbn [omap list_omap fst snd]. rewrite IH. by destruct (String.eqb g' g).
  - done.
Qed.

Lemma topBottomGroups_eq gk mk (rows : list AnyRecord) :
  truthy gk = true -> truthy mk = true ->
  let entries :=
    js_sort by_value_desc
      (map (fun e : string * list num =>
              {| label := e.1; value := mean_of e.2 |})
         (fold_left write_push (omap (group_value gk mk) rows) JsMap.empty)) in
  topBottomGroups (Some gk) (Some mk) rows
  = {| TopBottom.top := take 5 entries;
       TopBottom.bottom := rev (drop (length entries - 5) entries) |}.
Proof.
  intros Hgk Hmk. unfold topBottomGroups.
  rewrite (selected_truthy _ Hgk), (selected_truthy _ Hmk). cbv zeta.
  assert (fold_left (groups_step gk mk) rows JsMap.empty
          = fold_left write_push (omap (group_value gk mk) rows) JsMap.empty)
    as ->; [|done].
  rewrite <- (fold_left_events (X := num) (group_value gk mk) write_push).
  apply fold_left_ext. intros groups r. apply groups_step_event.
Qed.

(** X14. The entries that [topBottomGroups] ranks are the groups that
    have a coercible metric value, each once, labelled with the group key
    (never a display name) and valued with the mean of all the values of
    the group, added in the order of the rows.  [top] holds the first 5
    entries, [bottom] the last 5 in reverse; with 5 groups or fewer both
    hold all the groups, [bottom] being [top] reversed. *)
Theorem topBottomGroups_spec gk mk (rows : list AnyRecord) :
  truthy gk = true -> truthy mk = true ->
  exists entries : list (Bar num),
    NoDup (map label entries)
    /\ (forall b, b ∈ entries <->
          values_of_group gk mk rows (label b) <> []
          /\ value b = mean_of (values_of_group gk mk rows (label b)))
    /\ map value entries ≡ₚ group_means gk mk rows
    /\ TopBottom.top (topBottomGroups (Some gk) (Some mk) rows)
       = take 5 entries
    /\ TopBottom.bottom (topBottomGroups (Some gk) (Some mk) rows)
       = rev (drop (length entries - 5) entries)
    /\ length (TopBottom.top (topBottomGroups (Some gk) (Some mk) rows)) <= 5
    /\ length (TopBottom.bottom (topBottomGroups (Some gk) (Some mk) rows))
       <= 5
    /\ (length entries <= 5 ->
        TopBottom.bottom (topBottomGroups (Some gk) (Some mk) rows)
        = rev (TopBottom.top (topBottomGroups (Some gk) (Some mk) rows))).
Proof.
  intros Hgk Hmk. rewrite (topBottomGroups_eq _ _ _ Hgk Hmk). cbv zeta.
  destruct (write_push_spec (omap (group_value gk mk) rows)) as [Hnd Hget].
  cbv zeta in *.
  set (groups := fold_left write_push (omap (group_value gk mk) rows)
                   JsMap.empty) in *.
  set (entries := js_sort by_value_desc _).
  exists entries. cbn [TopBottom.top TopBottom.bottom].
  split_and!; [| | |done|done| | |].
  - unfold entries. rewrite js_sort_perm, map_map. cbn [label].
    exact Hnd.
  - intros [g v]. unfold entries. rewrite js_sort_perm. cbn [label value].
    rewrite list_elem_of_fmap. split.
    + intros ([g' vals] & [= -> ->] & Hin). cbn [fst snd].
      apply (elem_of_get _ _ _ Hnd), Hget in Hin as [Hne ->].
      by rewrite <- payloads_values.
    + intros [Hne ->]. exists (g, values_of_group gk mk rows g).
      split; [done|]. apply get_Some_elem_of, Hget.
      by rewrite payloads_values.
  - unfold entries, group_means. rewrite js_sort_perm, map_map. done.
  - rewrite length_take. lia.
  - rewrite length_rev, length_drop. lia.
  - intros Hle. replace (length entries - 5) with 0 by lia.
    rewrite drop_0, take_ge by lia. done.
Qed.

End TopBottomFacts.

(** ** Orders *)

Section SortedFacts.
Context {A : Type} (R : A -> A -> Prop).

Lemma StronglySorted_rev (l : list A) :
  StronglySorted R l -> StronglySorted (flip R) (rev l).
Proof.
  induction 1 as [|a l Hl IH Ha]; [constructor|].
  cbn [rev]. apply StronglySorted_app_2; [|done|repeat constructor].
  intros x1 x2 Hx1 ->%list_elem_of_singleton. unfold flip.
  rewrite Forall_forall in Ha. apply Ha.
  by apply list_elem_of_In, in_rev, list_elem_of_In in Hx1.
Qed.

Lemma StronglySorted_take n (l : list A) :
  StronglySorted R l -> StronglySorted R (take n l).
Proof.
  intros Hl. rewrite <- (take_drop n l) in Hl.
  by apply StronglySorted_app_1_l in Hl.
Qed.

Lemma StronglySorted_drop n (l : list A) :
  StronglySorted R l -> StronglySorted R (drop n l).
Proof.
  intros Hl. rewrite <- (take_drop n l) in Hl.
  by apply StronglySorted_app_1_r in Hl.
Qed.

Lemma StronglySorted_lookup (l : list A) i j a b :
  StronglySorted R l -> l !! i = Some a -> l !! j = Some b -> i < j ->
  R a b.
Proof.
  intros Hl Hi Hj Hlt. rewrite <- (take_drop j l) in Hl.
  eapply StronglySorted_app_1_elem_of; [done | |].
  - apply list_elem_of_lookup. exists i. by rewrite lookup_take_lt.
  - apply list_elem_of_lookup. exists 0. by rewrite lookup_drop, Nat.add_0_r.
Qed.

End SortedFacts.

Section RealOrders.
Context {N : Number}.
Import JsString.

Lemma asc_by_real_trans (a b c : num) :
  asc_by_real a b -> asc_by_real b c -> asc_by_real a c.
Proof.
  intros (x & y & Hx & Hy & Hxy) (y' & z & Hy' & Hz & Hyz).
  rewrite Hy in Hy'. inversion Hy'; subst.
  exists x, z. split_and!; [done..|]. by eapply Qcle_trans.
Qed.

(** When the comparator [a - b] orders the values as numbers, sorting
    with it puts them in ascending order. *)
Lemma js_sort_ascending (vals : list num) :
  compares_by_real vals = true ->
  StronglySorted asc_by_real (js_sort ascending vals).
Proof.
  intros Hcmp. apply js_sort_sorted; [apply asc_by_real_trans|].
  intros a b Ha Hb.
  destruct (compares_by_real_spec _ _ _ Hcmp Hb Ha)
    as (y & x & Hy & Hx & Hxy).
  unfold ascending, asc_by_real. split.
  - intros Hafter. exists x, y. split_and!; [done..|].
    apply Qcnot_lt_le. intros Hlt. apply Hxy in Hlt. congruence.
  - intros Hafter. exists y, x. split_and!; [done..|].
    apply Qclt_le_weak. by apply Hxy.
Qed.

Lemma asc_by_real_refl (vals : list num) a :
  compares_by_real vals = true -> a ∈ vals -> asc_by_real a a.
Proof.
  intros Hcmp Ha.
  destruct (compares_by_real_spec _ _ _ Hcmp Ha Ha) as (x & y & Hx & Hy & _).
  exists x, x. split_and!; [done..|]. apply Qcle_refl.
Qed.

(** X15. With at least one coercible metric value (and a comparator
    [a - b] that orders the values as numbers, which it does on finite
    doubles), [count] is the number of coercible values, [min] and [max]
    are values of the rows, no value is below [min] or above [max], and
    the median of an odd number of values is a value of the rows. *)
Theorem stats_extremes mk (rows : list AnyRecord) :
  truthy mk = true ->
  compares_by_real (metric_values mk rows) = true ->
  metric_values mk rows <> [] ->
  exists s lo hi,
    stats (Some mk) rows = Some s
    /\ count s = length (metric_values mk rows)
    /\ smin s = Some lo /\ smax s = Some hi
    /\ lo ∈ metric_values mk rows /\ hi ∈ metric_values mk rows
    /\ (forall v, v ∈ metric_values mk rows ->
          asc_by_real lo v /\ asc_by_real v hi)
    /\ (count s mod 2 = 1 ->
        exists m, median s = Some m /\ m ∈ metric_values mk rows).
Proof.
  intros Hmk Hcmp Hne. unfold stats. rewrite (selected_truthy _ Hmk).
  pose proof (js_sort_ascending _ Hcmp) as Hsorted.
  pose proof (js_sort_perm ascending (metric_values mk rows)) as Hperm.
  set (vals := js_sort ascending (metric_values mk rows)) in *.
  assert (length vals = length (metric_values mk rows)) as Hlen
    by by rewrite Hperm.
  assert (0 < length vals) as Hpos.
  { rewrite Hlen. destruct (metric_values mk rows); [done | cbn; lia]. }
  unfold stats_of. destruct (length vals =? 0) eqn:E.
  { apply Nat.eqb_eq in E. lia. }
  destruct (lookup_lt_is_Some_2 vals 0 Hpos) as [lo Hlo].
  destruct (lookup_lt_is_Some_2 vals (length vals - 1)) as [hi Hhi]; [lia|].
  eexists _, lo, hi. split; [done|]. cbn [count smin smax median].
  split_and!; [done | done | done | | | |].
  - rewrite <- Hperm. by eapply list_elem_of_lookup_2.
  - rewrite <- Hperm. by eapply list_elem_of_lookup_2.
  - intros v Hv. pose proof Hv as Hv'. rewrite <- Hperm in Hv.
    apply list_elem_of_lookup in Hv as [i Hi].
    pose proof (lookup_lt_Some _ _ _ Hi) as Hilt. split.
    + destruct i as [|i].
      * rewrite Hlo in Hi. inversion Hi; subst.
        by eapply asc_by_real_refl.
      * eapply (StronglySorted_lookup _ vals 0 (S i)); [done..|lia].
    + destruct (decide (i = length vals - 1)) as [->|Hni].
      * rewrite Hhi in Hi. inversion Hi; subst.
        by eapply asc_by_real_refl.
      * eapply (StronglySorted_lookup _ vals i (length vals - 1));
          [done..|lia].
  - intros Hodd. rewrite Hodd. cbn [Nat.eqb negb].
    destruct (lookup_lt_is_Some_2 vals ((length vals - 1) / 2)) as [m Hm].
    { apply Nat.Div0.div_lt_upper_bound. lia. }
    exists m. split; [done|]. rewrite <- Hperm.
    by eapply list_elem_of_lookup_2.
Qed.

(** X16. When the comparator [b - a] orders the means of the groups as
    numbers, [top] and [bottom] are cut from the entries in descending
    order of mean: [top] is in descending order, [bottom] in ascending
    order. *)
Theorem topBottomGroups_sorted gk mk (rows : list AnyRecord) :
  truthy gk = true -> truthy mk = true ->
  compares_by_real (group_means gk mk rows) = true ->
  exists entries : list (Bar num),
    map value entries ≡ₚ group_means gk mk rows
    /\ StronglySorted desc_by_real entries
    /\ TopBottom.top (topBottomGroups (Some gk) (Some mk) rows)
       = take 5 entries
    /\ TopBottom.bottom (topBottomGroups (Some gk) (Some mk) rows)
       = rev (drop (length entries - 5) entries)
    /\ StronglySorted desc_by_real
         (TopBottom.top (topBottomGroups (Some gk) (Some mk) rows))
    /\ StronglySorted (flip desc_by_real)
         (TopBottom.bottom (topBottomGroups (Some gk) (Some mk) rows)).
Proof.
  intros Hgk Hmk Hcmp. rewrite (topBottomGroups_eq _ _ _ Hgk Hmk). cbv zeta.
  set (bars := map _ _). cbn [TopBottom.top TopBottom.bottom].
  assert (map value bars = group_means gk mk rows) as Hmeans.
  { unfold bars, group_means. by rewrite map_map. }
  assert (StronglySorted desc_by_real (js_sort by_value_desc bars)) as Hsorted.
  { apply js_sort_sorted; [apply desc_by_real_trans|].
    assert (forall b, b ∈ bars -> value b ∈ group_means gk mk rows) as Hvals.
    { intros b Hb. rewrite <- Hmeans. by apply list_elem_of_fmap_2. }
    intros a b Ha Hb.
    destruct (compares_by_real_spec _ _ _ Hcmp (Hvals a Ha) (Hvals b Hb))
      as (x & y & Hx & Hy & Hxy).
    unfold by_value_desc, desc_by_real. split.
    - intros Hafter. exists x, y. split_and!; [done..|].
      apply Qcnot_lt_le. intros Hlt. apply Hxy in Hlt. congruence.
    - intros Hafter. exists y, x. split_and!; [done..|].
      apply Qclt_le_weak. by apply Hxy. }
  exists (js_sort by_value_desc bars). split_and!; [|done..| |].
  - by rewrite js_sort_perm, Hmeans.
  - by apply StronglySorted_take.
  - by apply StronglySorted_rev, StronglySorted_drop.
Qed.

End RealOrders.

(** ** Loading the pages *)

Section LoaderFacts.
Context {N : Number}.
Import Loader.

Lemma step_offset (st : Pages) (ev : Event) :
  offset st = length (rows st) ->
  offset (step st ev) = length (rows (step st ev)).
Proof.
  intros Hinv. destruct ev as [|cancelled f| |f]; cbn.
  - done.
  - unfold loadInitial_end. destruct cancelled; [done|].
    by destruct f.
  - destruct (button_enabled st); [|done].
    unfold loadMore_begin. by destruct (loadingMore st || negb (hasMore st)).
  - destruct f; cbn; [|done..]. rewrite length_app. lia.
Qed.

(** X17. Whatever the requests come to and in whatever order they end,
    [offset] is the number of rows loaded; so the offset that a
    load-more asks for is the number of rows there are, and a page is
    neither skipped nor fetched twice. *)
Theorem run_offset (evs : list Event) :
  offset (run evs) = length (rows (run evs))
  /\ forall off st',
       loadMore_begin (run evs) = Some (off, st') ->
       off = length (rows (run evs)) /\ rows st' = rows (run evs).
Proof.
  assert (offset (run evs) = length (rows (run evs))) as Hinv.
  { unfold run. induction evs as [|ev evs IH] using rev_ind; [done|].
    rewrite fold_left_app. cbn [fold_left]. by apply step_offset. }
  split; [done|]. intros off st'. unfold loadMore_begin.
  destruct (loadingMore (run evs) || negb (hasMore (run evs))); [done|].
  intros [= <- <-]. done.
Qed.

Lemma presses_nothing (st : Pages) (n : nat) :
  button_enabled st = false ->
  fold_left step (replicate n MorePressed) st = st.
Proof.
  intros Hoff. induction n as [|n IH]; [done|].
  cbn [replicate fold_left step]. by rewrite Hoff.
Qed.

Lemma shown_off (st : Pages) :
  error_shown st = true ->
  content_shown st = false /\ button_enabled st = false.
Proof.
  intros Hshown. unfold button_enabled, button_shown, content_shown.
  by rewrite Hshown, andb_false_r.
Qed.

(** X18. A press counts when the button is on the page and enabled; it
    then starts a request for the rows from [offset] on and disables the
    button, so that a second press does nothing while the request is
    under way.  A request that fails (a status that is not ok, or an
    exception) keeps the rows and the offset and sets the error; once
    an error with a message is set, the charts, the table and the button
    are off the page, and however often the button is pressed after
    that, nothing is requested: there is no second try.  After a page
    shorter than [PAGE_SIZE] the button is off the page as well. *)
Theorem loadMore_failure (st : Pages) :
  (step st MorePressed <> st <->
   loading st = false /\ error_shown st = false /\ hasMore st = true
   /\ loadingMore st = false)
  /\ (button_enabled st = true ->
      let st1 := step st MorePressed in
      loadMore_begin st = Some (offset st, st1)
      /\ rows st1 = rows st /\ loadingMore st1 = true
      /\ step st1 MorePressed = st1
      /\ (forall f n,
            (forall data, f <> Page data) ->
            let st2 := step st1 (MoreEnds f) in
            rows st2 = rows st /\ offset st2 = offset st
            /\ loadingMore st2 = false
            /\ error st2
               = Some match f with
                      | NotOk status => ("HTTP " ++ status)%string
                      | Thrown message => error_message message
                      | Page _ => ""
                      end
            /\ (error_shown st2 = true ->
                content_shown st2 = false
                /\ fold_left step (replicate n MorePressed) st2 = st2))
      /\ (forall data n,
            length data <> PAGE_SIZE ->
            let st2 := step st1 (MoreEnds (Page data)) in
            rows st2 = rows st ++ data
            /\ button_shown st2 = false
            /\ fold_left step (replicate n MorePressed) st2 = st2)).
Proof.
  split.
  - cbn [step]. unfold button_enabled, button_shown, content_shown, loadMore_begin.
    destruct st as [rs ld er off more lm]. cbn.
    destruct ld, (error_shown _) eqn:Eerr, more, lm; cbn;
      rewrite ?Eerr; cbn; split; try done; try (by intros (? & ? & ? & ?)).
  - intros Hon. cbv zeta. cbn [step]. rewrite Hon.
    pose proof Hon as Hon'.
    unfold button_enabled, button_shown, content_shown in Hon'.
    apply andb_prop in Hon' as [[[Hld Herr]%andb_prop Hmore]%andb_prop Hlm].
    apply negb_true_iff in Hld, Herr, Hlm.
    unfold loadMore_begin. rewrite Hlm, Hmore. cbn [orb negb].
    split_and!; try done.
    + cbn. unfold button_enabled. cbn. by rewrite andb_false_r.
    + intros f n Hf.
      destruct f as [data|status|message]; [by destruct (Hf data)|..];
        cbn [step loadMore_end]; (split_and!; [done..|]);
        intros Hshown; destruct (shown_off _ Hshown) as [Hc Hb];
        (split; [exact Hc | by apply presses_nothing]).
    + intros data n Hlen. apply Nat.eqb_neq in Hlen. cbn.
      assert (button_shown
                {| rows := rows st ++ data; loading := loading st;
                   error := error st; offset := offset st + length data;
                   hasMore := length data =? PAGE_SIZE;
                   loadingMore := false |} = false) as Hoff.
      { unfold button_shown. cbn. by rewrite Hlen, andb_false_r. }
      split_and!; [done | exact Hoff |].
      apply presses_nothing. unfold button_enabled. by rewrite Hoff.
Qed.

End LoaderFacts.

(** ** Headers *)

Section Headers.

Lemma is_word_upper c : JsText.is_word (JsText.upper c) = JsText.is_word c.
Proof.
  apply Bool.eqb_prop. revert c. apply ascii_all. vm_compute. reflexivity.
Qed.

Lemma upper_idem c : JsText.upper (JsText.upper c) = JsText.upper c.
Proof.
  apply Ascii.eqb_eq. revert c. apply ascii_all. vm_compute. reflexivity.
Qed.

Lemma lower_upper c : JsText.lower (JsText.upper c) = JsText.lower c.
Proof.
  apply Ascii.eqb_eq. revert c. apply ascii_all. vm_compute. reflexivity.
Qed.

Lemma upper_not_underscore c :
  Ascii.eqb c "_" = false -> Ascii.eqb (JsText.upper c) "_" = false.
Proof.
  revert c.
  assert (forall c, implb (negb (Ascii.eqb c "_"))
                      (negb (Ascii.eqb (JsText.upper c) "_")) = true) as Hall.
  { apply ascii_all. vm_compute. reflexivity. }
  intros c Hc. specialize (Hall c). rewrite Hc in Hall. cbn in Hall.
  by apply negb_true_iff.
Qed.

Lemma replace_underscores_idem s :
  JsText.replace_underscores (JsText.replace_underscores s)
  = JsText.replace_underscores s.
Proof.
  induction s as [|c s IH]; [done|]. cbn. rewrite IH. f_equal.
  destruct (Ascii.eqb_spec c "_") as [->|Hne]; [done|].
  apply Ascii.eqb_neq in Hne. by rewrite Hne.
Qed.

Lemma capitalize_words_idem w s :
  JsText.capitalize_words w (JsText.capitalize_words w s)
  = JsText.capitalize_words w s.
Proof.
  revert w. induction s as [|c s IH]; intros w; [done|]. cbn.
  destruct (JsText.is_word c && negb w) eqn:E.
  - rewrite is_word_upper, E, upper_idem, IH. done.
  - rewrite E, IH. done.
Qed.

(** Capitalizing brings no underscore in. *)
Lemma replace_capitalize w s :
  JsText.replace_underscores
    (JsText.capitalize_words w (JsText.replace_underscores s))
  = JsText.capitalize_words w (JsText.replace_underscores s).
Proof.
  revert w. induction s as [|c s IH]; intros w; [done|]. cbn.
  rewrite IH. f_equal.
  destruct (Ascii.eqb_spec c "_") as [->|Hne]; [done|].
  apply Ascii.eqb_neq in Hne.
  destruct (JsText.is_word c && negb w); [|by rewrite Hne].
  by rewrite (upper_not_underscore _ Hne).
Qed.

(** X19. Formatting a header twice is formatting it once. *)
Theorem formatHeader_idempotent (key : string) :
  formatHeader (formatHeader key) = formatHeader key.
Proof.
  unfold formatHeader. by rewrite replace_capitalize, capitalize_words_idem.
Qed.

(** X20. A header has the length of its key and no underscore, and
    differs from the key with blanks for underscores in the case of
    letters only. *)
Theorem formatHeader_shape (key : string) :
  String.length (formatHeader key) = String.length key
  /\ JsText.includes "_" (formatHeader key) = false
  /\ JsText.toLowerCase (formatHeader key)
     = JsText.toLowerCase (JsText.replace_underscores key).
Proof.
  unfold formatHeader. split_and!.
  - generalize false. induction key as [|c s IH]; intros w; [done|].
    cbn. by rewrite IH.
  - rewrite <- replace_capitalize. generalize (JsText.capitalize_words false
      (JsText.replace_underscores key)). intros s.
    induction s as [|c s IH]; [done|].
    cbn [JsText.replace_underscores JsText.includes JsText.starts_with].
    rewrite IH, andb_true_r, orb_false_r.
    destruct (Ascii.eqb_spec c "_") as [->|Hne]; [done|].
    by apply Ascii.eqb_neq, not_eq_sym.
  - generalize false. generalize (JsText.replace_underscores key).
    intros s. induction s as [|c s IH]; intros w; [done|]. cbn.
    rewrite IH. f_equal. destruct (JsText.is_word c && negb w); [|done].
    apply lower_upper.
Qed.

End Headers.

(** ** Units *)

Section Units.
Context {N : Number}.
Import JsString.

Lemma string_app_empty (s : string) : (s ++ "")%string = s.
Proof.
  induction s as [|c s IH]; [done|].
  change (String c (s ++ "")%string = String c s). by rewrite IH.
Qed.

(** X21. The label of a metric is the formatted value followed by a unit
    that depends on the metric column alone: AQI when its name, in lower
    case, contains "aqi" or "air_quality_index", whatever else it
    contains; else micrograms per cubic metre when it contains "pm"; else
    ppb when it contains "no2", "so2", "ozone" or "o3"; else nothing.  The
    tests for "pm_2_5" and "pm25" decide nothing. *)
Theorem formatMetricLabel_unit (formatValue : num -> string) (n : num)
    (metricKey : option string) :
  formatMetricLabel formatValue n metricKey
  = (formatValue n ++ metric_unit metricKey)%string.
Proof.
  unfold formatMetricLabel, metric_unit. cbv zeta.
  destruct (selected metricKey) as [mk|]; [|by rewrite string_app_empty].
  set (key := JsText.toLowerCase mk).
  destruct (JsText.includes "aqi" key || JsText.includes "air_quality_index" key);
    [done|].
  assert (JsText.includes "pm" key || JsText.includes "pm_2_5" key
          || JsText.includes "pm25" key = JsText.includes "pm" key) as ->.
  { assert (JsText.includes "pm_2_5" key = true ->
            JsText.includes "pm" key = true) as H1
      by (apply (includes_trans "pm" "pm_2_5" key); by vm_compute).
    assert (JsText.includes "pm25" key = true ->
            JsText.includes "pm" key = true) as H2
      by (apply (includes_trans "pm" "pm25" key); by vm_compute).
    destruct (JsText.includes "pm" key); [done|].
    destruct (JsText.includes "pm_2_5" key); [by discriminate H1|].
    destruct (JsText.includes "pm25" key); [by discriminate H2|]. done. }
  destruct (JsText.includes "pm" key); [done|].
  destruct (JsText.includes "no2" key); [done|].
  destruct (JsText.includes "so2" key); [done|]. cbn.
  destruct (JsText.includes "ozone" key || JsText.includes "o3" key);
    [done | by rewrite string_app_empty].
Qed.

End Units.

(** ** Aggregators without values, with a group selected *)

Section Degenerate.
Context {N : Number} {H : Host}.
Import JsString.

Lemma omap_None {A B} (f : A -> option B) (l : list A) :
  Forall (fun a => f a = None) l -> omap f l = [].
Proof.
  induction 1 as [|a l Ha _ IH]; [done|]. cbn [omap list_omap].
  by rewrite Ha.
Qed.

(** X22. When no row has a metric value that coerces to a number, every
    chart is empty: the ranking, the time series and its moving average,
    the histogram, the two lists of groups; and the metric column is not
    among the numeric columns. *)
Theorem no_metric_no_charts gk mk dk nk sgv cols (rows : list AnyRecord) :
  Forall (fun r => coerceNumber (get r mk) = None) rows ->
  chartData gk (Some mk) dk nk rows = []
  /\ timeSeries (Some mk) dk gk sgv rows = []
  /\ timeSeriesWithMA (timeSeries (Some mk) dk gk sgv rows) = []
  /\ histogram (Some mk) rows = []
  /\ topBottomGroups gk (Some mk) rows
     = {| TopBottom.top := []; TopBottom.bottom := [] |}
  /\ mk ∉ numericColumns cols rows.
Proof.
  intros Hnone.
  assert (timeSeries (Some mk) dk gk sgv rows = []) as Hts.
  { unfold timeSeries. destruct (selected (Some mk)) as [mk'|] eqn:Emk; [|done].
    assert (mk' = mk) as ->.
    { unfold selected in Emk. destruct (truthy mk); congruence. }
    destruct (selected dk) as [dk'|]; [|done].
    rewrite (fold_left_ext _ (fun m r =>
               match day_reading mk dk' gk sgv r with
               | Some e => write_always m e
               | None => m
               end)) by (intros m r; apply series_step_event).
    rewrite fold_left_events.
    rewrite omap_None; [done|].
    eapply Forall_impl; [exact Hnone|]. intros r Hr. cbn beta in Hr.
    unfold day_reading. rewrite Hr.
    destruct (other_group gk sgv r); [done|].
    destruct (get r dk'); try done. by destruct (Date_parse s). }
  split_and!.
  - unfold chartData. destruct (selected gk) as [gk'|]; [|done].
    destruct (selected (Some mk)) as [mk'|] eqn:Emk; [|done].
    assert (mk' = mk) as ->.
    { unfold selected in Emk. destruct (truthy mk); congruence. }
    rewrite chart_loop_events.
    assert (ranked_readings gk' mk dk rows = []) as ->; [|done].
    apply omap_None. eapply Forall_impl; [exact Hnone|].
    intros r Hr. cbn beta in Hr. unfold ranked_reading. rewrite Hr.
    destruct (get r gk'); try done. by destruct (truthy (trim s)).
  - done.
  - by rewrite Hts.
  - unfold histogram. destruct (selected (Some mk)) as [mk'|] eqn:Emk; [|done].
    assert (mk' = mk) as ->.
    { unfold selected in Emk. destruct (truthy mk); congruence. }
    by rewrite (metric_values_nil _ _ Hnone).
  - unfold topBottomGroups. destruct (selected gk) as [gk'|]; [|done].
    destruct (selected (Some mk)) as [mk'|] eqn:Emk; [|done].
    assert (mk' = mk) as ->.
    { unfold selected in Emk. destruct (truthy mk); congruence. }
    rewrite (fold_left_ext _ (fun m r =>
               match group_value gk' mk r with
               | Some e => write_push m e
               | None => m
               end)) by (intros m r; apply groups_step_event).
    rewrite fold_left_events.
    rewrite omap_None; [done|].
    eapply Forall_impl; [exact Hnone|]. intros r Hr. cbn beta in Hr.
    unfold group_value. rewrite Hr. by destruct (group_of gk' r).
  - intros Hin. apply elem_of_numericColumns in Hin as [_ (r & n & Hr & Hc)].
    rewrite Forall_forall in Hnone. specialize (Hnone r Hr). congruence.
Qed.

(** X23. Selecting a group in the trend chart is filtering the rows:
    the series of a selected group is the series, with no group selected,
    of the rows whose group value is that string.  The value "All" selects
    no group, also when a group has that name. *)
Theorem timeSeries_group_filter mk dk gk sgv (rows : list AnyRecord) :
  (truthy gk = true -> sgv <> "All" ->
   timeSeries mk dk (Some gk) sgv rows
   = timeSeries mk dk None "All" (rows_in_group gk sgv rows))
  /\ timeSeries mk dk (Some gk) "All" rows = timeSeries mk dk None "All" rows.
Proof.
  assert (forall mk' dk' (l : list AnyRecord) m,
            fold_left (series_step mk' dk' None "All") l m
            = fold_left (series_step mk' dk' (Some gk) "All") l m) as Hall.
  { intros mk' dk' l m. apply fold_left_ext. intros m' r.
    unfold series_step, other_group. cbn. by destruct (truthy gk). }
  split.
  - intros Hgk Hsgv. unfold timeSeries.
    destruct (selected mk) as [mk'|]; [|done].
    destruct (selected dk) as [dk'|]; [|done].
    do 2 f_equal. unfold rows_in_group.
    generalize (@JsMap.empty num).
    induction rows as [|r rows IH]; intros m; [done|].
    cbn [fold_left List.filter].
    assert (other_group (Some gk) sgv r
            = negb match get r gk with
                   | VString g' => String.eqb g' sgv
                   | _ => false
                   end) as Hother.
    { unfold other_group. rewrite (selected_truthy _ Hgk).
      apply String.eqb_neq in Hsgv. rewrite Hsgv. cbn.
      by destruct (get r gk). }
    unfold series_step at 2. rewrite Hother.
    destruct (match get r gk with
              | VString g' => String.eqb g' sgv
              | _ => false
              end) eqn:E; cbn [negb].
    + cbn [fold_left]. rewrite <- IH. f_equal.
    + apply IH.
  - unfold timeSeries.
    destruct (selected mk) as [mk'|]; [|done].
    destruct (selected dk) as [dk'|]; [|done].
    by rewrite Hall.
Qed.

End Degenerate.

(** ** The order of the time series *)

Section SeriesOrder.
Context {N : Number} {H : Host}.
Import JsString.

(** X24. When [localeCompare] is an order on the day strings (transitive,
    and never positive both ways), the time series is in ascending order
    of day. *)
Theorem timeSeries_sorted mk dk gk sgv (rows : list AnyRecord) :
  (forall a b c, (localeCompare a b <= 0)%Z -> (localeCompare b c <= 0)%Z ->
     (localeCompare a c <= 0)%Z) ->
  (forall a b, (0 < localeCompare a b)%Z -> (localeCompare b a <= 0)%Z) ->
  StronglySorted (fun p q => (localeCompare (date p) (date q) <= 0)%Z)
    (timeSeries mk dk gk sgv rows).
Proof.
  intros Htrans Hanti. unfold timeSeries.
  destruct (selected mk) as [mk'|]; [|constructor].
  destruct (selected dk) as [dk'|]; [|constructor].
  apply js_sort_sorted.
  - intros a b c. apply Htrans.
  - intros a b _ _. unfold by_date. split.
    + intros Hle%Z.ltb_ge. done.
    + intros Hlt%Z.ltb_lt. by apply Hanti.
Qed.

End SeriesOrder.

Section IsoOrder.

Lemma compare_code_units_le a b :
  (IsoDate.compare_code_units a b <= 0)%Z <-> String.compare a b <> Gt.
Proof.
  unfold IsoDate.compare_code_units.
  destruct (String.compare a b); split; (done || lia).
Qed.

Lemma compare_code_units_trans a b c :
  (IsoDate.compare_code_units a b <= 0)%Z ->
  (IsoDate.compare_code_units b c <= 0)%Z ->
  (IsoDate.compare_code_units a c <= 0)%Z.
Proof.
  rewrite !compare_code_units_le. intros Hab Hbc.
  destruct (String.compare a b) eqn:Eab; [| |done].
  - apply String.compare_eq_iff in Eab as ->. done.
  - destruct (String.compare b c) eqn:Ebc; [| |done].
    + apply String.compare_eq_iff in Ebc as ->. by rewrite Eab.
    + apply OrderedTypeEx.String_as_OT.cmp_lt in Eab, Ebc.
      pose proof (OrderedTypeEx.String_as_OT.lt_trans _ _ _ Eab Ebc) as Hac.
      apply OrderedTypeEx.String_as_OT.cmp_lt in Hac.
      unfold OrderedTypeEx.String_as_OT.cmp in Hac. by rewrite Hac.
Qed.

Lemma compare_code_units_anti a b :
  (0 < IsoDate.compare_code_units a b)%Z ->
  (IsoDate.compare_code_units b a <= 0)%Z.
Proof.
  unfold IsoDate.compare_code_units. rewrite (String.compare_antisym b a).
  destruct (String.compare a b); cbn; lia.
Qed.

End IsoOrder.

(** ** Dates among the strings *)

Section DatesAreStrings.
Context {N : Number} {H : Host}.
Import JsString.

(** X25. When [Number] reads a blank string as a finite number (it reads
    it as 0), every date column is a string column. *)
Theorem dateColumns_are_strings (allColumns : list string)
    (rows : list AnyRecord) :
  (forall s, truthy (trim s) = false -> isFinite (Number_of_string s) = true) ->
  forall c, c ∈ dateColumns allColumns rows ->
    c ∈ stringColumns allColumns rows.
Proof.
  intros Hblank c Hc.
  apply elem_of_dateColumns in Hc as [Hc Hhits].
  apply elem_of_stringColumns. split; [done|].
  destruct (List.filter (date_hit c) rows) as [|r l] eqn:E;
    [cbn in Hhits; lia|].
  assert (r ∈ List.filter (date_hit c) rows) as Hr
    by (rewrite E; apply list_elem_of_here).
  apply elem_of_filter_bool in Hr as [Hr Hhit].
  unfold date_hit in Hhit.
  destruct (get r c) as [| | | |v|] eqn:Ev; try done.
  apply andb_prop in Hhit as [Hnum _]. apply negb_true_iff in Hnum.
  exists r, v. split_and!; [done..|].
  destruct (truthy (trim v)) eqn:Et; [done|].
  rewrite (Hblank v Et) in Hnum. done.
Qed.

End DatesAreStrings.

Section BlankOnDoubles.
Import JsString.

Lemma F64_blank_is_zero s :
  truthy (trim s) = false ->
  @isFinite Float64 (@Number_of_string Float64 s) = true.
Proof.
  intros Ht. cbn. unfold F64.Number_of_string, Literal.parse.
  destruct (trim s) as [|c t]; [|done]. vm_compute. reflexivity.
Qed.

(** X26. On doubles a blank string coerces to the number 0: [Number]
    reads it as 0, and the coercion does not tell a blank cell from a
    zero. *)
Theorem coerceNumber_blank s :
  truthy (trim s) = false ->
  @coerceNumber Float64 (VString s) = Some 0%float.
Proof.
  intros Ht. cbn. unfold F64.Number_of_string, Literal.parse.
  destruct (trim s) as [|c t]; [|done]. vm_compute. reflexivity.
Qed.

End BlankOnDoubles.

(** ** The rest of [App] on doubles and ISO dates *)

Section MoreOnDoubles.
#[local] Existing Instance Float64.
#[local] Existing Instance IsoHost.
Import JsString.

(** The query "BRONX" finds what "bronx" finds: the first and the third
    row. *)
Lemma filteredRows_case_witness :
  filteredRows Sample.search_rows "BRONX"
  = filteredRows Sample.search_rows "bronx"
  /\ map (fun r => get r "boro") (filteredRows Sample.search_rows "BRONX")
     = [VString "Bronx"; VString "The BRONX"].
Proof.
  split; [|vm_compute; reflexivity].
  apply (filteredRows_case Sample.search_rows "BRONX" "bronx").
  reflexivity.
Defined.

(** Headers, columns and units on samples. *)
Example columns_on_samples :
  formatHeader "geo_id_name" = "Geo Id Name"
  /\ formatHeader "pm2_5 level-x9y" = "Pm2 5 Level-X9y"
  /\ nameKey ["geo_id"; "Geo_Name"] = Some "geo_name"
  /\ nameKey ["Borough"; "neighborhood"] = Some "neighborhood"
  /\ stringColumns ["d"; "year"] Sample.six_days = ["d"; "year"]
  /\ numericColumns ["d"; "year"] Sample.six_days = ["year"]
  /\ dateColumns ["d"; "year"] Sample.six_days = ["d"]
  /\ dateColumns ["d"; "year"] (take 5 Sample.six_days) = []
  /\ formatMetricLabel (fun _ => "12.3") 0%float (Some "PM25_AQI")
     = "12.3 AQI".
Proof. split_and!; vm_compute; reflexivity. Qed.

(** The name column of the data is [Geo_Name]; the display-name column
    is ["geo_name"], under which the row holds nothing, and the bar shows
    the group key. *)
Lemma chartData_unnamed_witness :
  nameKey ["geo_id"; "Geo_Name"] = Some "geo_name"
  /\ chartData (Some "geo_id") (Some "m") None
       (nameKey ["geo_id"; "Geo_Name"]) Sample.geo_rows
     = [ {| label := "101"; value := 5%float |} ]
  /\ exists e,
       is_latest (ranked_readings "geo_id" "m" None Sample.geo_rows) "101" e
       /\ 5%float = latest_value e.
Proof.
  split; [vm_compute; reflexivity|].
  assert (chartData (Some "geo_id") (Some "m") None
            (nameKey ["geo_id"; "Geo_Name"]) Sample.geo_rows
          = [ {| label := "101"; value := 5%float |} ]) as Heq
    by (vm_compute; reflexivity).
  split; [exact Heq|].
  refine (chartData_unnamed "geo_id" "m" None (nameKey ["geo_id"; "Geo_Name"])
            Sample.geo_rows eq_refl eq_refl _
            {| label := "101"; value := 5%float |} _).
  - intros k r Hk Hr. vm_compute in Hk. injection Hk as <-.
    apply list_elem_of_singleton in Hr as ->. vm_compute. reflexivity.
  - rewrite Heq. apply list_elem_of_here.
Defined.

(** Group B has two rows, one of them without a metric value, and comes
    first, under the name that this row gives it; the blank group is not
    an option. *)
Lemma groupOptions_spec_witness :
  groupOptions (Some "g") (Some "name") Sample.option_rows
  = [ {| GroupOption.id := "B"; GroupOption.name := "Beta" |};
      {| GroupOption.id := "A"; GroupOption.name := "A" |} ]
  /\ exists counted : list (string * nat),
       NoDup (map fst counted)
       /\ StronglySorted (fun a b => b.2 <= a.2) counted
       /\ ("B", 2) ∈ counted /\ ("A", 1) ∈ counted
       /\ forall n, (" ", n) ∉ counted.
Proof.
  split; [vm_compute; reflexivity|].
  destruct (groupOptions_spec "g" (Some "name") Sample.option_rows eq_refl)
    as (counted & _ & Hnd & Hin & Hsorted & _).
  exists counted. split_and!; [done | done | | |].
  - apply Hin. split; [lia | vm_compute; reflexivity].
  - apply Hin. split; [lia | vm_compute; reflexivity].
  - intros n Hn. apply Hin in Hn as [Hpos Hn]. vm_compute in Hn. lia.
Defined.

(** Six groups: the five greatest means on top, the five least at the
    bottom, the least first; group A has the mean of its two values. *)
Lemma topBottomGroups_spec_witness :
  map label (TopBottom.top
               (topBottomGroups (Some "g") (Some "m") Sample.group_rows))
  = ["F"; "B"; "E"; "D"; "C"]
  /\ TopBottom.bottom (topBottomGroups (Some "g") (Some "m") Sample.group_rows)
     = [ {| label := "A"; value := 2%float |};
         {| label := "C"; value := 4%float |};
         {| label := "D"; value := 6%float |};
         {| label := "E"; value := 8%float |};
         {| label := "B"; value := 10%float |} ]
  /\ exists entries : list (Bar float),
       NoDup (map label entries)
       /\ {| label := "A"; value := 2%float |} ∈ entries
       /\ TopBottom.top
            (topBottomGroups (Some "g") (Some "m") Sample.group_rows)
          = take 5 entries.
Proof.
  split; [vm_compute; reflexivity|]. split; [vm_compute; reflexivity|].
  destruct (topBottomGroups_spec "g" "m" Sample.group_rows eq_refl eq_refl)
    as (entries & Hnd & Hin & _ & Htop & _).
  exists entries. split_and!; [done | | done].
  apply Hin. cbn [label value]. split; vm_compute; [discriminate | reflexivity].
Defined.

(** The same six groups: [top] descends and [bottom] ascends. *)
Lemma topBottomGroups_sorted_witness :
  StronglySorted desc_by_real
    (TopBottom.top (topBottomGroups (Some "g") (Some "m") Sample.group_rows))
  /\ StronglySorted (flip desc_by_real)
       (TopBottom.bottom
          (topBottomGroups (Some "g") (Some "m") Sample.group_rows)).
Proof.
  destruct (topBottomGroups_sorted "g" "m" Sample.group_rows eq_refl eq_refl)
    as (entries & _ & _ & _ & _ & Htop & Hbottom);
    [vm_compute; reflexivity | done].
Defined.

(** The numbers 1 to 20: the least is 1, the greatest 20. *)
Lemma stats_extremes_witness :
  stats (Some "m") Sample.one_to_twenty
  = Some {| count := 20; smin := Some 1%float; smax := Some 20%float;
            mean := 10.5%float; median := Some 10.5%float;
            p95 := Some 20%float |}
  /\ exists s lo hi,
       stats (Some "m") Sample.one_to_twenty = Some s
       /\ smin s = Some lo /\ smax s = Some hi
       /\ forall v, v ∈ metric_values "m" Sample.one_to_twenty ->
            asc_by_real lo v /\ asc_by_real v hi.
Proof.
  split; [vm_compute; reflexivity|].
  destruct (stats_extremes "m" Sample.one_to_twenty eq_refl)
    as (s & lo & hi & Hs & _ & Hlo & Hhi & _ & _ & Hall & _);
    [vm_compute; reflexivity | vm_compute; discriminate |].
  exists s, lo, hi. done.
Defined.

(** Rows without a coercible metric value: no chart. *)
Lemma no_metric_no_charts_witness :
  chartData (Some "g") (Some "m") None None Sample.no_metric_rows = []
  /\ timeSeries (Some "m") (Some "d") None "All" Sample.no_metric_rows = []
  /\ histogram (Some "m") Sample.no_metric_rows = []
  /\ "m" ∉ numericColumns ["m"; "g"] Sample.no_metric_rows.
Proof.
  destruct (no_metric_no_charts (Some "g") "m" (Some "d") None "All"
              ["m"; "g"] Sample.no_metric_rows)
    as (_ & Hts & _ & Hh & _ & Hn).
  { repeat (constructor; [vm_compute; reflexivity|]). constructor. }
  destruct (no_metric_no_charts (Some "g") "m" None None "All"
              ["m"; "g"] Sample.no_metric_rows)
    as (Hc & _).
  { repeat (constructor; [vm_compute; reflexivity|]). constructor. }
  done.
Defined.

(** Three days out of order come out in order. *)
Lemma timeSeries_sorted_witness :
  map date (timeSeries (Some "m") (Some "d") None "All" Sample.dated_rows)
  = ["2024-01-01"; "2024-01-02"; "2024-01-03"]
  /\ StronglySorted
       (fun p q => (IsoDate.compare_code_units (date p) (date q) <= 0)%Z)
       (timeSeries (Some "m") (Some "d") None "All" Sample.dated_rows).
Proof.
  split; [vm_compute; reflexivity|].
  apply (timeSeries_sorted (H := IsoHost) (Some "m") (Some "d") None "All"
           Sample.dated_rows).
  - apply compare_code_units_trans.
  - apply compare_code_units_anti.
Defined.

(** Six days: the column of the days is a date column and a string
    column. *)
Lemma dateColumns_are_strings_witness :
  dateColumns ["d"; "year"] Sample.six_days = ["d"]
  /\ "d" ∈ stringColumns ["d"; "year"] Sample.six_days.
Proof.
  assert (dateColumns ["d"; "year"] Sample.six_days = ["d"]) as Heq
    by (vm_compute; reflexivity).
  split; [exact Heq|].
  apply (dateColumns_are_strings ["d"; "year"] Sample.six_days
           F64_blank_is_zero).
  rewrite Heq. apply list_elem_of_here.
Defined.

(** A cell of two blanks counts as 0 in the statistics. *)
Lemma coerceNumber_blank_witness :
  coerceNumber (Sample.text "  ") = Some 0%float
  /\ stats (Some "m") [Sample.record [("m", Sample.text "  ")]]
     = Some {| count := 1; smin := Some 0%float; smax := Some 0%float;
               mean := 0%float; median := Some 0%float;
               p95 := Some 0%float |}.
Proof.
  split; [|vm_compute; reflexivity].
  apply (coerceNumber_blank "  "). reflexivity.
Defined.

(** A full first page, a press, and a request that ends with status
    500: the 1000 rows stay, the error is shown, the charts, the table
    and the button are off the page, and further presses change
    nothing. *)
Lemma loadMore_failure_witness :
  Loader.button_enabled
    (Loader.run [Loader.InitialBegins;
                 Loader.InitialEnds false (Loader.Page Sample.full_page)])
  = true
  /\ Loader.error
       (Loader.run [Loader.InitialBegins;
                    Loader.InitialEnds false (Loader.Page Sample.full_page);
                    Loader.MorePressed;
                    Loader.MoreEnds (Loader.NotOk "500")])
     = Some "HTTP 500"
  /\ length
       (Loader.rows
          (Loader.run [Loader.InitialBegins;
                       Loader.InitialEnds false (Loader.Page Sample.full_page);
                       Loader.MorePressed;
                       Loader.MoreEnds (Loader.NotOk "500")]))
     = 1000
  /\ Loader.content_shown
       (Loader.run [Loader.InitialBegins;
                    Loader.InitialEnds false (Loader.Page Sample.full_page);
                    Loader.MorePressed;
                    Loader.MoreEnds (Loader.NotOk "500")])
     = false
  /\ Loader.run [Loader.InitialBegins;
                 Loader.InitialEnds false (Loader.Page Sample.full_page);
                 Loader.MorePressed;
                 Loader.MoreEnds (Loader.NotOk "500");
                 Loader.MorePressed; Loader.MorePressed]
     = Loader.run [Loader.InitialBegins;
                   Loader.InitialEnds false (Loader.Page Sample.full_page);
                   Loader.MorePressed;
                   Loader.MoreEnds (Loader.NotOk "500")].
Proof.
  assert (Loader.button_enabled
            (Loader.run [Loader.InitialBegins;
                         Loader.InitialEnds false (Loader.Page Sample.full_page)])
          = true) as Hon by (vm_compute; reflexivity).
  destruct (proj2 (loadMore_failure _) Hon) as (_ & _ & _ & _ & Hfail & _).
  destruct (Hfail (Loader.NotOk "500") 2) as (Hrows & _ & _ & Herr & Hoff);
    [done|].
  destruct Hoff as [Hcontent Hpress]; [vm_compute; reflexivity|].
  split_and!; [exact Hon | exact Herr | | exact Hcontent | exact Hpress].
  etransitivity; [apply (f_equal length Hrows)|]. vm_compute. reflexivity.
Defined.

End MoreOnDoubles.
